(** * chia-binary-manager: binary acquisition and process supervision

    A shallow embedding of the two classes of the package:
    - [BinaryManager] (release lookup, on-demand download of a binary,
      periodic update poll), and
    - [Chia] (argument templates, spawn and wait, kill, config file access).

    Everything the classes obtain from Node or from npm packages (the file
    system, HTTP, the archive extractor, [path], [os], [semver], [js-yaml],
    [cross-spawn]) is a field of the record [Host]; the code of the two
    classes is written over an arbitrary host, in a state-and-exception monad
    that also keeps a trace of the effects performed.

    Conventions.
    - A JavaScript string is a [string]; a value that is a string or
      [undefined] (or [null]) is an [option string].
    - An [async] method is run to completion: each [await] is the sequencing
      of the monad. The one place where the point of suspension matters,
      [kill], is modelled up to its [await].
    - A [throw] and a rejected promise are both [Throw]. *)

From Stdlib Require Import List String Ascii Bool Arith ZArith QArith Qround Lia.
Import ListNotations.
Local Close Scope Q_scope.
Local Open Scope list_scope.
Local Open Scope string_scope.

(* ================================================================== *)
(** ** Values, errors and outcomes *)

(** What a JavaScript [throw] (or a rejected promise) carries. *)
Inductive Error : Type :=
| UnsupportedPlatform (p : string)   (* new Error(`Unsupported platform: ${platform()}`) *)
| BinaryNotFound (path : string)     (* new Error(`Binary not found in ${binaryPath}!`) *)
| TypeError (msg : string)           (* raised by the runtime or by a library on a bad argument *)
| HostError (msg : string).          (* network, file system, archive or parser failure *)

Inductive Outcome (A : Type) : Type :=
| Ok (a : A)
| Throw (e : Error).
Arguments Ok {A} a.
Arguments Throw {A} e.

Definition obind {A B} (o : Outcome A) (k : A -> Outcome B) : Outcome B :=
  match o with
  | Ok a => k a
  | Throw e => Throw e
  end.

(** An element of a release feed's [assets] array. [version] is the asset's
    own [version] property: [None] when the property is absent
    ([undefined]). *)
Record Asset : Type := mkAsset { name : string; version : option string }.

Record Feed : Type := mkFeed { assets : list Asset }.

(** An element of an argument array handed to [spawn]. *)
Inductive Arg : Type :=
| AStr (s : string)
| ANum (n : Z).

(** The two signals [_closed] listens to on a child process. The exit code
    of a ['close'] is [None] when Node reports [null]. *)
Inductive Signal : Type :=
| SigClose (code : option Z)
| SigError (err : Error).

(** A child process handle as returned by [spawn], together with the
    ['close'] and ['error'] signals it is going to emit, in order. *)
Record ChildProcess : Type := mkChildProcess { pid : nat; signals : list Signal }.

(** The effects the two classes perform, as recorded in the trace. *)
Inductive Event : Type :=
| EvMkdirp (dir : string)
| EvHttpGet (url : string)
| EvHttpGetStream (url : string)
| EvWriteStream (file : string)
| EvDecompress (archive dir : string)
| EvUnlink (file : string)
| EvReadFile (file : string)
| EvWriteFile (file : string)
| EvSetInterval (ms : Z)
| EvSetTimeout (ms : Z)
| EvEmit (event payload : string)
| EvSpawn (command : string) (args : list Arg) (cwd : string)
| EvKill (pid : nat).

(* ================================================================== *)
(** ** The host *)

Record Host : Type := mkHost {
  World : Type;                  (* disk, network and processes, as they are *)
  Stream : Type;                 (* body of a streamed response *)
  Config : Type;                 (* a parsed YAML document *)
  (* os: platform(), tmpdir(), homedir() *)
  platform : string;
  tmpdir : string;
  homedir : string;
  (* path: join on string arguments, basename, dirname *)
  join : list string -> string;
  basename : string -> string;
  dirname : string -> string;
  (* fs and mkdirp: existsSync, mkdirp.sync, promises.unlink, promises.readFile
     with 'utf8', promises.writeFile *)
  existsSync : string -> World -> bool;
  mkdirp_sync : string -> World -> Outcome unit * World;
  unlink : string -> World -> Outcome unit * World;
  readFile : string -> World -> Outcome string * World;
  writeFile : string -> string -> World -> Outcome unit * World;
  (* axios.get(url), giving the parsed body; axios.get(url, { responseType:
     'stream' }), giving the stream *)
  axios_get : string -> World -> Outcome Feed * World;
  axios_get_stream : string -> World -> Outcome Stream * World;
  (* createWriteStream(file), pipe, and the wait for 'finish' or 'error' *)
  write_stream : Stream -> string -> World -> Outcome unit * World;
  (* decompress(archive, dir) *)
  decompress : string -> string -> World -> Outcome unit * World;
  (* semver: which strings are versions, and how two versions compare *)
  semver_valid : string -> bool;
  semver_compare : string -> string -> comparison;
  (* js-yaml: load(text), dump(document, { lineWidth }) *)
  YAML_load : string -> Outcome Config;
  YAML_dump : Config -> Z -> Outcome string;
  (* cross-spawn: spawn(command, args, { cwd, stdio: 'pipe' }) *)
  spawn : string -> list Arg -> string -> World -> ChildProcess * World
}.

(** What the [semver] package guarantees about its order on the strings it
    accepts: comparing in the other direction gives the opposite answer, and
    "not greater" is transitive. *)
Record SemverLaws (H : Host) : Prop := mkSemverLaws {
  semver_antisym : forall a b,
    semver_valid H a = true -> semver_valid H b = true ->
    semver_compare H b a = CompOpp (semver_compare H a b);
  semver_trans : forall a b c,
    semver_valid H a = true -> semver_valid H b = true -> semver_valid H c = true ->
    semver_compare H a b <> Gt -> semver_compare H b c <> Gt ->
    semver_compare H a c <> Gt
}.
Arguments semver_antisym {H} _ a b _ _.
Arguments semver_trans {H} _ a b c _ _ _ _ _.

(* ================================================================== *)
(** ** The monad: state, exceptions and a trace *)

Record State (H : Host) (T : Type) : Type := mkState {
  this : T;                  (* the object the method runs on *)
  world : World H;
  trace : list Event         (* oldest first *)
}.
Arguments mkState {H T} this world trace.
Arguments this {H T} s.
Arguments world {H T} s.
Arguments trace {H T} s.

Definition M (H : Host) (T A : Type) : Type := State H T -> Outcome A * State H T.

Section Monad.
Context {H : Host} {T : Type}.

Definition ret {A} (a : A) : M H T A := fun s => (Ok a, s).

Definition throw {A} (e : Error) : M H T A := fun s => (Throw e, s).

Definition bind {A B} (c : M H T A) (k : A -> M H T B) : M H T B :=
  fun s => match c s with
           | (Ok a, s') => k a s'
           | (Throw e, s') => (Throw e, s')
           end.

(** [try { c } catch (err) { h err }]: the effects of [c] up to the throw
    are kept. *)
Definition try_catch {A} (c : M H T A) (h : Error -> M H T A) : M H T A :=
  fun s => match c s with
           | (Ok a, s') => (Ok a, s')
           | (Throw e, s') => h e s'
           end.

Definition lift {A} (o : Outcome A) : M H T A := fun s => (o, s).

Definition get_this : M H T T := fun s => (Ok (this s), s).

Definition set_this (t : T) : M H T unit :=
  fun s => (Ok tt, mkState t (world s) (trace s)).

Definition log (ev : Event) : M H T unit :=
  fun s => (Ok tt, mkState (this s) (world s) (trace s ++ [ev])%list).

(** A host operation, recorded in the trace before it runs. *)
Definition perform {A} (ev : Event) (op : World H -> Outcome A * World H) : M H T A :=
  fun s => let (r, w) := op (world s) in
           (r, mkState (this s) w (trace s ++ [ev])%list).

(** A host query: reads the world, leaves no trace. *)
Definition query {A} (q : World H -> A) : M H T A :=
  fun s => (Ok (q (world s)), s).
End Monad.

Declare Scope js_scope.
Delimit Scope js_scope with js.
Notation "x <- c ;; k" := (bind c (fun x => k))
  (at level 61, c at next level, right associativity) : js_scope.
Notation "c ;; k" := (bind c (fun _ => k))
  (at level 61, right associativity) : js_scope.
Local Open Scope js_scope.

(** [Array.prototype.map] with a callback that may throw. *)
Fixpoint omap {A B} (f : A -> Outcome B) (l : list A) : Outcome (list B) :=
  match l with
  | [] => Ok []
  | x :: t => obind (f x) (fun y => obind (omap f t) (fun ys => Ok (y :: ys)))
  end.

(** [Array.prototype.reduce] with an initial value and a callback that may
    throw. *)
Fixpoint oreduce {A B} (f : B -> A -> Outcome B) (l : list A) (acc : B) : Outcome B :=
  match l with
  | [] => Ok acc
  | x :: t => obind (f acc x) (fun acc' => oreduce f t acc')
  end.

(* ================================================================== *)
(** ** JavaScript odds and ends *)

(** A value that is a string or [undefined], inside a template literal. *)
Definition template (v : option string) : string :=
  match v with
  | Some s => s
  | None => "undefined"
  end.

(** Truthiness of a value that is a string, [null] or [undefined]. *)
Definition truthy (v : option string) : bool :=
  match v with
  | Some s => negb (s =? "")
  | None => false
  end.

(** [path.join] checks that every argument is a string before joining. *)
Fixpoint all_strings (args : list (option string)) : option (list string) :=
  match args with
  | [] => Some []
  | Some s :: t => option_map (cons s) (all_strings t)
  | None :: _ => None
  end.

Definition path_join (H : Host) (args : list (option string)) : Outcome string :=
  match all_strings args with
  | Some l => Ok (join H l)
  | None => Throw (TypeError "The path argument must be of type string. Received undefined")
  end.

(** [Math.round]: the nearest integer, a tie going up. *)
Definition Math_round (x : Q) : Z := Qfloor (x + (1 # 2))%Q.

(** [semver] refuses what is not a valid version string. *)
Definition semver_check (H : Host) (v : option string) : Outcome string :=
  match v with
  | Some s => if semver_valid H s then Ok s else Throw (TypeError ("Invalid Version: " ++ s))
  | None => Throw (TypeError "Invalid Version: undefined")
  end.

Definition semver_gte (H : Host) (a b : option string) : Outcome bool :=
  obind (semver_check H a) (fun x =>
  obind (semver_check H b) (fun y =>
  Ok (match semver_compare H x y with Lt => false | _ => true end))).

Definition semver_lte (H : Host) (a b : option string) : Outcome bool :=
  obind (semver_check H a) (fun x =>
  obind (semver_check H b) (fun y =>
  Ok (match semver_compare H x y with Gt => false | _ => true end))).

(* ================================================================== *)
(** ** The asset name patterns

    [/chia-([0-9]+\.[0-9]+\.[0-9]+)-win.zip/] and its linux twin. The two
    differ in the tag after the version only, so a pattern is represented by
    that tag. The dot before [zip] is unescaped and stands for any character
    but a line terminator. Each [[0-9]+] is followed by a character that is
    not a digit, so taking the longest run of digits loses no match. *)

Inductive Regex : Type := BinaryZip (tag : string).

Definition is_digit (c : ascii) : bool :=
  (48 <=? nat_of_ascii c)%nat && (nat_of_ascii c <=? 57)%nat.

Definition is_line_terminator (c : ascii) : bool :=
  (nat_of_ascii c =? 10)%nat || (nat_of_ascii c =? 13)%nat.

(** The longest run of digits at the head of [s], and what follows it. *)
Fixpoint digits (s : string) : string * string :=
  match s with
  | String c t =>
      if is_digit c then let (d, r) := digits t in (String c d, r)
      else (EmptyString, s)
  | EmptyString => (EmptyString, EmptyString)
  end.

(** [[0-9]+] *)
Definition digits1 (s : string) : option (string * string) :=
  match digits s with
  | (EmptyString, _) => None
  | (d, r) => Some (d, r)
  end.

(** A literal at the head of [s]; gives what follows it. *)
Fixpoint literal (lit s : string) : option string :=
  match lit, s with
  | EmptyString, _ => Some s
  | String a l, String b t => if Ascii.eqb a b then literal l t else None
  | String _ _, EmptyString => None
  end.

(** [.] *)
Definition any_char (s : string) : option string :=
  match s with
  | String c t => if is_line_terminator c then None else Some t
  | EmptyString => None
  end.

Definition obind_opt {A B} (o : option A) (k : A -> option B) : option B :=
  match o with
  | Some a => k a
  | None => None
  end.

(** The pattern tried at the head of [s]; gives capture group 1. *)
Definition match_here (re : Regex) (s : string) : option string :=
  let 'BinaryZip tag := re in
  obind_opt (literal "chia-" s) (fun s =>
  obind_opt (digits1 s) (fun '(major, s) =>
  obind_opt (literal "." s) (fun s =>
  obind_opt (digits1 s) (fun '(minor, s) =>
  obind_opt (literal "." s) (fun s =>
  obind_opt (digits1 s) (fun '(patch, s) =>
  obind_opt (literal tag s) (fun s =>
  obind_opt (any_char s) (fun s =>
  obind_opt (literal "zip" s) (fun _ =>
  Some (major ++ "." ++ minor ++ "." ++ patch)))))))))).

(** [name.match(re)], reduced to [matches[1]]: the pattern is tried at every
    position from the left, the first success wins. [None] is [null]. *)
Fixpoint regex_match (re : Regex) (s : string) : option string :=
  match match_here re s with
  | Some v => Some v
  | None =>
      match s with
      | String _ t => regex_match re t
      | EmptyString => None
      end
  end.

(* ================================================================== *)
(** ** class BinaryManager *)

Definition repo : string := "chia-binary-manager".

Definition releaseUrl : string :=
  "https://api.github.com/repos/felixbrucker/" ++ repo ++ "/releases/40423266".

(** The [latestRelease] property: never assigned, assigned [null], or
    assigned an asset. *)
Inductive Cached : Type :=
| Undefined
| Null
| Obj (a : Asset).

Record BinaryManager : Type := mkBinaryManager {
  binaryDirectory : string;
  chiaRootDirectory : string;
  notifyOnUpdate : bool;
  latestRelease : Cached
}.

Definition set_latestRelease (m : BinaryManager) (c : Cached) : BinaryManager :=
  mkBinaryManager (binaryDirectory m) (chiaRootDirectory m) (notifyOnUpdate m) c.

(** Reading [.version] off the [latestRelease] property. *)
Definition version_of (c : Cached) : Outcome (option string) :=
  match c with
  | Obj a => Ok (version a)
  | Null => Throw (TypeError "Cannot read properties of null (reading 'version')")
  | Undefined => Throw (TypeError "Cannot read properties of undefined (reading 'version')")
  end.

(** class Chia, as far as its constructor goes; its methods follow below. *)
Record Chia : Type := mkChia {
  binaryPath : string;
  rootDirectory : string;
  runningProcess : option ChildProcess
}.

Definition new_Chia (binaryPath rootDirectory : string) : Chia :=
  mkChia binaryPath rootDirectory None.

Section BinaryManager.
Variable H : Host.

Definition _defaultBinaryDirectory : string :=
  join H [homedir H; ".config"; "chia-binary-manager"; "binaries"].

Definition _defaultChiaRootDirectory : string :=
  join H [homedir H; ".config"; "chia-binary-manager"; "chia-root"].

(** The constructor; an absent option takes its default. *)
Definition new_BinaryManager (binaryDirectory chiaRootDirectory : option string)
    (notifyOnUpdate : option bool) : BinaryManager :=
  mkBinaryManager
    (match binaryDirectory with Some d => d | None => _defaultBinaryDirectory end)
    (match chiaRootDirectory with Some d => d | None => _defaultChiaRootDirectory end)
    (match notifyOnUpdate with Some b => b | None => true end)
    Undefined.

Definition _binaryName : string :=
  if platform H =? "win32" then "chia.exe" else "chia".

Definition _binaryZipRegex : Outcome Regex :=
  if platform H =? "win32" then Ok (BinaryZip "-win")
  else if platform H =? "linux" then Ok (BinaryZip "-linux")
  else Throw (UnsupportedPlatform (platform H)).

Definition _getDownloadUrl (version : option string) : Outcome string :=
  if platform H =? "win32" then
    Ok ("https://github.com/felixbrucker/" ++ repo ++ "/releases/download/binaries/chia-"
        ++ template version ++ "-win.zip")
  else if platform H =? "linux" then
    Ok ("https://github.com/felixbrucker/" ++ repo ++ "/releases/download/binaries/chia-"
        ++ template version ++ "-linux.zip")
  else Throw (UnsupportedPlatform (platform H)).

Definition _getBinaryDirectory (m : BinaryManager) (version : option string)
    : Outcome string :=
  path_join H [Some (binaryDirectory m); version].

(** The callback of [data.assets.map]. *)
Definition set_version (asset : Asset) : Outcome Asset :=
  obind _binaryZipRegex (fun re =>
  match regex_match re (name asset) with
  | Some v => Ok (mkAsset (name asset) (Some v))
  | None => Ok asset
  end).

(** The callback of [matchingAssets.reduce]. *)
Definition keep_latest (latestReleaseAsset : option Asset) (curr : Asset)
    : Outcome (option Asset) :=
  match latestReleaseAsset with
  | None => Ok (Some curr)
  | Some l =>
      obind (semver_gte H (version l) (version curr)) (fun b =>
      Ok (Some (if b then l else curr)))
  end.

Definition _getLatestRelease : M H BinaryManager (option Asset) :=
  data <- perform (EvHttpGet releaseUrl) (axios_get H releaseUrl) ;;
  assets <- lift (omap set_version (assets data)) ;;
  let matchingAssets := filter (fun asset => truthy (version asset)) assets in
  lift (oreduce keep_latest matchingAssets None).

Definition _downloadBinary (version : option string) : M H BinaryManager unit :=
  tempDir <- lift (path_join H [Some (tmpdir H); Some "chia-binary-manager"]) ;;
  perform (EvMkdirp tempDir) (mkdirp_sync H tempDir) ;;
  zipFilePath <- lift (path_join H [Some tempDir;
                                    Some ("chia-" ++ template version ++ ".zip")]) ;;
  url <- lift (_getDownloadUrl version) ;;
  res <- perform (EvHttpGetStream url) (axios_get_stream H url) ;;
  perform (EvWriteStream zipFilePath) (write_stream H res zipFilePath) ;;
  m <- get_this ;;
  dir <- lift (_getBinaryDirectory m version) ;;
  perform (EvDecompress zipFilePath dir) (decompress H zipFilePath dir) ;;
  perform (EvUnlink zipFilePath) (unlink H zipFilePath).

Definition _ensureVersionExists (version : option string) : M H BinaryManager unit :=
  m <- get_this ;;
  binaryDirectoryForVersion <- lift (_getBinaryDirectory m version) ;;
  binaryPath <- lift (path_join H [Some binaryDirectoryForVersion; Some _binaryName]) ;;
  present <- query (existsSync H binaryPath) ;;
  if present then ret tt
  else
    perform (EvMkdirp binaryDirectoryForVersion)
            (mkdirp_sync H binaryDirectoryForVersion) ;;
    _downloadBinary version ;;
    present <- query (existsSync H binaryPath) ;;
    if present then ret tt else throw (BinaryNotFound binaryPath).

Definition _getChiaBinaryPath (version : option string) : M H BinaryManager string :=
  _ensureVersionExists version ;;
  let binName := _binaryName in
  m <- get_this ;;
  binaryDirectory <- lift (_getBinaryDirectory m version) ;;
  lift (path_join H [Some binaryDirectory; Some binName]).

(** [version] is [None] when the caller passes no argument; the default is
    then evaluated. *)
Definition getConfiguredChia (version : option string) : M H BinaryManager Chia :=
  m <- get_this ;;
  version <- match version with
             | Some v => ret (Some v)
             | None => lift (version_of (latestRelease m))
             end ;;
  chiaBinaryPath <- _getChiaBinaryPath version ;;
  m <- get_this ;;
  ret (new_Chia chiaBinaryPath (chiaRootDirectory m)).

Definition _updateLatestRelease : M H BinaryManager unit :=
  fetched <- try_catch (r <- _getLatestRelease ;; ret (Some r)) (fun _ => ret None) ;;
  match fetched with
  | None => ret tt                                   (* catch (err) { return; } *)
  | Some None => ret tt                              (* !latestRelease *)
  | Some (Some latestRelease') =>
      m <- get_this ;;
      cached <- lift (version_of (latestRelease m)) ;;
      not_newer <- lift (semver_lte H (version latestRelease') cached) ;;
      if not_newer then ret tt
      else
        try_catch
          (_ensureVersionExists (version latestRelease') ;;
           m <- get_this ;;
           set_this (set_latestRelease m (Obj latestRelease')) ;;
           log (EvEmit "new-release" (template (version latestRelease'))))
          (fun _ => ret tt)
  end.

Definition init : M H BinaryManager unit :=
  m <- get_this ;;
  perform (EvMkdirp (binaryDirectory m)) (mkdirp_sync H (binaryDirectory m)) ;;
  r <- _getLatestRelease ;;
  m <- get_this ;;
  set_this (set_latestRelease m (match r with Some a => Obj a | None => Null end)) ;;
  if notifyOnUpdate m then
    log (EvSetInterval (15 * 60 * 1000)) ;;
    _updateLatestRelease
  else ret tt.

(** Poll executions one after the other, the timer firing once per element
    of [between]; each element is what the rest of the world (the feed, the
    disk) has turned into since the execution before. An execution that
    throws ends as a rejected promise nobody awaits; the timer is taken to
    go on. This is the schedule in which every execution has ended before
    the timer fires again; [setInterval] does not wait for that, and an
    execution still suspended in its download when the next one starts is
    what [overlap] below runs. *)
Fixpoint polls (between : list (World H -> World H)) (s : State H BinaryManager)
    : State H BinaryManager :=
  match between with
  | [] => s
  | change :: rest =>
      polls rest (snd (_updateLatestRelease
                         (mkState (this s) (change (world s)) (trace s))))
  end.
End BinaryManager.

(* ================================================================== *)
(** ** class Chia *)

(** The promise built by [_closed]. A rejection carries either the exit code
    handed to the ['close'] listener or the error handed to the ['error']
    listener. *)
Inductive Reason : Type :=
| ExitCode (code : option Z)
| SpawnError (err : Error).

Inductive Promise : Type :=
| Pending
| Fulfilled
| Rejected (r : Reason).

(** The closure of [_closed]: the [resolved] flag, which of the two [once]
    listeners are still registered, and the promise. *)
Record Closed : Type := mkClosed {
  resolved : bool;
  close_listener : bool;
  error_listener : bool;
  promise : Promise
}.

(** [resolve()] and [reject(r)] act on a pending promise only. *)
Definition settle (p : Promise) (st : Closed) : Closed :=
  mkClosed (resolved st) (close_listener st) (error_listener st)
           (match promise st with Pending => p | settled => settled end).

Definition set_resolved (st : Closed) : Closed :=
  mkClosed true (close_listener st) (error_listener st) (promise st).

(** [code === 0] *)
Definition is_zero (code : option Z) : bool :=
  match code with
  | Some 0%Z => true
  | _ => false
  end.

(** The ['close'] listener. *)
Definition on_close (code : option Z) (st : Closed) : Closed :=
  if resolved st then st
  else
    let st := set_resolved st in
    if is_zero code then settle Fulfilled st
    else settle (Rejected (ExitCode code)) st.

(** The ['error'] listener. *)
Definition on_error (err : Error) (st : Closed) : Closed :=
  if resolved st then st
  else
    let st := set_resolved st in
    settle (Rejected (SpawnError err)) st.

(** The child process emits a signal: a [once] listener is removed, then
    run; a signal without a listener left does not reach the closure. *)
Definition emit (st : Closed) (sig : Signal) : Closed :=
  match sig with
  | SigClose code =>
      if close_listener st then
        on_close code (mkClosed (resolved st) false (error_listener st) (promise st))
      else st
  | SigError err =>
      if error_listener st then
        on_error err (mkClosed (resolved st) (close_listener st) false (promise st))
      else st
  end.

(** The closure right after [_closed] has registered both listeners. *)
Definition listening : Closed := mkClosed false true true Pending.

(** [_closed(ref)], observed after [ref] has emitted all its signals. *)
Definition _closed (ref : ChildProcess) : Closed :=
  fold_left emit (signals ref) listening.

(** The parameter bag of [createPlot]; [None] is an absent (or, for the two
    keys, a [null]) property. *)
Record PlotParams : Type := mkPlotParams {
  tempDirectory : string;
  destinationDirectory : string;
  kSize : option Z;
  threads : option Z;
  buckets : option Z;
  memoryInMib : option Q;
  farmerPublicKey : option string;
  poolPublicKey : option string;
  useBitfield : option bool
}.

Definition default {A} (d : A) (v : option A) : A :=
  match v with
  | Some a => a
  | None => d
  end.

(** The properties of a [Chia] object that hold strings, by name; a name
    the constructor never assigns reads as [undefined]. *)
Definition Chia_property (c : Chia) (p : string) : option string :=
  if p =? "binaryPath" then Some (binaryPath c)
  else if p =? "rootDirectory" then Some (rootDirectory c)
  else None.

Definition set_runningProcess (c : Chia) (p : option ChildProcess) : Chia :=
  mkChia (binaryPath c) (rootDirectory c) p.

Section Chia.
Variable H : Host.

Definition _defaultArgs (c : Chia) : list Arg :=
  [AStr "--root-path"; AStr (rootDirectory c)].

(** [this.chiaRootDirectory] is read here. *)
Definition _chiaConfigPath (c : Chia) : Outcome string :=
  path_join H [Chia_property c "chiaRootDirectory"; Some "config"; Some "config.yaml"].

Definition readConfig : M H Chia (Config H) :=
  c <- get_this ;;
  path <- lift (_chiaConfigPath c) ;;
  configYaml <- perform (EvReadFile path) (readFile H path) ;;
  lift (YAML_load H configYaml).

Definition writeConfig (config : Config H) : M H Chia unit :=
  configYaml <- lift (YAML_dump H config 140) ;;
  c <- get_this ;;
  path <- lift (_chiaConfigPath c) ;;
  perform (EvWriteFile path) (writeFile H path configYaml).

Definition _spawnBinary (args : list Arg) : M H Chia ChildProcess :=
  c <- get_this ;;
  perform (EvSpawn ("./" ++ basename H (binaryPath c)) args (dirname H (binaryPath c)))
          (fun w => let (p, w') := spawn H ("./" ++ basename H (binaryPath c)) args
                                         (dirname H (binaryPath c)) w in
                    (Ok p, w')).

(** Gives the promise the method awaits, as the child's signals leave it:
    the method returns when it is fulfilled and throws its reason when it
    is rejected. The output listeners of [_registerOutputEvents] take no
    part in that. *)
Definition _spawnBinaryAndWaitForClose (args : list Arg) : M H Chia Promise :=
  p <- _spawnBinary args ;;
  c <- get_this ;;
  set_this (set_runningProcess c (Some p)) ;;
  let closed := _closed p in
  ret (promise closed).

(** [init] of class [Chia]. *)
Definition Chia_init : M H Chia Promise :=
  c <- get_this ;;
  _spawnBinaryAndWaitForClose (_defaultArgs c ++ [AStr "init"])%list.

Definition startDaemon : M H Chia Promise :=
  c <- get_this ;;
  _spawnBinaryAndWaitForClose (_defaultArgs c ++ [AStr "run_daemon"])%list.

Definition startHarvester : M H Chia Promise :=
  c <- get_this ;;
  _spawnBinaryAndWaitForClose (_defaultArgs c ++ [AStr "start"; AStr "harvester"])%list.

(** The argument array [createPlot] builds: the [concat], then the three
    conditional [push]es. *)
Definition createPlot_args (c : Chia) (p : PlotParams) : list Arg :=
  let args := (_defaultArgs c ++ [
    AStr "plots";
    AStr "create";
    AStr "-k";
    ANum (default 32%Z (kSize p));
    AStr "-r";
    ANum (default 2%Z (threads p));
    AStr "-u";
    ANum (default 128%Z (buckets p));
    AStr "-b";
    ANum (Math_round (default (4000 # 1)%Q (memoryInMib p)));
    AStr "-t";
    AStr (tempDirectory p);
    AStr "-2";
    AStr (destinationDirectory p);
    AStr "-d";
    AStr (destinationDirectory p)
  ])%list in
  let args := if truthy (farmerPublicKey p)
              then (args ++ [AStr "-f"; AStr (template (farmerPublicKey p))])%list
              else args in
  let args := if truthy (poolPublicKey p)
              then (args ++ [AStr "-p"; AStr (template (poolPublicKey p))])%list
              else args in
  let args := if negb (default false (useBitfield p))
              then (args ++ [AStr "-e"])%list
              else args in
  args.

Definition createPlot (p : PlotParams) : M H Chia Promise :=
  c <- get_this ;;
  _spawnBinaryAndWaitForClose (createPlot_args c p).

Definition clone (c : Chia) : Chia :=
  new_Chia (binaryPath c) (rootDirectory c).

(** [kill], up to its only [await]: [None] when the method returns at
    once, [Some ms] when it is left waiting on a timer of [ms]
    milliseconds, after which it returns without doing anything else. The
    state given back is the one at that point. *)
Definition kill : M H Chia (option Z) :=
  c <- get_this ;;
  match runningProcess c with
  | None => ret None
  | Some p =>
      log (EvKill (pid p)) ;;
      set_this (set_runningProcess c None) ;;
      log (EvSetTimeout 1000) ;;
      ret (Some 1000%Z)
  end.
End Chia.

(* ================================================================== *)
(** ** A simulated host

    A small concrete host to run the code on: the file system is an
    association list from paths to contents, the release feed and the
    downloadable archives are part of the world, [path] works on ["/"], and
    [semver] is the package's order on plain [MAJOR.MINOR.PATCH] strings. *)

Fixpoint lookup {A} (k : string) (l : list (string * A)) : option A :=
  match l with
  | [] => None
  | (k', v) :: t => if k =? k' then Some v else lookup k t
  end.

Definition remove_key {A} (k : string) (l : list (string * A)) : list (string * A) :=
  filter (fun kv => negb (k =? fst kv)) l.

Fixpoint decimal (s : string) (acc : N) : N :=
  match s with
  | String c t => decimal t (acc * 10 + (N_of_ascii c - 48))%N
  | EmptyString => acc
  end.

Definition MAX_SAFE_INTEGER : N := 9007199254740991.

(** A numeric identifier: no leading zero, at most [MAX_SAFE_INTEGER]. *)
Definition numeric_identifier (d : string) : option N :=
  match d with
  | String "0"%char (String _ _) => None
  | _ => if (decimal d 0 <=? MAX_SAFE_INTEGER)%N then Some (decimal d 0) else None
  end.

Definition parse_version (s : string) : option (N * N * N) :=
  obind_opt (digits1 s) (fun '(major, s) =>
  obind_opt (literal "." s) (fun s =>
  obind_opt (digits1 s) (fun '(minor, s) =>
  obind_opt (literal "." s) (fun s =>
  obind_opt (digits1 s) (fun '(patch, s) =>
  match s with
  | EmptyString =>
      obind_opt (numeric_identifier major) (fun x =>
      obind_opt (numeric_identifier minor) (fun y =>
      obind_opt (numeric_identifier patch) (fun z => Some (x, y, z))))
  | String _ _ => None
  end))))).

Definition compare_main (a b : N * N * N) : comparison :=
  let '(x1, y1, z1) := a in
  let '(x2, y2, z2) := b in
  match (x1 ?= x2)%N with
  | Eq => match (y1 ?= y2)%N with
          | Eq => (z1 ?= z2)%N
          | c => c
          end
  | c => c
  end.

Definition sim_semver_valid (s : string) : bool :=
  match parse_version s with
  | Some _ => true
  | None => false
  end.

Definition sim_semver_compare (a b : string) : comparison :=
  match parse_version a, parse_version b with
  | Some x, Some y => compare_main x y
  | _, _ => Eq
  end.

Fixpoint last_segment (s acc : string) : string :=
  match s with
  | EmptyString => acc
  | String c t =>
      if Ascii.eqb c "/" then last_segment t "" else last_segment t (acc ++ String c "")
  end.

Definition sim_basename (s : string) : string := last_segment s "".

Definition sim_dirname (s : string) : string :=
  substring 0 (String.length s - String.length (sim_basename s) - 1) s.

Record SimWorld : Type := mkSimWorld {
  sim_files : list (string * list string);     (* path |-> lines, or archive entries *)
  sim_feed : Outcome Feed;                     (* what the release URL answers *)
  sim_archives : list (string * list string);  (* download URL |-> archive entries *)
  sim_signals : list Signal;                   (* what the next child will emit *)
  sim_pid : nat
}.

Definition sim_put (path : string) (content : list string) (w : SimWorld) : SimWorld :=
  mkSimWorld ((path, content) :: remove_key path (sim_files w))
             (sim_feed w) (sim_archives w) (sim_signals w) (sim_pid w).

Definition sim_existsSync (path : string) (w : SimWorld) : bool :=
  match lookup path (sim_files w) with
  | Some _ => true
  | None => false
  end.

Definition sim_mkdirp_sync (dir : string) (w : SimWorld) : Outcome unit * SimWorld :=
  (Ok tt, if sim_existsSync dir w then w else sim_put dir [] w).

Definition sim_unlink (path : string) (w : SimWorld) : Outcome unit * SimWorld :=
  if sim_existsSync path w then
    (Ok tt, mkSimWorld (remove_key path (sim_files w))
                       (sim_feed w) (sim_archives w) (sim_signals w) (sim_pid w))
  else (Throw (HostError "ENOENT"), w).

Definition sim_readFile (path : string) (w : SimWorld) : Outcome string * SimWorld :=
  match lookup path (sim_files w) with
  | Some lines => (Ok (String.concat "" lines), w)
  | None => (Throw (HostError "ENOENT"), w)
  end.

Definition sim_writeFile (path text : string) (w : SimWorld) : Outcome unit * SimWorld :=
  (Ok tt, sim_put path [text] w).

Definition sim_axios_get (url : string) (w : SimWorld) : Outcome Feed * SimWorld :=
  if url =? releaseUrl then (sim_feed w, w)
  else (Throw (HostError "Request failed with status code 404"), w).

Definition sim_axios_get_stream (url : string) (w : SimWorld)
    : Outcome (list string) * SimWorld :=
  match lookup url (sim_archives w) with
  | Some entries => (Ok entries, w)
  | None => (Throw (HostError "Request failed with status code 404"), w)
  end.

Definition sim_write_stream (entries : list string) (path : string) (w : SimWorld)
    : Outcome unit * SimWorld :=
  (Ok tt, sim_put path entries w).

Definition sim_decompress (archive dir : string) (w : SimWorld) : Outcome unit * SimWorld :=
  match lookup archive (sim_files w) with
  | Some entries =>
      (Ok tt, fold_left (fun w e => sim_put (String.concat "/" [dir; e]) [] w) entries w)
  | None => (Throw (HostError "ENOENT"), w)
  end.

Definition sim_spawn (command : string) (args : list Arg) (cwd : string) (w : SimWorld)
    : ChildProcess * SimWorld :=
  (mkChildProcess (sim_pid w) (sim_signals w),
   mkSimWorld (sim_files w) (sim_feed w) (sim_archives w) [] (S (sim_pid w))).

Definition sim (platform : string) : Host :=
  {| World := SimWorld;
     Stream := list string;
     Config := string;
     platform := platform;
     tmpdir := "/tmp";
     homedir := "/home/farmer";
     join := String.concat "/";
     basename := sim_basename;
     dirname := sim_dirname;
     existsSync := sim_existsSync;
     mkdirp_sync := sim_mkdirp_sync;
     unlink := sim_unlink;
     readFile := sim_readFile;
     writeFile := sim_writeFile;
     axios_get := sim_axios_get;
     axios_get_stream := sim_axios_get_stream;
     write_stream := sim_write_stream;
     decompress := sim_decompress;
     semver_valid := sim_semver_valid;
     semver_compare := sim_semver_compare;
     YAML_load := fun text => Ok text;
     YAML_dump := fun config _ => Ok config;
     spawn := sim_spawn |}.

(** A world with an empty disk whose feed lists the given asset names and
    whose download URLs each serve an archive holding the binary. *)
Definition asset_named (n : string) : Asset := mkAsset n None.

Definition sim_world (names : list string) (archives : list (string * list string))
    : SimWorld :=
  mkSimWorld [] (Ok (mkFeed (map asset_named names))) archives [] 1.

Definition start {T} (platform : string) (t : T) (w : SimWorld) : State (sim platform) T :=
  mkState (H := sim platform) t w [].

(** A manager and two feeds to run the lookup on. *)
Definition example_manager (p : string) : BinaryManager :=
  new_BinaryManager (sim p) (Some "/opt/chia") (Some "/srv/chia-root") None.

Definition foreign_feed : SimWorld :=
  sim_world ["notes.txt"; "chia-9.9.9-win.zip"] [].

Definition mixed_feed : SimWorld :=
  sim_world ["chia-1.9.0-linux.zip"; "chia-1.10.0-linux.zip";
             "chia-9.9.9-win.zip"; "notes.txt"] [].

(** A linux world whose feed lists two linux releases, a windows archive
    and a text file, and whose download URLs serve the two linux archives. *)
Definition linux_archive (v : string) : string :=
  "https://github.com/felixbrucker/chia-binary-manager/releases/download/binaries/chia-"
  ++ v ++ "-linux.zip".

Definition stocked_world : SimWorld :=
  sim_world ["chia-1.9.0-linux.zip"; "chia-1.10.0-linux.zip";
             "chia-9.9.9-win.zip"; "notes.txt"]
            [(linux_archive "1.9.0", ["chia"]); (linux_archive "1.10.0", ["chia"])].

(** A manager on linux that has 1.9.0 cached. *)
Definition manager_at_1_9_0 : BinaryManager :=
  set_latestRelease (example_manager "linux")
                    (Obj (mkAsset "chia-1.9.0-linux.zip" (Some "1.9.0"))).

(* ================================================================== *)
(** ** What the specification says, as definitions

    The definitions of this part follow the words of the specification, not
    the code; the theorems below compare the two. *)

(** The outcome of [waitForExit] the specification assigns to the first
    signal of a child: success on a close with code 0, a rejection carrying
    the code on any other close, a rejection carrying the error on a spawn
    failure. *)
Definition spec_outcome (first : Signal) : Promise :=
  match first with
  | SigClose (Some 0%Z) => Fulfilled
  | SigClose code => Rejected (ExitCode code)
  | SigError err => Rejected (SpawnError err)
  end.

(** The flag of an optional key: present with the given value when the key
    is supplied, absent otherwise. An empty string counts as not supplied. *)
Definition spec_key_flag (flag : string) (key : option string) : list Arg :=
  match key with
  | Some k => if k =? "" then [] else [AStr flag; AStr k]
  | None => []
  end.

(** The argument list the specification documents for [createPlot]. *)
Definition spec_createPlot_args (root : string) (p : PlotParams) : list Arg :=
  ([AStr "--root-path"; AStr root; AStr "plots"; AStr "create";
    AStr "-k"; ANum (default 32%Z (kSize p));
    AStr "-r"; ANum (default 2%Z (threads p));
    AStr "-u"; ANum (default 128%Z (buckets p));
    AStr "-b"; ANum (Math_round (default (4000 # 1)%Q (memoryInMib p)));
    AStr "-t"; AStr (tempDirectory p);
    AStr "-2"; AStr (destinationDirectory p);
    AStr "-d"; AStr (destinationDirectory p)]
   ++ spec_key_flag "-f" (farmerPublicKey p)
   ++ spec_key_flag "-p" (poolPublicKey p)
   ++ (if default false (useBitfield p) then [] else [AStr "-e"]))%list.

(** The parameter bag holding the two required directories only. *)
Definition required_only (temp dest : string) : PlotParams :=
  mkPlotParams temp dest None None None None None None None.

(** The [new-release] payloads of a trace, oldest first. *)
Fixpoint notifications (tr : list Event) : list string :=
  match tr with
  | [] => []
  | EvEmit event v :: t =>
      if event =? "new-release" then v :: notifications t else notifications t
  | _ :: t => notifications t
  end.

(** How many archive downloads, and how many extractions, a trace holds. *)
Fixpoint downloads (tr : list Event) : nat :=
  match tr with
  | [] => 0
  | EvHttpGetStream _ :: t => S (downloads t)
  | _ :: t => downloads t
  end.

Fixpoint extractions (tr : list Event) : nat :=
  match tr with
  | [] => 0
  | EvDecompress _ _ :: t => S (extractions t)
  | _ :: t => extractions t
  end.

(** How many requests to the release feed a trace holds. *)
Fixpoint feed_requests (tr : list Event) : nat :=
  match tr with
  | [] => 0
  | EvHttpGet _ :: t => S (feed_requests t)
  | _ :: t => feed_requests t
  end.

(** The cached release as a version string, when there is one. *)
Definition cached_version (m : BinaryManager) : option string :=
  match latestRelease m with
  | Obj a => version a
  | _ => None
  end.

(** [<binaryDirectory>/<version>/<binaryName>] *)
Definition binary_path (H : Host) (m : BinaryManager) (v : string) : string :=
  join H [join H [binaryDirectory m; v]; _binaryName H].

(** A platform the package knows. *)
Definition supported (p : string) : bool := (p =? "win32") || (p =? "linux").

(** The same state with another cached release. *)
Definition with_cached {H : Host} (c : Cached) (s : State H BinaryManager)
    : State H BinaryManager :=
  mkState (set_latestRelease (this s) c) (world s) (trace s).

(** What [_getLatestRelease] does with the feed once the request has
    answered: the [map], the [filter] and the [reduce]. *)
Definition latest_of (H : Host) (feed : list Asset) : Outcome (option Asset) :=
  obind (omap (set_version H) feed) (fun assets =>
  oreduce (keep_latest H) (filter (fun asset => truthy (version asset)) assets) None).

(** The [map] callback under a pattern [re]. *)
Definition tagged (re : Regex) (asset : Asset) : Asset :=
  match regex_match re (name asset) with
  | Some v => mkAsset (name asset) (Some v)
  | None => asset
  end.

(** [u] is a valid version at least as great as the valid version [v]. *)
Definition at_least (H : Host) (u v : option string) : Prop :=
  exists x y, u = Some x /\ v = Some y /\
    semver_valid H x = true /\ semver_valid H y = true /\
    semver_compare H x y <> Lt.

(** The assets that take part in the [reduce] under a pattern [re]. *)
Definition candidates (re : Regex) (feed : list Asset) : list Asset :=
  filter (fun asset => truthy (version asset)) (map (tagged re) feed).

(** Whether an asset's name matches the pattern. *)
Definition name_matches (re : Regex) (asset : Asset) : bool :=
  match regex_match re (name asset) with
  | Some _ => true
  | None => false
  end.

(** C6 as the specification words it: on a supported platform, a feed none
    of whose asset names matches the pattern makes the lookup fail. *)
Definition no_match_fails : Prop :=
  forall (H : Host) (re : Regex) (s : State H BinaryManager) (data : Feed) (w' : World H),
    _binaryZipRegex H = Ok re ->
    axios_get H releaseUrl (world s) = (Ok data, w') ->
    (forall a, In a (assets data) -> regex_match re (name a) = None) ->
    exists e, fst (_getLatestRelease H s) = Throw e.

(** C7 as the specification words it: on an unsupported platform the lookup
    fails with the unsupported-platform error and has made no request. *)
Definition unsupported_fails_before_request : Prop :=
  forall (H : Host) (s : State H BinaryManager),
    supported (platform H) = false ->
    fst (_getLatestRelease H s) = Throw (UnsupportedPlatform (platform H)) /\
    feed_requests (trace (snd (_getLatestRelease H s))) = feed_requests (trace s).

(** A computation that leaves the manager object alone and emits no
    notification, however it ends. *)
Definition quiet {H : Host} {A : Type} (c : M H BinaryManager A) : Prop :=
  forall s r s', c s = (r, s') ->
    this s' = this s /\ notifications (trace s') = notifications (trace s).

(** Between two states: the cache is as it was and nothing was notified. *)
Definition unchanged {H : Host} (s s' : State H BinaryManager) : Prop :=
  latestRelease (this s') = latestRelease (this s) /\
  notifications (trace s') = notifications (trace s).

(** Between two managers: the cache is as it was, or it holds a valid
    version strictly greater than the valid version it held. *)
Definition not_older (H : Host) (m m' : BinaryManager) : Prop :=
  latestRelease m' = latestRelease m \/
  exists v v', cached_version m = Some v /\ cached_version m' = Some v' /\
    semver_valid H v = true /\ semver_valid H v' = true /\
    semver_compare H v' v = Gt.

(** A computation that runs the same whatever release is cached, and
    leaves the cache as it finds it. *)
Definition ignores_cache {H : Host} {A : Type} (c : M H BinaryManager A) : Prop :=
  forall k s, c (with_cached k s) = (fst (c s), with_cached k (snd (c s))).

(* ================================================================== *)
(** ** Further notions on traces and names *)

(** The processes a trace has sent a termination request to, oldest first. *)
Fixpoint kills (tr : list Event) : list nat :=
  match tr with
  | [] => []
  | EvKill p :: t => p :: kills t
  | _ :: t => kills t
  end.

(** The processes a trace has spawned, as (command, arguments, directory). *)
Fixpoint spawns (tr : list Event) : list (string * list Arg * string) :=
  match tr with
  | [] => []
  | EvSpawn command args cwd :: t => (command, args, cwd) :: spawns t
  | _ :: t => spawns t
  end.

(** A string of decimal digits. *)
Fixpoint all_digits (s : string) : bool :=
  match s with
  | EmptyString => true
  | String c t => is_digit c && all_digits t
  end.

(** A non-empty run of digits: what [[0-9]+] stands for. *)
Definition digit_run (s : string) : Prop := s <> "" /\ all_digits s = true.

(** Three runs of digits separated by dots: what the capture group of the
    asset name patterns stands for. *)
Definition version_shape (v : string) : Prop :=
  exists major minor patch,
    digit_run major /\ digit_run minor /\ digit_run patch /\
    v = major ++ "." ++ minor ++ "." ++ patch.

(** What the pattern with tag [tag] describes, read off the regular
    expression: somewhere in the name, [chia-], a version, the tag, one
    character that is no line terminator, and [zip]. *)
Definition holds_binary_zip (tag v name : string) : Prop :=
  exists pre ch post,
    version_shape v /\ is_line_terminator ch = false /\
    name = pre ++ "chia-" ++ v ++ tag ++ String ch ("zip" ++ post).

(** A tag that does not begin with a digit, as [-win] and [-linux]. *)
Definition tag_after_digits (tag : string) : bool :=
  match tag with
  | String c _ => negb (is_digit c)
  | EmptyString => false
  end.

(** The characters of a string. *)
Fixpoint chars (s : string) : list ascii :=
  match s with
  | EmptyString => []
  | String c t => c :: chars t
  end.

(** Whether [semver] accepts a value that is a string or [undefined]. *)
Definition valid_version (H : Host) (v : option string) : bool :=
  match v with
  | Some s => semver_valid H s
  | None => false
  end.

(** [u] is a valid version strictly greater than the valid version [v]. *)
Definition greater (H : Host) (u v : option string) : Prop :=
  exists x y, u = Some x /\ v = Some y /\
    semver_valid H x = true /\ semver_valid H y = true /\
    semver_compare H x y = Gt.

(** The scratch directory, the temporary archive and the directory of a
    version, as [_downloadBinary] and [_getBinaryDirectory] join them. *)
Definition temp_dir (H : Host) : string := join H [tmpdir H; "chia-binary-manager"].

Definition zip_path (H : Host) (v : string) : string :=
  join H [temp_dir H; "chia-" ++ v ++ ".zip"].

Definition version_dir (H : Host) (m : BinaryManager) (v : string) : string :=
  join H [binaryDirectory m; v].

(** The effects of a complete download of version [v], in order; on a
    platform without a download URL, the scratch directory only. *)
Definition download_steps (H : Host) (m : BinaryManager) (v : string) : list Event :=
  EvMkdirp (temp_dir H) ::
  match _getDownloadUrl H (Some v) with
  | Ok url => [EvHttpGetStream url; EvWriteStream (zip_path H v);
               EvDecompress (zip_path H v) (version_dir H m v);
               EvUnlink (zip_path H v)]
  | Throw _ => []
  end.

(** The effects of a complete acquisition of an absent version. *)
Definition acquisition_steps (H : Host) (m : BinaryManager) (v : string) : list Event :=
  EvMkdirp (version_dir H m v) :: download_steps H m v.

(** How many timers a trace has started with [setInterval]. *)
Fixpoint intervals (tr : list Event) : nat :=
  match tr with
  | [] => 0
  | EvSetInterval _ :: t => S (intervals t)
  | _ :: t => intervals t
  end.

(** Further worlds to run the code on: a feed with two assets of one
    version, a feed with a version [semver] refuses, and a download that
    serves an archive without the binary. *)
Definition tie_feed : SimWorld :=
  sim_world ["chia-1.1.0-linux.zip"; "chia-1.2.0-linux.zip";
             "mirror-chia-1.2.0-linux.zip"; "chia-1.0.0-linux.zip"] [].

Definition odd_feed : SimWorld :=
  sim_world ["chia-01.0.0-linux.zip"; "chia-1.0.0-linux.zip"] [].

Definition hollow_world : SimWorld :=
  sim_world ["chia-1.9.0-linux.zip"] [(linux_archive "1.9.0", ["README.md"])].

(** The errors among a child's signals, in order. *)
Fixpoint errors_of (sigs : list Signal) : list Error :=
  match sigs with
  | [] => []
  | SigError err :: rest => err :: errors_of rest
  | SigClose _ :: rest => errors_of rest
  end.

(** What the child's emitter does with a signal beside running a listener:
    an ['error'] that finds no listener registered is thrown by the emitter
    itself; a ['close'] without a listener is dropped. *)
Definition unhandled (st : Closed) (sig : Signal) : list Error :=
  match sig with
  | SigError err => if error_listener st then [] else [err]
  | SigClose _ => []
  end.

(** The errors the emitter throws while the child emits its signals. *)
Fixpoint thrown (st : Closed) (sigs : list Signal) : list Error :=
  match sigs with
  | [] => []
  | sig :: rest => (unhandled st sig ++ thrown (emit st sig) rest)%list
  end.

(** C2 as the specification words its last part: whatever the child emits
    after its first signal is ignored, that is, it leaves the promise as it
    was settled and nothing is thrown. *)
Definition later_signals_ignored : Prop :=
  forall (pid : nat) (first : Signal) (later : list Signal),
    promise (_closed (mkChildProcess pid (first :: later)))
      = promise (_closed (mkChildProcess pid [first])) /\
    thrown listening (first :: later) = [].

(* ================================================================== *)
(** ** The poll, cut where it waits for its download

    Executions of [_updateLatestRelease] are started by a timer and nothing
    keeps a second one from starting while a first one is suspended in an
    [await]. Between the comparison with the cache and the assignment to it,
    an execution really waits only inside [_downloadBinary]; the definitions
    below are the methods cut at the [await] that follows the request of the
    archive (the writer's [finish]), the write being taken to land when the
    execution resumes. Run back to back, the two halves are the method. *)

Section Cut.
Variable H : Host.

(** [_downloadBinary] up to the response of the archive request. *)
Definition download_request (version : option string)
    : M H BinaryManager (Stream H * string) :=
  tempDir <- lift (path_join H [Some (tmpdir H); Some "chia-binary-manager"]) ;;
  perform (EvMkdirp tempDir) (mkdirp_sync H tempDir) ;;
  zipFilePath <- lift (path_join H [Some tempDir;
                                    Some ("chia-" ++ template version ++ ".zip")]) ;;
  url <- lift (_getDownloadUrl H version) ;;
  res <- perform (EvHttpGetStream url) (axios_get_stream H url) ;;
  ret (res, zipFilePath).

(** [_downloadBinary] from there on. *)
Definition download_store (version : option string) (res : Stream H)
    (zipFilePath : string) : M H BinaryManager unit :=
  perform (EvWriteStream zipFilePath) (write_stream H res zipFilePath) ;;
  m <- get_this ;;
  dir <- lift (_getBinaryDirectory H m version) ;;
  perform (EvDecompress zipFilePath dir) (decompress H zipFilePath dir) ;;
  perform (EvUnlink zipFilePath) (unlink H zipFilePath).

(** [_ensureVersionExists] up to the same point: [None] when it has
    returned already (the binary is there), otherwise the binary path it
    will check and what the download holds. *)
Definition ensure_request (version : option string)
    : M H BinaryManager (option (string * Stream H * string)) :=
  m <- get_this ;;
  binaryDirectoryForVersion <- lift (_getBinaryDirectory H m version) ;;
  binaryPath <- lift (path_join H [Some binaryDirectoryForVersion; Some (_binaryName H)]) ;;
  present <- query (existsSync H binaryPath) ;;
  if present then ret None
  else
    perform (EvMkdirp binaryDirectoryForVersion)
            (mkdirp_sync H binaryDirectoryForVersion) ;;
    p <- download_request version ;;
    ret (Some (binaryPath, fst p, snd p)).

(** [_ensureVersionExists] from there on. *)
Definition ensure_store (version : option string) (binaryPath : string)
    (res : Stream H) (zipFilePath : string) : M H BinaryManager unit :=
  download_store version res zipFilePath ;;
  present <- query (existsSync H binaryPath) ;;
  if present then ret tt else throw (BinaryNotFound binaryPath).

(** Where an execution of the poll stands after its first half. *)
Inductive PollState : Type :=
| Returned
| Awaiting (fetched : Asset) (binaryPath : string) (res : Stream H) (zipFilePath : string).

(** The two statements that follow the acquisition. *)
Definition poll_commit (fetched : Asset) : M H BinaryManager unit :=
  m <- get_this ;;
  set_this (set_latestRelease m (Obj fetched)) ;;
  log (EvEmit "new-release" (template (version fetched))).

(** [_updateLatestRelease] up to the suspension in its download. When the
    binary is already there nothing is waited for, and the execution goes
    through to its end. *)
Definition poll_start : M H BinaryManager PollState :=
  fetched <- try_catch (r <- _getLatestRelease H ;; ret (Some r)) (fun _ => ret None) ;;
  match fetched with
  | None => ret Returned
  | Some None => ret Returned
  | Some (Some latestRelease') =>
      m <- get_this ;;
      cached <- lift (version_of (latestRelease m)) ;;
      not_newer <- lift (semver_lte H (version latestRelease') cached) ;;
      if not_newer then ret Returned
      else
        try_catch
          (x <- ensure_request (version latestRelease') ;;
           match x with
           | None => poll_commit latestRelease' ;; ret Returned
           | Some (binaryPath, res, zipFilePath) =>
               ret (Awaiting latestRelease' binaryPath res zipFilePath)
           end)
          (fun _ => ret Returned)
  end.

(** [_updateLatestRelease] from its resumption on, still inside the [try]. *)
Definition poll_resume (fetched : Asset) (binaryPath : string) (res : Stream H)
    (zipFilePath : string) : M H BinaryManager unit :=
  try_catch
    (ensure_store (version fetched) binaryPath res zipFilePath ;;
     poll_commit fetched)
    (fun _ => ret tt).

(** Two executions that overlap: the first is suspended in its download,
    the world changes, the second runs from start to end, the first
    resumes. Gives the state the second left and the state at the end. *)
Definition overlap (change : World H -> World H) (s : State H BinaryManager)
    : State H BinaryManager * State H BinaryManager :=
  match poll_start s with
  | (Ok (Awaiting fetched binaryPath res zipFilePath), s1) =>
      let s2 := snd (_updateLatestRelease H
                       (mkState (this s1) (change (world s1)) (trace s1))) in
      (s2, snd (poll_resume fetched binaryPath res zipFilePath s2))
  | (_, s1) =>
      let s2 := snd (_updateLatestRelease H
                       (mkState (this s1) (change (world s1)) (trace s1))) in
      (s2, s2)
  end.
End Cut.
Arguments Returned {H}.
Arguments Awaiting {H} fetched binaryPath res zipFilePath.

(** C4 as the specification words its last part: the cached version never
    decreases across poll executions, overlapping ones included. *)
Definition cache_never_decreases : Prop :=
  forall (H : Host) (change : World H -> World H) (s : State H BinaryManager),
    SemverLaws H ->
    not_older H (this (fst (overlap H change s))) (this (snd (overlap H change s))).

(** The feed and the download URLs turning into something else while a
    program runs: a release is published. *)
Definition publish (names : list string) (archives : list (string * list string))
    (w : SimWorld) : SimWorld :=
  mkSimWorld (sim_files w) (Ok (mkFeed (map asset_named names)))
             (archives ++ sim_archives w)%list (sim_signals w) (sim_pid w).

Definition release_1_11_0 : SimWorld -> SimWorld :=
  publish ["chia-1.9.0-linux.zip"; "chia-1.10.0-linux.zip"; "chia-1.11.0-linux.zip"]
          [(linux_archive "1.11.0", ["chia"])].

(** A feed in which an asset that is no archive of any platform arrives
    with a [version] property of its own. *)
Definition own_version_feed : SimWorld :=
  mkSimWorld [] (Ok (mkFeed [mkAsset "notes.txt" (Some "9.9.9");
                             asset_named "chia-1.0.0-linux.zip"])) [] [] 1.

(** C3 as the specification words its second part: whatever the feed
    answers, an asset whose name does not match the platform's pattern is no
    candidate, so the asset returned is one whose name matches. *)
Definition unmatched_names_excluded : Prop :=
  forall (H : Host) (re : Regex) (s : State H BinaryManager) (data : Feed) (w' : World H),
    SemverLaws H ->
    _binaryZipRegex H = Ok re ->
    axios_get H releaseUrl (world s) = (Ok data, w') ->
    forall r, fst (_getLatestRelease H s) = Ok (Some r) ->
              regex_match re (name r) <> None.



(* ================================================================== *)
(** ** Process supervision: [_closed], [createPlot], [kill], the config file *)

Lemma emit_after_settlement (st : Closed) (sig : Signal) :
  resolved st = true ->
  resolved (emit st sig) = true /\ promise (emit st sig) = promise st.
Proof.
  intros Hres. destruct sig as [code | err]; simpl.
  - destruct (close_listener st); [| auto].
    unfold on_close; simpl. rewrite Hres. simpl. auto.
  - destruct (error_listener st); [| auto].
    unfold on_error; simpl. rewrite Hres. simpl. auto.
Qed.

Lemma signals_after_settlement (later : list Signal) :
  forall st, resolved st = true ->
  promise (fold_left emit later st) = promise st.
Proof.
  induction later as [| sig later IH]; intros st Hres; simpl.
  - reflexivity.
  - destruct (emit_after_settlement st sig Hres) as [Hres' Hp].
    rewrite (IH _ Hres'). exact Hp.
Qed.

Lemma first_signal_settles (first : Signal) :
  resolved (emit listening first) = true /\
  promise (emit listening first) = spec_outcome first.
Proof.
  destruct first as [[[| c | c] |] | err]; simpl; auto.
Qed.

Lemma is_zero_spec (code : option Z) : is_zero code = true <-> code = Some 0%Z.
Proof.
  destruct code as [[| c | c] |]; simpl; split; intro E; congruence.
Qed.

(** After a signal the ['error'] listener is registered exactly when it was
    and the signal is no ['error']. *)
Lemma error_listener_after (st : Closed) (sig : Signal) :
  error_listener (emit st sig) =
    match sig with
    | SigError _ => false
    | SigClose _ => error_listener st
    end.
Proof.
  destruct sig as [code | err]; simpl.
  - destruct (close_listener st); [| reflexivity].
    unfold on_close; simpl. destruct (resolved st); [reflexivity |].
    destruct (is_zero code); reflexivity.
  - destruct (error_listener st) eqn:E; [| exact E].
    unfold on_error; simpl. destruct (resolved st); reflexivity.
Qed.

(** The emitter throws every ['error'] that comes after the one the
    listener took. *)
Lemma thrown_errors (sigs : list Signal) :
  forall st,
  thrown st sigs = if error_listener st then tl (errors_of sigs) else errors_of sigs.
Proof.
  induction sigs as [| sig rest IH]; intros st; simpl.
  - destruct (error_listener st); reflexivity.
  - rewrite IH, error_listener_after.
    destruct sig as [code | err]; simpl.
    + destruct (error_listener st); reflexivity.
    + destruct (error_listener st); reflexivity.
Qed.

(** C2, counterexample. A child that emits ['error'] twice: the first is
    taken by the [once] listener, which is thereby removed; the second finds
    no listener and is thrown by the emitter, so it is not ignored. The
    statement of the specification is false. *)
Lemma second_error_is_thrown :
  thrown listening [SigError (HostError "ENOENT"); SigError (HostError "EPERM")]
    = [HostError "EPERM"] /\
  promise (_closed (mkChildProcess 7 [SigError (HostError "ENOENT");
                                      SigError (HostError "EPERM")]))
    = Rejected (SpawnError (HostError "ENOENT")) /\
  ~ later_signals_ignored.
Proof.
  split; [reflexivity |]. split; [reflexivity |].
  intros claim.
  destruct (claim 7 (SigError (HostError "ENOENT")) [SigError (HostError "EPERM")])
    as [_ E].
  discriminate E.
Qed.

(** C2, amended. For a single spawn, the promise [waitForExit] awaits is
    settled by the first signal of the child and by nothing else: it is
    fulfilled if and only if that signal is a close with exit code 0; it is
    rejected carrying the code on a close with any other code; it is
    rejected carrying the error on a spawn error; the three outcomes exclude
    one another. The first signal sets the [resolved] guard, which stays
    set; with the guard set no signal changes the promise: a close after an
    error and an error after a close reach their listener and return at the
    guard, and nothing is thrown for them. A repeated close finds no
    listener. A repeated error finds no listener either and is thrown by
    the emitter: the errors thrown are exactly the errors after the first
    one. *)
Theorem waitForExit_settles_once (pid : nat) (first : Signal) (later : list Signal) :
  let ref := mkChildProcess pid (first :: later) in
  promise (_closed ref) = spec_outcome first /\
  (promise (_closed ref) = Fulfilled <-> first = SigClose (Some 0%Z)) /\
  (forall code, code <> Some 0%Z -> first = SigClose code ->
     promise (_closed ref) = Rejected (ExitCode code)) /\
  (forall err, first = SigError err ->
     promise (_closed ref) = Rejected (SpawnError err)) /\
  promise (_closed ref) <> Pending /\
  promise (_closed ref) = promise (_closed (mkChildProcess pid [first])) /\
  (* the guard is set by the first signal and stays set *)
  resolved listening = false /\
  resolved (emit listening first) = true /\
  resolved (_closed ref) = true /\
  (forall st sig, resolved st = true ->
     resolved (emit st sig) = true /\ promise (emit st sig) = promise st) /\
  (* the other listener, reached once, returns at the guard *)
  (forall err code,
     _closed (mkChildProcess pid [SigError err; SigClose code])
       = mkClosed true false false (Rejected (SpawnError err)) /\
     thrown listening [SigError err; SigClose code] = []) /\
  (forall code err,
     _closed (mkChildProcess pid [SigClose code; SigError err])
       = mkClosed true false false (spec_outcome (SigClose code)) /\
     thrown listening [SigClose code; SigError err] = []) /\
  (* what is not ignored *)
  thrown listening (first :: later) = tl (errors_of (first :: later)).
Proof.
  intro ref.
  assert (Hp : promise (_closed ref) = spec_outcome first).
  { unfold _closed, ref; simpl.
    destruct (first_signal_settles first) as [Hres Hout].
    rewrite (signals_after_settlement later _ Hres). exact Hout. }
  assert (Hguard : forall sigs st, resolved st = true ->
            resolved (fold_left emit sigs st) = true).
  { induction sigs as [| sig sigs IH]; intros st Hres; simpl; [exact Hres |].
    apply IH. apply (emit_after_settlement st sig Hres). }
  split; [exact Hp |].
  split.
  { rewrite Hp. split.
    - destruct first as [[[| c | c] |] | err]; simpl; intro E;
        solve [reflexivity | discriminate E].
    - intros ->. reflexivity. }
  split.
  { intros code Hne ->. rewrite Hp.
    destruct code as [[| c | c] |]; simpl; try reflexivity.
    exfalso; apply Hne; reflexivity. }
  split.
  { intros err ->. rewrite Hp. reflexivity. }
  split.
  { rewrite Hp. destruct first as [[[| c | c] |] | err]; simpl; discriminate. }
  split.
  { rewrite Hp. unfold _closed; simpl.
    symmetry. apply first_signal_settles. }
  split; [reflexivity |].
  split; [apply first_signal_settles |].
  split.
  { unfold _closed, ref; simpl. apply Hguard. apply first_signal_settles. }
  split.
  { intros st sig Hres. apply (emit_after_settlement st sig Hres). }
  split.
  { intros err code. split; reflexivity. }
  split.
  { intros code err. split; [| rewrite thrown_errors; reflexivity].
    destruct code as [[| c | c] |]; reflexivity. }
  apply (thrown_errors (first :: later) listening).
Qed.

(** Before the child has emitted anything the promise is pending. *)
Lemma waitForExit_pending (pid : nat) :
  promise (_closed (mkChildProcess pid [])) = Pending.
Proof. reflexivity. Qed.

(** What the awaited promise of a high-level operation is: the one
    [_closed] builds on the child that [spawn] returned. *)
Lemma spawn_and_wait (H : Host) (args : list Arg) (s : State H Chia) :
  let command := "./" ++ basename H (binaryPath (this s)) in
  let cwd := dirname H (binaryPath (this s)) in
  let child := fst (spawn H command args cwd (world s)) in
  _spawnBinaryAndWaitForClose H args s =
    (Ok (promise (_closed child)),
     mkState (set_runningProcess (this s) (Some child))
             (snd (spawn H command args cwd (world s)))
             (trace s ++ [EvSpawn command args cwd])%list).
Proof.
  unfold _spawnBinaryAndWaitForClose, _spawnBinary, bind, get_this, perform,
    set_this, ret; simpl.
  destruct (spawn H _ args _ (world s)) as [child w'] eqn:E. simpl.
  reflexivity.
Qed.

Lemma truthy_key_flag (flag : string) (key : option string) (args : list Arg) :
  (if truthy key then (args ++ [AStr flag; AStr (template key)])%list else args)
  = (args ++ spec_key_flag flag key)%list.
Proof.
  destruct key as [k |]; simpl.
  - destruct (k =? ""); simpl; [now rewrite app_nil_r | reflexivity].
  - now rewrite app_nil_r.
Qed.

Lemma createPlot_args_spec (c : Chia) (p : PlotParams) :
  createPlot_args c p = spec_createPlot_args (rootDirectory c) p.
Proof.
  unfold createPlot_args, spec_createPlot_args.
  rewrite !truthy_key_flag.
  destruct (default false (useBitfield p)); simpl;
    rewrite <- ?app_assoc; simpl; rewrite ?app_nil_r; reflexivity.
Qed.

(** [Math.round] gives an integer at distance at most one half. *)
Lemma Math_round_nearest (x : Q) :
  (inject_Z (Math_round x) - (1 # 2) <= x)%Q /\ (x < inject_Z (Math_round x) + (1 # 2))%Q.
Proof.
  unfold Math_round.
  pose proof (Qfloor_le (x + (1 # 2))%Q) as Hle.
  pose proof (Qlt_floor (x + (1 # 2))%Q) as Hlt.
  rewrite inject_Z_plus in Hlt.
  split.
  - apply (Qplus_le_l _ _ (1 # 2)%Q). ring_simplify.
    ring_simplify in Hle. exact Hle.
  - apply (Qplus_lt_l _ _ (1 # 2)%Q).
    eapply Qlt_le_trans; [exact Hlt |].
    ring_simplify. apply Qle_refl.
Qed.

(** C8. [createPlot] spawns the binary with exactly the documented argument
    list, for every parameter bag. With the two required directories only:
    k 32, 2 threads, 128 buckets, memory 4000 and the legacy flag [-e] at
    the end, no key flag. The memory budget is rounded to a nearest integer.
    With [useBitfield] true the list ends without [-e]. A supplied (non-empty)
    farmer or pool key adds [-f key] or [-p key], each on its own; an
    unsupplied key adds nothing. *)
Theorem createPlot_documented_args (H : Host) (p : PlotParams) (s : State H Chia) :
  let c := this s in
  let root := rootDirectory c in
  let fixed temp dest :=
    [AStr "--root-path"; AStr root; AStr "plots"; AStr "create";
     AStr "-k"; ANum 32; AStr "-r"; ANum 2; AStr "-u"; ANum 128;
     AStr "-b"; ANum 4000; AStr "-t"; AStr temp;
     AStr "-2"; AStr dest; AStr "-d"; AStr dest] in
  (* what is spawned, for every parameter bag *)
  trace (snd (createPlot H p s)) =
    (trace s ++ [EvSpawn ("./" ++ basename H (binaryPath c))
                         (spec_createPlot_args root p)
                         (dirname H (binaryPath c))])%list /\
  createPlot_args c p = spec_createPlot_args root p /\
  (* required parameters only *)
  (forall temp dest,
     createPlot_args c (required_only temp dest) = (fixed temp dest ++ [AStr "-e"])%list) /\
  (* the bitfield backend *)
  (forall temp dest,
     createPlot_args c (mkPlotParams temp dest None None None None None None (Some true))
       = fixed temp dest /\
     createPlot_args c (mkPlotParams temp dest None None None None None None (Some false))
       = (fixed temp dest ++ [AStr "-e"])%list) /\
  (* the two keys, each on its own *)
  (forall temp dest key, key <> "" ->
     createPlot_args c (mkPlotParams temp dest None None None None (Some key) None None)
       = (fixed temp dest ++ [AStr "-f"; AStr key; AStr "-e"])%list /\
     createPlot_args c (mkPlotParams temp dest None None None None None (Some key) None)
       = (fixed temp dest ++ [AStr "-p"; AStr key; AStr "-e"])%list) /\
  (forall temp dest farmer pool, farmer <> "" -> pool <> "" ->
     createPlot_args c (mkPlotParams temp dest None None None None
                                     (Some farmer) (Some pool) (Some true))
       = (fixed temp dest ++ [AStr "-f"; AStr farmer; AStr "-p"; AStr pool])%list) /\
  (* the memory budget is rounded *)
  (forall x, memoryInMib p = Some x ->
     In (ANum (Math_round x)) (createPlot_args c p) /\
     (inject_Z (Math_round x) - (1 # 2) <= x)%Q /\
     (x < inject_Z (Math_round x) + (1 # 2))%Q).
Proof.
  intros c root fixed.
  assert (Hkey : forall flag key, key <> "" ->
            spec_key_flag flag (Some key) = [AStr flag; AStr key]).
  { intros flag key Hne. unfold spec_key_flag.
    destruct (String.eqb_spec key "") as [E | _]; [contradiction | reflexivity]. }
  split.
  { unfold createPlot, bind, get_this.
    rewrite spawn_and_wait. simpl. rewrite createPlot_args_spec. reflexivity. }
  split; [apply createPlot_args_spec |].
  split.
  { intros temp dest. rewrite createPlot_args_spec. reflexivity. }
  split.
  { intros temp dest. rewrite !createPlot_args_spec. split; reflexivity. }
  split.
  { intros temp dest key Hne. rewrite !createPlot_args_spec.
    unfold spec_createPlot_args.
    cbn [farmerPublicKey poolPublicKey]. rewrite !(Hkey _ key Hne).
    split; reflexivity. }
  split.
  { intros temp dest farmer pool Hf Hp. rewrite createPlot_args_spec.
    unfold spec_createPlot_args.
    cbn [farmerPublicKey poolPublicKey]. rewrite (Hkey _ farmer Hf), (Hkey _ pool Hp).
    reflexivity. }
  intros x Hx. split; [| apply Math_round_nearest].
  rewrite createPlot_args_spec. unfold spec_createPlot_args.
  rewrite Hx. simpl. do 11 right. left. reflexivity.
Qed.

(** C9. [kill] on a supervisor that tracks no process returns at once: no
    signal is sent, no timer is started, nothing changes. [kill] on a
    supervisor that tracks a process sends the termination request, clears
    the tracked reference and only then starts the timer of 1000 ms it
    waits on; so at the point where the method is suspended the reference
    is already cleared, and a further [kill] is a no-op. *)
Theorem kill_clears_before_delay (H : Host) (s : State H Chia) :
  (runningProcess (this s) = None -> kill H s = (Ok None, s)) /\
  (forall child, runningProcess (this s) = Some child ->
     exists s',
       kill H s = (Ok (Some 1000%Z), s') /\
       runningProcess (this s') = None /\
       binaryPath (this s') = binaryPath (this s) /\
       rootDirectory (this s') = rootDirectory (this s) /\
       world s' = world s /\
       trace s' = (trace s ++ [EvKill (pid child); EvSetTimeout 1000])%list /\
       kill H s' = (Ok None, s')).
Proof.
  split.
  - intros Hnone. unfold kill, bind, get_this. rewrite Hnone.
    reflexivity.
  - intros child Hsome. unfold kill, bind, get_this. rewrite Hsome.
    eexists. split; [reflexivity |]. simpl.
    rewrite <- app_assoc. simpl. repeat split; reflexivity.
Qed.

(** A freshly constructed or cloned supervisor tracks no process. *)
Lemma clone_tracks_nothing (c : Chia) :
  runningProcess (clone c) = None /\
  binaryPath (clone c) = binaryPath c /\
  rootDirectory (clone c) = rootDirectory c.
Proof. repeat split. Qed.

(** The constructor stores the root directory under [rootDirectory]; the
    property [_chiaConfigPath] reads is never assigned. *)
Lemma chiaRootDirectory_undefined (c : Chia) :
  Chia_property c "chiaRootDirectory" = None /\
  Chia_property c "rootDirectory" = Some (rootDirectory c).
Proof. split; reflexivity. Qed.

(** C5 (the code at work). On every supervisor, whatever root directory it
    was constructed with and whatever the disk holds, [writeConfig] and
    [readConfig] both throw before they touch a file: [_chiaConfigPath]
    joins the unassigned [chiaRootDirectory] property, which [path.join]
    refuses. No document is written and none is read back. *)
Theorem config_access_throws (H : Host) (config : Config H) (s : State H Chia) :
  (exists e, writeConfig H config s = (Throw e, s)) /\
  (exists msg, readConfig H s = (Throw (TypeError msg), s)) /\
  _chiaConfigPath H (this s) <> Ok (join H [rootDirectory (this s); "config"; "config.yaml"]).
Proof.
  split; [| split].
  - unfold writeConfig, bind, lift, get_this.
    destruct (YAML_dump H config 140) as [yaml | e].
    + eexists. reflexivity.
    + eexists. reflexivity.
  - eexists. reflexivity.
  - discriminate.
Qed.

(* ================================================================== *)
(** ** Binary acquisition: [_ensureVersionExists] *)

Ltac unfold_run :=
  unfold bind, ret, throw, lift, get_this, set_this, log, perform, query, try_catch in *.

Ltac case_run :=
  repeat match goal with
  | E : (_, _) = (_, _) |- _ => inversion E; clear E; subst
  | E : context [match ?x with _ => _ end] |- _ =>
      destruct x eqn:?; simpl in E; try discriminate E
  end.

Lemma downloads_app (a b : list Event) : downloads (a ++ b) = downloads a + downloads b.
Proof.
  induction a as [| ev a IH]; simpl; [reflexivity |].
  destruct ev; simpl; rewrite IH; reflexivity.
Qed.

Lemma extractions_app (a b : list Event) :
  extractions (a ++ b) = extractions a + extractions b.
Proof.
  induction a as [| ev a IH]; simpl; [reflexivity |].
  destruct ev; simpl; rewrite IH; reflexivity.
Qed.

(** A download that returns has fetched one archive and extracted it once,
    and has left the manager object alone. *)
Lemma downloadBinary_returns (H : Host) (v : option string)
    (s s1 : State H BinaryManager) (u : unit) :
  _downloadBinary H v s = (Ok u, s1) ->
  this s1 = this s /\
  exists tempDir zip url dir,
    trace s1 = (trace s ++ [EvMkdirp tempDir; EvHttpGetStream url; EvWriteStream zip;
                            EvDecompress zip dir; EvUnlink zip])%list.
Proof.
  unfold _downloadBinary, _getBinaryDirectory, path_join. unfold_run. simpl.
  intros E. case_run. simpl.
  split; [reflexivity |].
  repeat rewrite <- app_assoc. simpl.
  repeat eexists.
Qed.

(** [_ensureVersionExists] on a version string, step by step. *)
Lemma ensureVersionExists_unfold (H : Host) (version : string)
    (s : State H BinaryManager) :
  let dir := join H [binaryDirectory (this s); version] in
  let path := binary_path H (this s) version in
  let s' := mkState (this s) (snd (mkdirp_sync H dir (world s)))
                    (trace s ++ [EvMkdirp dir])%list in
  _ensureVersionExists H (Some version) s =
    if existsSync H path (world s) then (Ok tt, s)
    else
      match fst (mkdirp_sync H dir (world s)) with
      | Ok _ =>
          match _downloadBinary H (Some version) s' with
          | (Ok _, s2) =>
              if existsSync H path (world s2) then (Ok tt, s2)
              else (Throw (BinaryNotFound path), s2)
          | (Throw e, s2) => (Throw e, s2)
          end
      | Throw e => (Throw e, s')
      end.
Proof.
  intros dir path s'.
  unfold _ensureVersionExists, _getBinaryDirectory, path_join. unfold_run. simpl.
  fold dir. unfold binary_path in path. fold dir in path. fold path.
  destruct (existsSync H path (world s)); [reflexivity |].
  subst s'. destruct (mkdirp_sync H dir (world s)) as [[u | e] w]; simpl; [| reflexivity].
  destruct (_downloadBinary H (Some version) _) as [[u' | e] s2]; [| reflexivity].
  destruct (existsSync H path (world s2)); reflexivity.
Qed.

Lemma ensureVersionExists_undefined (H : Host) (s : State H BinaryManager) :
  exists msg, _ensureVersionExists H None s = (Throw (TypeError msg), s).
Proof. eexists. reflexivity. Qed.

(** A call that returns was given a version string, has left the manager
    object alone and the binary file in place; it has done nothing when the
    file was there already, and one download otherwise. *)
Lemma ensureVersionExists_returns (H : Host) (v : option string)
    (s s1 : State H BinaryManager) :
  _ensureVersionExists H v s = (Ok tt, s1) ->
  exists version, v = Some version /\
    this s1 = this s /\
    existsSync H (binary_path H (this s) version) (world s1) = true /\
    (existsSync H (binary_path H (this s) version) (world s) = true -> s1 = s) /\
    (existsSync H (binary_path H (this s) version) (world s) = false ->
       exists tempDir zip url dir,
         trace s1 = (trace s ++ [EvMkdirp (join H [binaryDirectory (this s); version]);
                                 EvMkdirp tempDir; EvHttpGetStream url; EvWriteStream zip;
                                 EvDecompress zip dir; EvUnlink zip])%list).
Proof.
  intros E.
  destruct v as [version |].
  2:{ destruct (ensureVersionExists_undefined H s) as [msg Hmsg].
      rewrite Hmsg in E. discriminate E. }
  exists version. split; [reflexivity |].
  rewrite ensureVersionExists_unfold in E.
  set (path := binary_path H (this s) version) in *.
  destruct (existsSync H path (world s)) eqn:Hpresent.
  - inversion E; subst s1. repeat split; auto. discriminate.
  - destruct (fst (mkdirp_sync H _ (world s))) as [u | e]; [| discriminate E].
    destruct (_downloadBinary H (Some version) _) as [[u' | e] s2] eqn:Hdl;
      [| discriminate E].
    destruct (existsSync H path (world s2)) eqn:Hafter; [| discriminate E].
    inversion E; subst s2.
    apply downloadBinary_returns in Hdl. simpl in Hdl.
    destruct Hdl as [Hthis (tempDir & zip & url & dir & Htrace)].
    repeat split; auto; [discriminate |].
    intros _. exists tempDir, zip, url, dir.
    rewrite Htrace, <- app_assoc. reflexivity.
Qed.

(** C1. Whenever [_ensureVersionExists] returns for a version, the binary
    file exists at [<binaryDirectory>/<version>/<binaryName>], and calling
    it again on the state it left returns at once with that state untouched:
    nothing is downloaded, extracted or changed on disk. So when the file
    was absent at first, the two calls together perform exactly one
    download and exactly one extraction, both in the first call. *)
Theorem ensure_twice_downloads_once (H : Host) (v : option string)
    (s s1 : State H BinaryManager) :
  _ensureVersionExists H v s = (Ok tt, s1) ->
  exists version, v = Some version /\
    let path := binary_path H (this s) version in
    existsSync H path (world s1) = true /\
    _ensureVersionExists H v s1 = (Ok tt, s1) /\
    (existsSync H path (world s) = true -> s1 = s) /\
    (existsSync H path (world s) = false ->
       downloads (trace s1) = S (downloads (trace s)) /\
       extractions (trace s1) = S (extractions (trace s)) /\
       exists tempDir zip url dir,
         trace s1 = (trace s ++ [EvMkdirp (join H [binaryDirectory (this s); version]);
                                 EvMkdirp tempDir; EvHttpGetStream url; EvWriteStream zip;
                                 EvDecompress zip dir; EvUnlink zip])%list).
Proof.
  intros E.
  destruct (ensureVersionExists_returns H v s s1 E)
    as (version & -> & Hthis & Hnow & Hwas & Htrace).
  exists version. split; [reflexivity |]. intro path.
  split; [exact Hnow |].
  split.
  { rewrite ensureVersionExists_unfold, Hthis. cbv zeta. rewrite Hnow.
    reflexivity. }
  split; [exact Hwas |].
  intros Habsent. destruct (Htrace Habsent) as (tempDir & zip & url & dir & Etrace).
  rewrite Etrace, downloads_app, extractions_app. simpl.
  repeat split; try lia.
  exists tempDir, zip, url, dir. reflexivity.
Qed.

(* ================================================================== *)
(** ** Release lookup: [_getLatestRelease] *)

Lemma getLatestRelease_unfold (H : Host) (s : State H BinaryManager) :
  let s' := mkState (this s) (snd (axios_get H releaseUrl (world s)))
                    (trace s ++ [EvHttpGet releaseUrl])%list in
  _getLatestRelease H s =
    match fst (axios_get H releaseUrl (world s)) with
    | Ok data => (latest_of H (assets data), s')
    | Throw e => (Throw e, s')
    end.
Proof.
  intro s'. subst s'.
  unfold _getLatestRelease, latest_of. unfold_run.
  destruct (axios_get H releaseUrl (world s)) as [[data | e] w]; simpl; [| reflexivity].
  destruct (omap (set_version H) (assets data)) as [l | e]; reflexivity.
Qed.

Lemma supported_regex (H : Host) :
  supported (platform H) = true <-> exists re, _binaryZipRegex H = Ok re.
Proof.
  unfold supported, _binaryZipRegex.
  destruct (platform H =? "win32"); simpl.
  - split; [eexists; reflexivity | reflexivity].
  - destruct (platform H =? "linux"); simpl.
    + split; [eexists; reflexivity | reflexivity].
    + split; [discriminate | intros [re E]; discriminate E].
Qed.

Lemma unsupported_regex (H : Host) :
  supported (platform H) = false ->
  _binaryZipRegex H = Throw (UnsupportedPlatform (platform H)).
Proof.
  unfold supported, _binaryZipRegex.
  destruct (platform H =? "win32"); simpl; [discriminate |].
  destruct (platform H =? "linux"); simpl; [discriminate | reflexivity].
Qed.

Lemma omap_set_version (H : Host) (re : Regex) (feed : list Asset) :
  _binaryZipRegex H = Ok re ->
  omap (set_version H) feed = Ok (map (tagged re) feed).
Proof.
  intros Hre. induction feed as [| a feed IH]; simpl; [reflexivity |].
  rewrite IH. unfold set_version, tagged. rewrite Hre. simpl.
  destruct (regex_match re (name a)); reflexivity.
Qed.

Lemma digits1_nonempty (s d r : string) : digits1 s = Some (d, r) -> d <> "".
Proof.
  unfold digits1. destruct (digits s) as [[| c d'] r']; intros E.
  - discriminate E.
  - inversion E. discriminate.
Qed.

Lemma match_here_truthy (re : Regex) (s v : string) :
  match_here re s = Some v -> truthy (Some v) = true.
Proof.
  destruct re as [tag]. unfold match_here, obind_opt. intros E.
  destruct (literal "chia-" s) as [s1 |]; [| discriminate E].
  destruct (digits1 s1) as [[major s2] |] eqn:D; [| discriminate E].
  apply digits1_nonempty in D.
  repeat match type of E with
  | match ?x with _ => _ end = _ => destruct x; try discriminate E
  end.
  inversion E. destruct major as [| c major]; [contradiction |]. reflexivity.
Qed.

Lemma regex_match_truthy (re : Regex) (s v : string) :
  regex_match re s = Some v -> truthy (Some v) = true.
Proof.
  induction s as [| c s IH]; simpl.
  - destruct (match_here re "") eqn:E; [| discriminate].
    intros E'; inversion E'; subst. eapply match_here_truthy; eauto.
  - destruct (match_here re (String c s)) eqn:E.
    + intros E'; inversion E'; subst. eapply match_here_truthy; eauto.
    + exact IH.
Qed.

Section GreatestVersion.
Variable H : Host.
Hypothesis laws : SemverLaws H.

Lemma semver_compare_refl (x : string) :
  semver_valid H x = true -> semver_compare H x x = Eq.
Proof.
  intros Vx. pose proof (semver_antisym laws x x Vx Vx) as E.
  destruct (semver_compare H x x); [reflexivity | discriminate E | discriminate E].
Qed.

Lemma at_least_refl (x : string) :
  semver_valid H x = true -> at_least H (Some x) (Some x).
Proof.
  intros Vx. exists x, x. repeat split; auto.
  rewrite (semver_compare_refl x Vx). discriminate.
Qed.

Lemma at_least_trans (u v w : option string) :
  at_least H u v -> at_least H v w -> at_least H u w.
Proof.
  intros (x & y & -> & -> & Vx & Vy & Hxy) (y' & z & Ey & -> & _ & Vz & Hyz).
  inversion Ey; subst y'. exists x, z. repeat split; auto.
  assert (Hzy : semver_compare H z y <> Gt).
  { rewrite (semver_antisym laws y z Vy Vz).
    destruct (semver_compare H y z); simpl; congruence. }
  assert (Hyx : semver_compare H y x <> Gt).
  { rewrite (semver_antisym laws x y Vx Vy).
    destruct (semver_compare H x y); simpl; congruence. }
  pose proof (semver_trans laws z y x Vz Vy Vx Hzy Hyx) as Hzx.
  rewrite (semver_antisym laws z x Vz Vx).
  destruct (semver_compare H z x); simpl; congruence.
Qed.

Lemma semver_gte_returns (a b : option string) (r : bool) :
  semver_gte H a b = Ok r ->
  exists x y, a = Some x /\ b = Some y /\
    semver_valid H x = true /\ semver_valid H y = true /\
    r = match semver_compare H x y with Lt => false | _ => true end.
Proof.
  unfold semver_gte, semver_check, obind. intros E.
  destruct a as [x |]; [| discriminate E].
  destruct (semver_valid H x) eqn:Vx; [| discriminate E].
  destruct b as [y |]; [| discriminate E].
  destruct (semver_valid H y) eqn:Vy; [| discriminate E].
  exists x, y. inversion E. repeat split; auto.
Qed.

(** One step of the [reduce]: the asset kept is one of the two and is at
    least as great as both. *)
Lemma keep_latest_step (a c : Asset) (r : option Asset) :
  keep_latest H (Some a) c = Ok r ->
  exists k, r = Some k /\ (k = a \/ k = c) /\
    at_least H (version k) (version a) /\ at_least H (version k) (version c).
Proof.
  unfold keep_latest, obind. intros E.
  destruct (semver_gte H (version a) (version c)) as [b |] eqn:G; [| discriminate E].
  apply semver_gte_returns in G. destruct G as (x & y & Ea & Ec & Vx & Vy & Hb).
  inversion E; subst r. eexists; split; [reflexivity |].
  rewrite Ea, Ec. destruct (semver_compare H x y) eqn:C; subst b.
  - split; [left; reflexivity |]. rewrite Ea. split; [apply at_least_refl; auto |].
    exists x, y. repeat split; auto. congruence.
  - split; [right; reflexivity |]. rewrite Ec. split; [| apply at_least_refl; auto].
    exists y, x. repeat split; auto.
    rewrite (semver_antisym laws x y Vx Vy), C. discriminate.
  - split; [left; reflexivity |]. rewrite Ea. split; [apply at_least_refl; auto |].
    exists x, y. repeat split; auto. congruence.
Qed.

(** The [reduce] from a first asset on: the result is one of the assets, and
    as soon as two assets were compared it is at least as great as each. *)
Lemma reduce_from (l : list Asset) :
  forall (a : Asset) (r : option Asset),
  oreduce (keep_latest H) l (Some a) = Ok r ->
  exists b, r = Some b /\ In b (a :: l) /\
    (l <> [] -> forall x, In x (a :: l) -> at_least H (version b) (version x)).
Proof.
  induction l as [| c t IH]; intros a r E.
  - simpl in E. inversion E. exists a. split; [reflexivity |].
    split; [left; reflexivity |]. intros Hne; contradiction.
  - change (obind (keep_latest H (Some a) c)
                   (fun acc' => oreduce (keep_latest H) t acc') = Ok r) in E.
    destruct (keep_latest H (Some a) c) as [r' |] eqn:K; [| discriminate E].
    simpl in E. apply keep_latest_step in K.
    destruct K as (k & -> & Hk & Hka & Hkc).
    destruct (IH k r E) as (b & -> & Hin & Hbound).
    exists b. split; [reflexivity |]. split.
    + destruct Hin as [<- | Hin].
      * destruct Hk as [-> | ->]; [left | right; left]; reflexivity.
      * right; right; exact Hin.
    + intros _ x Hx.
      assert (Hbk : at_least H (version b) (version k)).
      { destruct t as [| d t'].
        - destruct Hin as [<- | []].
          destruct Hka as (x1 & _ & E1 & _ & V1 & _).
          rewrite E1. apply at_least_refl; exact V1.
        - apply Hbound; [discriminate | left; reflexivity]. }
      destruct Hx as [<- | [<- | Hx]].
      * eapply at_least_trans; eauto.
      * eapply at_least_trans; eauto.
      * apply Hbound; [| right; exact Hx].
        destruct t; [destruct Hx | discriminate].
Qed.

(** The whole [reduce]: [null] on no candidate; otherwise one of the
    candidates, at least as great as every other one. *)
Lemma reduce_greatest (l : list Asset) (r : option Asset) :
  oreduce (keep_latest H) l None = Ok r ->
  (l = [] /\ r = None) \/
  exists b, r = Some b /\ In b l /\
    forall x, In x l -> x = b \/ at_least H (version b) (version x).
Proof.
  destruct l as [| a t]; simpl; intros E.
  - left. inversion E. auto.
  - right. destruct (reduce_from t a r E) as (b & -> & Hin & Hbound).
    exists b. split; [reflexivity |]. split; [exact Hin |].
    intros x Hx. destruct t as [| c t'].
    + destruct Hin as [<- | []]. destruct Hx as [<- | []]. left; reflexivity.
    + right. apply Hbound; [discriminate | exact Hx].
Qed.
End GreatestVersion.

Lemma latest_of_candidates (H : Host) (re : Regex) (feed : list Asset) :
  _binaryZipRegex H = Ok re ->
  latest_of H feed = oreduce (keep_latest H) (candidates re feed) None.
Proof.
  intros Hre. unfold latest_of. rewrite (omap_set_version H re feed Hre). reflexivity.
Qed.

Lemma matching_is_candidate (re : Regex) (feed : list Asset) (a : Asset) (v : string) :
  In a feed -> regex_match re (name a) = Some v ->
  In (mkAsset (name a) (Some v)) (candidates re feed).
Proof.
  intros Hin Hm. unfold candidates. apply filter_In. split.
  - apply in_map_iff. exists a. split; [| exact Hin].
    unfold tagged. rewrite Hm. reflexivity.
  - exact (regex_match_truthy re (name a) v Hm).
Qed.

Lemma candidate_origin (re : Regex) (feed : list Asset) (r : Asset) :
  In r (candidates re feed) ->
  exists a, In a feed /\
    ((exists v, regex_match re (name a) = Some v /\ r = mkAsset (name a) (Some v)) \/
     (regex_match re (name a) = None /\ r = a /\ truthy (version a) = true)).
Proof.
  unfold candidates. intros Hin. apply filter_In in Hin. destruct Hin as [Hin Ht].
  apply in_map_iff in Hin. destruct Hin as (a & Ea & Hin).
  exists a. split; [exact Hin |]. unfold tagged in Ea.
  destruct (regex_match re (name a)) as [v |] eqn:Hm.
  - left. exists v. auto.
  - right. subst r. auto.
Qed.

Lemma candidates_of_matching (re : Regex) (feed : list Asset) :
  (forall a, In a feed -> regex_match re (name a) = None -> truthy (version a) = false) ->
  candidates re feed = candidates re (filter (name_matches re) feed).
Proof.
  unfold candidates. induction feed as [| a feed IH]; intros Hown; [reflexivity |].
  assert (Hrest : forall x, In x feed -> regex_match re (name x) = None ->
                            truthy (version x) = false).
  { intros x Hx. apply Hown. right; exact Hx. }
  specialize (IH Hrest). cbn [map filter].
  assert (Ht : tagged re a = match regex_match re (name a) with
                             | Some v => mkAsset (name a) (Some v)
                             | None => a
                             end) by reflexivity.
  unfold name_matches at 1.
  destruct (regex_match re (name a)) as [v |] eqn:Hm.
  - cbn [map filter]. rewrite Ht.
    destruct (truthy (version (mkAsset (name a) (Some v)))); [f_equal |]; exact IH.
  - rewrite Ht, (Hown a (or_introl eq_refl) Hm). exact IH.
Qed.

(** C3, amended. On a supported platform, whatever the feed answers: if an
    asset whose name matches the platform's pattern carries version A, and B
    is a valid version smaller than A in the order of [semver], the lookup
    does not return an asset of version B. When the assets of the feed whose
    names do not match the pattern have no [version] property of their own
    (as in the release feed), an asset whose name does not match is no
    candidate, whatever version its name spells: the asset returned is one
    whose name matches, carrying the version captured from its name, and
    dropping the unmatched assets from the feed does not change the answer.
    In general the lookup is the reduction over the candidates, and an asset
    whose name does not match is among them exactly when it arrived with a
    non-empty [version] of its own. *)
Theorem fetchLatest_returns_greatest (H : Host) (laws : SemverLaws H) (re : Regex)
    (s : State H BinaryManager) (data : Feed) (w' : World H) :
  _binaryZipRegex H = Ok re ->
  axios_get H releaseUrl (world s) = (Ok data, w') ->
  (forall A B a,
     semver_valid H A = true -> semver_valid H B = true ->
     semver_compare H A B = Gt ->
     In a (assets data) -> regex_match re (name a) = Some A ->
     forall r, fst (_getLatestRelease H s) = Ok (Some r) -> version r <> Some B) /\
  ((forall a, In a (assets data) -> regex_match re (name a) = None ->
              truthy (version a) = false) ->
   (forall r, fst (_getLatestRelease H s) = Ok (Some r) ->
      exists a v, In a (assets data) /\ regex_match re (name a) = Some v /\
                  r = mkAsset (name a) (Some v)) /\
   latest_of H (assets data) = latest_of H (filter (name_matches re) (assets data))) /\
  fst (_getLatestRelease H s) =
    oreduce (keep_latest H) (candidates re (assets data)) None /\
  (forall a, In a (assets data) -> regex_match re (name a) = None ->
     (In a (candidates re (assets data)) <-> truthy (version a) = true)).
Proof.
  intros Hre Hget.
  assert (Hrun : fst (_getLatestRelease H s) =
                 oreduce (keep_latest H) (candidates re (assets data)) None).
  { rewrite getLatestRelease_unfold, Hget. simpl.
    apply latest_of_candidates; exact Hre. }
  split; [| split; [| split; [exact Hrun |]]]; cycle 2.
  { intros a Hin Hm. unfold candidates. rewrite filter_In. split.
    - intros [_ Ht]. exact Ht.
    - intros Ht. split; [| exact Ht].
      apply in_map_iff. exists a. split; [| exact Hin].
      unfold tagged. rewrite Hm. reflexivity. }
  - intros A B a VA VB HAB Hin Hm r Hr. rewrite Hrun in Hr.
    apply (reduce_greatest H laws) in Hr.
    destruct Hr as [[_ Hnone] | (b & Eb & _ & Hbound)]; [discriminate Hnone |].
    inversion Eb; subst b. intros Hv.
    destruct (Hbound _ (matching_is_candidate re _ a A Hin Hm)) as [E | Hge].
    + rewrite <- E in Hv. simpl in Hv. inversion Hv; subst B.
      rewrite (semver_compare_refl H laws A VA) in HAB. discriminate HAB.
    + rewrite Hv in Hge. simpl in Hge.
      destruct Hge as (x & y & Ex & Ey & _ & _ & Hxy).
      inversion Ex; inversion Ey; subst x y.
      rewrite (semver_antisym laws A B VA VB), HAB in Hxy. apply Hxy. reflexivity.
  - intros Hown. split.
    + intros r Hr. rewrite Hrun in Hr.
      apply (reduce_greatest H laws) in Hr.
      destruct Hr as [[_ Hnone] | (b & Eb & Hin & _)]; [discriminate Hnone |].
      inversion Eb; subst b.
      destruct (candidate_origin re _ r Hin) as (a & Ha & [(v & Hm & Er) | (Hm & Er & Ht)]).
      * exists a, v. auto.
      * rewrite (Hown a Ha Hm) in Ht. discriminate Ht.
    + rewrite !(latest_of_candidates H re _ Hre).
      rewrite <- candidates_of_matching; auto.
Qed.

(** C6, counterexample. On linux, with a feed that lists [notes.txt] and a
    windows archive only, no asset name matches the linux pattern, and the
    lookup does not fail: it makes its request and returns [null]. So the
    statement of the specification is false. *)
Lemma no_match_returns_null :
  (forall a, In a (map asset_named ["notes.txt"; "chia-9.9.9-win.zip"]) ->
             regex_match (BinaryZip "-linux") (name a) = None) /\
  fst (_getLatestRelease (sim "linux") (start "linux" (example_manager "linux") foreign_feed))
    = Ok None /\
  ~ no_match_fails.
Proof.
  assert (Hnone : forall a, In a (map asset_named ["notes.txt"; "chia-9.9.9-win.zip"]) ->
                            regex_match (BinaryZip "-linux") (name a) = None).
  { intros a [<- | [<- | []]]; reflexivity. }
  split; [exact Hnone |]. split; [reflexivity |].
  intros claim.
  destruct (claim (sim "linux") (BinaryZip "-linux")
                  (start "linux" (example_manager "linux") foreign_feed)
                  (mkFeed (map asset_named ["notes.txt"; "chia-9.9.9-win.zip"]))
                  foreign_feed eq_refl eq_refl Hnone) as [e E].
  discriminate E.
Qed.

Lemma no_candidate (re : Regex) (feed : list Asset) :
  (forall a, In a feed -> regex_match re (name a) = None) ->
  (forall a, In a feed -> truthy (version a) = false) ->
  candidates re feed = [].
Proof.
  intros Hname Hown. unfold candidates.
  induction feed as [| a feed IH]; [reflexivity |].
  cbn [map filter]. unfold tagged at 1.
  rewrite (Hname a (or_introl eq_refl)), (Hown a (or_introl eq_refl)).
  apply IH; intros x Hx; [apply Hname | apply Hown]; right; exact Hx.
Qed.

(** C6, amended. On a supported platform, when the request succeeds and no
    asset of the feed has a name matching the pattern (nor a [version]
    property of its own), the lookup returns [null], without an error, after
    its one request. *)
Theorem no_match_gives_null (H : Host) (re : Regex) (s : State H BinaryManager)
    (data : Feed) (w' : World H) :
  _binaryZipRegex H = Ok re ->
  axios_get H releaseUrl (world s) = (Ok data, w') ->
  (forall a, In a (assets data) -> regex_match re (name a) = None) ->
  (forall a, In a (assets data) -> truthy (version a) = false) ->
  _getLatestRelease H s =
    (Ok None, mkState (this s) w' (trace s ++ [EvHttpGet releaseUrl])%list).
Proof.
  intros Hre Hget Hname Hown.
  rewrite getLatestRelease_unfold, Hget. simpl.
  rewrite (latest_of_candidates H re _ Hre), (no_candidate re _ Hname Hown).
  reflexivity.
Qed.

(** C7, counterexample. On darwin, with a feed that lists assets, the lookup
    does fail with the unsupported-platform error, but only after it has
    made its request. So the statement of the specification is false. *)
Lemma unsupported_platform_requests_first :
  supported "darwin" = false /\
  _getLatestRelease (sim "darwin") (start "darwin" (example_manager "darwin") mixed_feed)
    = (Throw (UnsupportedPlatform "darwin"),
       mkState (H := sim "darwin") (example_manager "darwin") mixed_feed
               [EvHttpGet releaseUrl]) /\
  ~ unsupported_fails_before_request.
Proof.
  split; [reflexivity |]. split; [reflexivity |].
  intros claim.
  destruct (claim (sim "darwin") (start "darwin" (example_manager "darwin") mixed_feed)
                  eq_refl) as [_ E].
  discriminate E.
Qed.

Lemma latest_of_unsupported (H : Host) (a : Asset) (feed : list Asset) :
  supported (platform H) = false ->
  latest_of H (a :: feed) = Throw (UnsupportedPlatform (platform H)).
Proof.
  intros Hp. unfold latest_of. simpl. unfold set_version at 1.
  rewrite (unsupported_regex H Hp). reflexivity.
Qed.

(** C7, amended. On an unsupported platform the lookup makes its request to
    the release feed first. When the request fails, the lookup fails with
    the error of the request; when it succeeds and the feed lists at least
    one asset, the lookup then fails with the unsupported-platform error.
    Either way exactly one request has been made. *)
Theorem unsupported_platform_fails_after_request (H : Host)
    (s : State H BinaryManager) :
  supported (platform H) = false ->
  trace (snd (_getLatestRelease H s)) = (trace s ++ [EvHttpGet releaseUrl])%list /\
  feed_requests (trace (snd (_getLatestRelease H s))) = S (feed_requests (trace s)) /\
  (forall e w', axios_get H releaseUrl (world s) = (Throw e, w') ->
     fst (_getLatestRelease H s) = Throw e) /\
  (forall data w', axios_get H releaseUrl (world s) = (Ok data, w') ->
     assets data <> [] ->
     fst (_getLatestRelease H s) = Throw (UnsupportedPlatform (platform H))).
Proof.
  intros Hp. rewrite getLatestRelease_unfold.
  assert (Htrace : trace (snd (match fst (axios_get H releaseUrl (world s)) with
                    | Ok data => (latest_of H (assets data),
                        mkState (this s) (snd (axios_get H releaseUrl (world s)))
                                (trace s ++ [EvHttpGet releaseUrl])%list)
                    | Throw e => (Throw e,
                        mkState (this s) (snd (axios_get H releaseUrl (world s)))
                                (trace s ++ [EvHttpGet releaseUrl])%list)
                    end)) = (trace s ++ [EvHttpGet releaseUrl])%list).
  { destruct (fst (axios_get H releaseUrl (world s))); reflexivity. }
  split; [exact Htrace |]. split.
  { rewrite Htrace. clear Htrace.
    induction (trace s) as [| ev tr IH]; simpl; [reflexivity |].
    destruct ev; simpl; rewrite IH; reflexivity. }
  split.
  - intros e w' Hget. rewrite Hget. reflexivity.
  - intros data w' Hget Hne. rewrite Hget. simpl.
    destruct (assets data) as [| a feed]; [contradiction |].
    apply latest_of_unsupported; exact Hp.
Qed.

(* ================================================================== *)
(** ** The update poll: [_updateLatestRelease] *)

Lemma notifications_app (a b : list Event) :
  notifications (a ++ b) = (notifications a ++ notifications b)%list.
Proof.
  induction a as [| ev a IH]; simpl; [reflexivity |].
  destruct ev; simpl; try exact IH.
  destruct (event =? "new-release"); simpl; rewrite IH; reflexivity.
Qed.

Section Quiet.
Variable H : Host.

Lemma quiet_ret {A} (a : A) : quiet (H := H) (ret a).
Proof. intros s r s' E. inversion E. auto. Qed.

Lemma quiet_throw {A} (e : Error) : quiet (H := H) (A := A) (throw e).
Proof. intros s r s' E. inversion E. auto. Qed.

Lemma quiet_lift {A} (o : Outcome A) : quiet (H := H) (lift o).
Proof. intros s r s' E. inversion E. auto. Qed.

Lemma quiet_query {A} (q : World H -> A) : quiet (H := H) (query q).
Proof. intros s r s' E. inversion E. auto. Qed.

Lemma quiet_get_this : quiet (H := H) get_this.
Proof. intros s r s' E. inversion E. auto. Qed.

Lemma quiet_perform {A} (ev : Event) (op : World H -> Outcome A * World H) :
  notifications [ev] = [] -> quiet (H := H) (perform ev op).
Proof.
  intros Hev s r s' E. unfold perform in E.
  destruct (op (world s)) as [r0 w]. inversion E. simpl.
  rewrite notifications_app, Hev, app_nil_r. auto.
Qed.

Lemma quiet_bind {A B} (c : M H BinaryManager A) (k : A -> M H BinaryManager B) :
  quiet c -> (forall a, quiet (k a)) -> quiet (bind c k).
Proof.
  intros Hc Hk s r s' E. unfold bind in E.
  destruct (c s) as [[a | e] s1] eqn:E1.
  - destruct (Hc _ _ _ E1) as [T1 N1]. destruct (Hk a _ _ _ E) as [T2 N2].
    split; congruence.
  - inversion E; subst. exact (Hc _ _ _ E1).
Qed.

Ltac quiet_steps :=
  repeat first
    [ apply quiet_bind; [| intros ?]
    | apply quiet_ret | apply quiet_throw | apply quiet_lift
    | apply quiet_query | apply quiet_get_this
    | apply quiet_perform; reflexivity
    | match goal with |- quiet (if ?b then _ else _) => destruct b end ].

Lemma quiet_getLatestRelease : quiet (_getLatestRelease H).
Proof. unfold _getLatestRelease. quiet_steps. Qed.

Lemma quiet_downloadBinary (v : option string) : quiet (_downloadBinary H v).
Proof. unfold _downloadBinary. quiet_steps. Qed.

Lemma quiet_ensureVersionExists (v : option string) : quiet (_ensureVersionExists H v).
Proof.
  unfold _ensureVersionExists. quiet_steps.
Qed.
End Quiet.

(** [_updateLatestRelease], step by step. *)
Lemma updateLatestRelease_unfold (H : Host) (s : State H BinaryManager) :
  _updateLatestRelease H s =
    match _getLatestRelease H s with
    | (Throw _, s1) => (Ok tt, s1)
    | (Ok None, s1) => (Ok tt, s1)
    | (Ok (Some fetched), s1) =>
        match version_of (latestRelease (this s1)) with
        | Throw e => (Throw e, s1)
        | Ok cached =>
            match semver_lte H (version fetched) cached with
            | Throw e => (Throw e, s1)
            | Ok true => (Ok tt, s1)
            | Ok false =>
                match _ensureVersionExists H (version fetched) s1 with
                | (Ok _, s2) =>
                    (Ok tt,
                     mkState (set_latestRelease (this s2) (Obj fetched)) (world s2)
                             (trace s2 ++
                              [EvEmit "new-release" (template (version fetched))])%list)
                | (Throw _, s2) => (Ok tt, s2)
                end
            end
        end
    end.
Proof.
  unfold _updateLatestRelease. unfold_run.
  destruct (_getLatestRelease H s) as [[[fetched |] | e] s1]; try reflexivity.
  destruct (version_of (latestRelease (this s1))) as [cached | e]; [| reflexivity].
  destruct (semver_lte H (version fetched) cached) as [[|] | e]; try reflexivity.
  destruct (_ensureVersionExists H (version fetched) s1) as [[u | e] s2]; reflexivity.
Qed.

Lemma semver_lte_false (H : Host) (a b : option string) :
  semver_lte H a b = Ok false ->
  exists x y, a = Some x /\ b = Some y /\
    semver_valid H x = true /\ semver_valid H y = true /\
    semver_compare H x y = Gt.
Proof.
  unfold semver_lte, semver_check, obind. intros E.
  destruct a as [x |]; [| discriminate E].
  destruct (semver_valid H x) eqn:Vx; [| discriminate E].
  destruct b as [y |]; [| discriminate E].
  destruct (semver_valid H y) eqn:Vy; [| discriminate E].
  exists x, y. repeat split; auto.
  destruct (semver_compare H x y); [discriminate E | discriminate E | reflexivity].
Qed.

(** What one poll execution does: either the cache stays and nothing is
    notified, or a strictly greater version was fetched, then acquired, then
    cached and notified. *)
Lemma poll_cases (H : Host) (s : State H BinaryManager) :
  let s' := snd (_updateLatestRelease H s) in
  (this s' = this s /\ notifications (trace s') = notifications (trace s)) \/
  exists fetched v cv s1 s2,
    _getLatestRelease H s = (Ok (Some fetched), s1) /\
    version fetched = Some v /\ cached_version (this s) = Some cv /\
    semver_valid H v = true /\ semver_valid H cv = true /\
    semver_compare H v cv = Gt /\
    _ensureVersionExists H (Some v) s1 = (Ok tt, s2) /\
    existsSync H (binary_path H (this s) v) (world s') = true /\
    s' = mkState (set_latestRelease (this s) (Obj fetched)) (world s2)
                 (trace s2 ++ [EvEmit "new-release" v])%list /\
    notifications (trace s2) = notifications (trace s).
Proof.
  intro s'. subst s'. rewrite updateLatestRelease_unfold.
  destruct (_getLatestRelease H s) as [[[fetched |] | e] s1] eqn:Hfetch;
    pose proof (quiet_getLatestRelease H _ _ _ Hfetch) as [T1 N1];
    try (left; simpl; split; assumption).
  destruct (version_of (latestRelease (this s1))) as [cached | e] eqn:Hcached;
    [| left; simpl; split; assumption].
  destruct (semver_lte H (version fetched) cached) as [[|] | e] eqn:Hlte;
    try (left; simpl; split; assumption).
  destruct (_ensureVersionExists H (version fetched) s1) as [[u | e] s2] eqn:Hens;
    pose proof (quiet_ensureVersionExists H _ _ _ _ Hens) as [T2 N2];
    [| left; simpl; split; congruence].
  right. apply semver_lte_false in Hlte.
  destruct Hlte as (v & cv & Ev & Ecv & Vv & Vcv & Hgt).
  exists fetched, v, cv, s1, s2. destruct u.
  rewrite Ev in Hens.
  destruct (ensureVersionExists_returns H (Some v) s1 s2 Hens)
    as (v0 & Ev0 & _ & Hnow & _).
  inversion Ev0; subst v0.
  assert (Hcv : cached_version (this s) = Some cv).
  { unfold cached_version. rewrite <- T1.
    destruct (latestRelease (this s1)); simpl in Hcached; try discriminate Hcached.
    inversion Hcached. congruence. }
  simpl. rewrite Ev. simpl.
  repeat split; auto; try congruence.
Qed.

Section NeverOlder.
Variable H : Host.
Hypothesis laws : SemverLaws H.

Lemma semver_gt_trans (a b c : string) :
  semver_valid H a = true -> semver_valid H b = true -> semver_valid H c = true ->
  semver_compare H a b = Gt -> semver_compare H b c = Gt ->
  semver_compare H a c = Gt.
Proof.
  intros Va Vb Vc Hab Hbc.
  destruct (semver_compare H a c) eqn:Hac; [| | reflexivity]; exfalso.
  - assert (Hcb : semver_compare H c b <> Gt).
    { rewrite (semver_antisym laws b c Vb Vc), Hbc. discriminate. }
    assert (Hac' : semver_compare H a c <> Gt) by (rewrite Hac; discriminate).
    apply (semver_trans laws a c b Va Vc Vb Hac' Hcb). exact Hab.
  - assert (Hcb : semver_compare H c b <> Gt).
    { rewrite (semver_antisym laws b c Vb Vc), Hbc. discriminate. }
    assert (Hac' : semver_compare H a c <> Gt) by (rewrite Hac; discriminate).
    apply (semver_trans laws a c b Va Vc Vb Hac' Hcb). exact Hab.
Qed.

Lemma not_older_refl (m : BinaryManager) : not_older H m m.
Proof. left. reflexivity. Qed.

Lemma not_older_trans (m1 m2 m3 : BinaryManager) :
  not_older H m1 m2 -> not_older H m2 m3 -> not_older H m1 m3.
Proof.
  unfold not_older, cached_version.
  intros [E12 | (v1 & v2 & C1 & C2 & V1 & V2 & G12)] [E23 | (v2' & v3 & C2' & C3 & V2' & V3 & G23)].
  - left. congruence.
  - right. exists v2', v3. rewrite <- E12. auto.
  - right. exists v1, v2. rewrite E23. auto.
  - right. exists v1, v3. rewrite C2 in C2'. inversion C2'; subst v2'.
    repeat split; auto. apply (semver_gt_trans v3 v2 v1); auto.
Qed.

Lemma poll_not_older (s : State H BinaryManager) :
  not_older H (this s) (this (snd (_updateLatestRelease H s))).
Proof.
  destruct (poll_cases H s) as [[T _] | (fetched & v & cv & s1 & s2 & _ & Ev & Ecv & Vv & Vcv & Hgt & _ & _ & Es' & _)].
  - left. rewrite T. reflexivity.
  - right. exists cv, v. rewrite Es'. unfold cached_version at 2. simpl. auto.
Qed.

Lemma polls_not_older (between : list (World H -> World H)) :
  forall s, not_older H (this s) (this (polls H between s)).
Proof.
  induction between as [| change rest IH]; intros s; simpl.
  - apply not_older_refl.
  - eapply not_older_trans; [| apply IH].
    apply (poll_not_older (mkState (this s) (change (world s)) (trace s))).
Qed.
End NeverOlder.

(* ================================================================== *)
(** *** The poll cut at its download *)

Lemma downloadBinary_cut (H : Host) (v : option string) (s : State H BinaryManager) :
  _downloadBinary H v s =
    match download_request H v s with
    | (Ok p, s1) => download_store H v (fst p) (snd p) s1
    | (Throw e, s1) => (Throw e, s1)
    end.
Proof.
  unfold _downloadBinary, download_request, download_store, path_join. unfold_run.
  simpl.
  destruct (mkdirp_sync H _ (world s)) as [[u | e] w1]; simpl; [| reflexivity].
  destruct (_getDownloadUrl H v) as [url | e]; simpl; [| reflexivity].
  destruct (axios_get_stream H url w1) as [[res | e] w2]; simpl; reflexivity.
Qed.

Lemma ensure_cut (H : Host) (v : option string) (s : State H BinaryManager) :
  _ensureVersionExists H v s =
    match ensure_request H v s with
    | (Ok None, s1) => (Ok tt, s1)
    | (Ok (Some (binaryPath, res, zip)), s1) => ensure_store H v binaryPath res zip s1
    | (Throw e, s1) => (Throw e, s1)
    end.
Proof.
  destruct v as [v |]; [| reflexivity].
  unfold _ensureVersionExists, ensure_request, ensure_store, _getBinaryDirectory,
    path_join.
  unfold_run. simpl.
  destruct (existsSync H _ (world s)); [reflexivity |].
  destruct (mkdirp_sync H _ (world s)) as [[u | e] w1]; simpl; [| reflexivity].
  rewrite downloadBinary_cut.
  destruct (download_request H (Some v) _) as [[[res zip] | e] s2]; reflexivity.
Qed.

Lemma poll_cut (H : Host) (s : State H BinaryManager) :
  _updateLatestRelease H s =
    match poll_start H s with
    | (Ok Returned, s1) => (Ok tt, s1)
    | (Ok (Awaiting fetched binaryPath res zip), s1) =>
        poll_resume H fetched binaryPath res zip s1
    | (Throw e, s1) => (Throw e, s1)
    end.
Proof.
  rewrite updateLatestRelease_unfold. unfold poll_start, poll_resume, poll_commit.
  unfold_run.
  destruct (_getLatestRelease H s) as [[[fetched |] | e] s1]; try reflexivity.
  destruct (version_of (latestRelease (this s1))) as [cached | e]; [| reflexivity].
  destruct (semver_lte H (version fetched) cached) as [[|] | e]; try reflexivity.
  rewrite ensure_cut.
  destruct (ensure_request H (version fetched) s1) as [[[[[bp res] zip] |] | e] s2];
    try reflexivity.
  destruct (ensure_store H (version fetched) bp res zip s2) as [[u | e] s3];
    reflexivity.
Qed.

Section CutQuiet.
Variable H : Host.

Ltac quiet_cut :=
  repeat first
    [ apply quiet_bind; [| intros ?]
    | apply quiet_ret | apply quiet_throw | apply quiet_lift
    | apply quiet_query | apply quiet_get_this
    | apply quiet_perform; reflexivity
    | match goal with |- quiet (if ?b then _ else _) => destruct b end ].

Lemma quiet_ensure_request (v : option string) : quiet (ensure_request H v).
Proof. unfold ensure_request, download_request. quiet_cut. Qed.

Lemma quiet_ensure_store (v : option string) (bp : string) (res : Stream H)
    (zip : string) : quiet (ensure_store H v bp res zip).
Proof. unfold ensure_store, download_store. quiet_cut. Qed.
End CutQuiet.

Lemma ensure_store_returns (H : Host) (v : option string) (bp : string)
    (res : Stream H) (zip : string) (t t2 : State H BinaryManager) (u : unit) :
  ensure_store H v bp res zip t = (Ok u, t2) -> existsSync H bp (world t2) = true.
Proof.
  unfold ensure_store, bind, query, ret, throw. intros E.
  destruct (download_store H v res zip t) as [[u' | e] t1]; [| discriminate E].
  destruct (existsSync H bp (world t1)) eqn:Hp; inversion E; subst. exact Hp.
Qed.

(** The first half suspends only for a fetched version strictly greater
    than the cached one, and has not touched the cache by then. *)
Lemma poll_start_awaits (H : Host) (s s1 : State H BinaryManager) (fetched : Asset)
    (bp : string) (res : Stream H) (zip : string) :
  poll_start H s = (Ok (Awaiting fetched bp res zip), s1) ->
  fst (_getLatestRelease H s) = Ok (Some fetched) /\
  greater H (version fetched) (cached_version (this s)) /\
  this s1 = this s /\
  notifications (trace s1) = notifications (trace s).
Proof.
  unfold poll_start. unfold_run. intros E.
  destruct (_getLatestRelease H s) as [[[f |] | e] s0] eqn:Hfetch;
    try discriminate E.
  destruct (quiet_getLatestRelease H _ _ _ Hfetch) as [T0 N0].
  destruct (version_of (latestRelease (this s0))) as [cached | e] eqn:Hcached;
    [| discriminate E].
  assert (Hc : cached = cached_version (this s0)).
  { unfold cached_version. destruct (latestRelease (this s0)); simpl in Hcached;
      try discriminate Hcached. inversion Hcached. reflexivity. }
  subst cached.
  destruct (semver_lte H (version f) (cached_version (this s0))) as [[|] | e] eqn:Hlte;
    try discriminate E.
  apply semver_lte_false in Hlte.
  destruct (ensure_request H (version f) s0) as [[[[[bp' res'] zip'] |] | e] s2] eqn:Hreq;
    try discriminate E.
  destruct (quiet_ensure_request H _ _ _ _ Hreq) as [T2 N2].
  inversion E; subst. rewrite <- T0.
  repeat split; try congruence. exact Hlte.
Qed.

(** The second half, from whatever state it resumes in: it returns; either
    the cache and the notifications are as it found them, or the binary is
    in place, the fetched release is cached and its notification is the last
    thing done. *)
Lemma poll_resume_outcome (H : Host) (t : State H BinaryManager) (fetched : Asset)
    (bp : string) (res : Stream H) (zip : string) :
  let t' := snd (poll_resume H fetched bp res zip t) in
  fst (poll_resume H fetched bp res zip t) = Ok tt /\
  ((this t' = this t /\ notifications (trace t') = notifications (trace t)) \/
   (existsSync H bp (world t') = true /\
    this t' = set_latestRelease (this t) (Obj fetched) /\
    exists t2, ensure_store H (version fetched) bp res zip t = (Ok tt, t2) /\
      world t' = world t2 /\
      trace t' = (trace t2 ++ [EvEmit "new-release" (template (version fetched))])%list /\
      notifications (trace t2) = notifications (trace t))).
Proof.
  intro t'. subst t'. unfold poll_resume, poll_commit. unfold_run.
  destruct (ensure_store H (version fetched) bp res zip t) as [[u | e] t2] eqn:Hstore;
    destruct (quiet_ensure_store H _ _ _ _ _ _ _ Hstore) as [T N]; simpl.
  - split; [reflexivity |]. right.
    split; [exact (ensure_store_returns H _ _ _ _ _ _ _ Hstore) |].
    split; [rewrite T; reflexivity |].
    exists t2. destruct u. auto.
  - split; [reflexivity |]. left. auto.
Qed.


(** C4, amended. One poll execution emits the notification only for a
    fetched version strictly greater than the cached one as it compared
    them, and only after that version's binary has been acquired: the binary
    file then exists, the fetched release is cached and the notification is
    the last thing done. When the feed request fails, when the fetched
    version is not strictly greater, or when the acquisition fails, the
    cached release stays as it was and no notification is emitted. Over any
    number of poll executions run one after the other, whatever the world
    turns into in between, the cached version is never replaced by a smaller
    one. The execution is its two halves run back to back; it is suspended
    in its download only for a fetched version strictly greater than the
    cached one, with the cache untouched; and on resumption, in whatever
    state and with whatever release cached by then, it returns, and either
    leaves the cache and the notifications as it finds them or, the binary
    being in place, caches the release it fetched before the suspension,
    without comparing again, and notifies last. *)
Theorem poll_notifies_after_acquisition (H : Host) (laws : SemverLaws H)
    (s : State H BinaryManager) :
  let s' := snd (_updateLatestRelease H s) in
  ((this s' = this s /\ notifications (trace s') = notifications (trace s)) \/
   exists fetched v cv s1 s2,
     _getLatestRelease H s = (Ok (Some fetched), s1) /\
     version fetched = Some v /\ cached_version (this s) = Some cv /\
     semver_valid H v = true /\ semver_valid H cv = true /\
     semver_compare H v cv = Gt /\
     _ensureVersionExists H (Some v) s1 = (Ok tt, s2) /\
     existsSync H (binary_path H (this s) v) (world s') = true /\
     s' = mkState (set_latestRelease (this s) (Obj fetched)) (world s2)
                  (trace s2 ++ [EvEmit "new-release" v])%list /\
     notifications (trace s2) = notifications (trace s)) /\
  (forall e s1, _getLatestRelease H s = (Throw e, s1) -> unchanged s s') /\
  (forall fetched s1 cached,
     _getLatestRelease H s = (Ok (Some fetched), s1) ->
     version_of (latestRelease (this s)) = Ok cached ->
     semver_lte H (version fetched) cached = Ok true -> unchanged s s') /\
  (forall fetched s1 e s2,
     _getLatestRelease H s = (Ok (Some fetched), s1) ->
     _ensureVersionExists H (version fetched) s1 = (Throw e, s2) -> unchanged s s') /\
  (forall between, not_older H (this s) (this (polls H between s))) /\
  _updateLatestRelease H s =
    match poll_start H s with
    | (Ok Returned, s1) => (Ok tt, s1)
    | (Ok (Awaiting fetched binaryPath res zip), s1) =>
        poll_resume H fetched binaryPath res zip s1
    | (Throw e, s1) => (Throw e, s1)
    end /\
  (forall fetched binaryPath res zip s1,
     poll_start H s = (Ok (Awaiting fetched binaryPath res zip), s1) ->
     fst (_getLatestRelease H s) = Ok (Some fetched) /\
     greater H (version fetched) (cached_version (this s)) /\
     this s1 = this s /\
     notifications (trace s1) = notifications (trace s)) /\
  (forall (t : State H BinaryManager) fetched binaryPath res zip,
     let t' := snd (poll_resume H fetched binaryPath res zip t) in
     fst (poll_resume H fetched binaryPath res zip t) = Ok tt /\
     ((this t' = this t /\ notifications (trace t') = notifications (trace t)) \/
      (existsSync H binaryPath (world t') = true /\
       this t' = set_latestRelease (this t) (Obj fetched) /\
       exists t2,
         ensure_store H (version fetched) binaryPath res zip t = (Ok tt, t2) /\
         world t' = world t2 /\
         trace t' =
           (trace t2 ++ [EvEmit "new-release" (template (version fetched))])%list /\
         notifications (trace t2) = notifications (trace t)))).
Proof.
  intro s'. split; [apply poll_cases |].
  split; [| split; [| split; [| split; [| split; [| split]]]]].
  - intros e s1 Hfetch. subst s'. rewrite updateLatestRelease_unfold, Hfetch. simpl.
    destruct (quiet_getLatestRelease H _ _ _ Hfetch) as [T N]. split; congruence.
  - intros fetched s1 cached Hfetch Hcached Hlte. subst s'.
    rewrite updateLatestRelease_unfold, Hfetch.
    destruct (quiet_getLatestRelease H _ _ _ Hfetch) as [T N].
    rewrite T, Hcached, Hlte. simpl. split; congruence.
  - intros fetched s1 e s2 Hfetch Hens. subst s'.
    rewrite updateLatestRelease_unfold, Hfetch.
    destruct (quiet_getLatestRelease H _ _ _ Hfetch) as [T N].
    destruct (quiet_ensureVersionExists H _ _ _ _ Hens) as [T2 N2].
    destruct (version_of (latestRelease (this s1))) as [cached | e'];
      [| simpl; split; congruence].
    destruct (semver_lte H (version fetched) cached) as [[|] | e'];
      try (simpl; split; congruence).
    rewrite Hens. simpl. split; congruence.
  - intros between. apply polls_not_older; exact laws.
  - apply poll_cut.
  - intros fetched binaryPath res zip s1. apply poll_start_awaits.
  - intros t fetched binaryPath res zip. apply poll_resume_outcome.
Qed.

(* ================================================================== *)
(** ** [getConfiguredChia] and the cached release *)

Section IgnoresCache.
Variable H : Host.

Lemma ignores_ret {A} (a : A) : ignores_cache (H := H) (ret a).
Proof. intros k s. reflexivity. Qed.

Lemma ignores_throw {A} (e : Error) : ignores_cache (H := H) (A := A) (throw e).
Proof. intros k s. reflexivity. Qed.

Lemma ignores_lift {A} (o : Outcome A) : ignores_cache (H := H) (lift o).
Proof. intros k s. reflexivity. Qed.

Lemma ignores_query {A} (q : World H -> A) : ignores_cache (H := H) (query q).
Proof. intros k s. reflexivity. Qed.

Lemma ignores_perform {A} (ev : Event) (op : World H -> Outcome A * World H) :
  ignores_cache (H := H) (perform ev op).
Proof.
  intros k s. unfold perform, with_cached. simpl.
  destruct (op (world s)) as [r w]. reflexivity.
Qed.

Lemma ignores_bind {A B} (c : M H BinaryManager A) (f : A -> M H BinaryManager B) :
  ignores_cache c -> (forall a, ignores_cache (f a)) -> ignores_cache (bind c f).
Proof.
  intros Hc Hf k s. unfold bind. rewrite Hc.
  destruct (c s) as [[a | e] s1]; simpl; [apply Hf | reflexivity].
Qed.

(** Reading [this] is harmless when what is read of it is not the cache. *)
Lemma ignores_get_this {B} (f : BinaryManager -> M H BinaryManager B) :
  (forall m, ignores_cache (f m)) ->
  (forall m k, f (set_latestRelease m k) = f m) ->
  ignores_cache (bind get_this f).
Proof.
  intros Hf Hsame k s. unfold bind, get_this.
  change (this (with_cached k s)) with (set_latestRelease (this s) k).
  rewrite Hsame. apply Hf.
Qed.

Ltac ignores_steps :=
  repeat first
    [ apply ignores_get_this; [intros ? | intros ? ?; reflexivity]
    | apply ignores_bind; [| intros ?]
    | apply ignores_ret | apply ignores_throw | apply ignores_lift
    | apply ignores_query | apply ignores_perform
    | match goal with |- ignores_cache (if ?b then _ else _) => destruct b end ].

Lemma downloadBinary_ignores_cache (v : option string) :
  ignores_cache (_downloadBinary H v).
Proof. unfold _downloadBinary. ignores_steps. Qed.

End IgnoresCache.

Lemma getConfiguredChia_unfold (H : Host) (v : string) (s : State H BinaryManager) :
  getConfiguredChia H (Some v) s =
    match _ensureVersionExists H (Some v) s with
    | (Ok _, s1) =>
        (Ok (new_Chia (binary_path H (this s1) v) (chiaRootDirectory (this s1))), s1)
    | (Throw e, s1) => (Throw e, s1)
    end.
Proof.
  unfold getConfiguredChia, _getChiaBinaryPath, _getBinaryDirectory, path_join.
  unfold_run. simpl.
  destruct (_ensureVersionExists H (Some v) s) as [[u | e] s1]; reflexivity.
Qed.

(** [init], step by step. *)
Lemma init_unfold (H : Host) (s : State H BinaryManager) :
  let bd := binaryDirectory (this s) in
  let s0 := mkState (this s) (snd (mkdirp_sync H bd (world s)))
                    (trace s ++ [EvMkdirp bd])%list in
  init H s =
    match fst (mkdirp_sync H bd (world s)) with
    | Throw e => (Throw e, s0)
    | Ok _ =>
        match _getLatestRelease H s0 with
        | (Throw e, s1) => (Throw e, s1)
        | (Ok r, s1) =>
            let cache := match r with Some a => Obj a | None => Null end in
            if notifyOnUpdate (this s1) then
              _updateLatestRelease H
                (mkState (set_latestRelease (this s1) cache) (world s1)
                         (trace s1 ++ [EvSetInterval 900000])%list)
            else (Ok tt, mkState (set_latestRelease (this s1) cache) (world s1) (trace s1))
        end
    end.
Proof.
  intros bd s0. subst s0 bd. unfold init. unfold_run.
  destruct (mkdirp_sync H (binaryDirectory (this s)) (world s)) as [[u | e] w]; simpl;
    [| reflexivity].
  destruct (_getLatestRelease H _) as [[r | e] s1]; simpl; [| reflexivity].
  destruct (notifyOnUpdate (this s1)); reflexivity.
Qed.



(** The constructor leaves [latestRelease] unassigned. *)
Lemma new_BinaryManager_caches_nothing (H : Host) (binaryDirectory chiaRoot : option string)
    (notify : option bool) :
  latestRelease (new_BinaryManager H binaryDirectory chiaRoot notify) = Undefined.
Proof. reflexivity. Qed.

(** [init] that fails at its directory or at its lookup leaves it so. *)
Lemma failed_init_caches_nothing (H : Host) (s s' : State H BinaryManager) (e : Error) :
  latestRelease (this s) = Undefined ->
  fst (mkdirp_sync H (binaryDirectory (this s)) (world s)) = Throw e \/
  fst (_getLatestRelease H
         (mkState (this s) (snd (mkdirp_sync H (binaryDirectory (this s)) (world s)))
                  (trace s ++ [EvMkdirp (binaryDirectory (this s))])%list)) = Throw e ->
  latestRelease (this (snd (init H s))) = Undefined.
Proof.
  intros Hundef Hfail. unfold init. unfold_run.
  destruct (mkdirp_sync H (binaryDirectory (this s)) (world s)) as [[u | e0] w] eqn:Hmk;
    simpl in *.
  - destruct Hfail as [Hfail | Hfail]; [discriminate Hfail |].
    destruct (_getLatestRelease H _) as [[r | e1] s1] eqn:Hfetch; simpl in Hfail;
      [discriminate Hfail |].
    destruct (quiet_getLatestRelease H _ _ _ Hfetch) as [T _]. simpl in *.
    rewrite T. exact Hundef.
  - exact Hundef.
Qed.

(* ================================================================== *)
(** ** The simulated host at work *)

Lemma compare_main_antisym (a b : N * N * N) :
  compare_main b a = CompOpp (compare_main a b).
Proof.
  destruct a as [[x1 y1] z1], b as [[x2 y2] z2]. unfold compare_main.
  rewrite (N.compare_antisym x1 x2), (N.compare_antisym y1 y2), (N.compare_antisym z1 z2).
  destruct (x1 ?= x2)%N; simpl; try reflexivity.
  destruct (y1 ?= y2)%N; simpl; reflexivity.
Qed.

Lemma compare_main_not_gt (a b : N * N * N) :
  compare_main a b <> Gt <->
  let '(x1, y1, z1) := a in
  let '(x2, y2, z2) := b in
  (x1 < x2 \/ (x1 = x2 /\ (y1 < y2 \/ (y1 = y2 /\ z1 <= z2))))%N.
Proof.
  destruct a as [[x1 y1] z1], b as [[x2 y2] z2]. unfold compare_main.
  destruct (N.compare_spec x1 x2) as [Ex | Lx | Gx].
  - destruct (N.compare_spec y1 y2) as [Ey | Ly | Gy].
    + destruct (N.compare_spec z1 z2) as [Ez | Lz | Gz]; split; intros K;
        try lia; try discriminate; try congruence.
    + split; intros K; [lia | discriminate].
    + split; intros K; [congruence | lia].
  - split; intros K; [lia | discriminate].
  - split; intros K; [congruence | lia].
Qed.

Lemma compare_main_trans (a b c : N * N * N) :
  compare_main a b <> Gt -> compare_main b c <> Gt -> compare_main a c <> Gt.
Proof.
  rewrite !compare_main_not_gt.
  destruct a as [[x1 y1] z1], b as [[x2 y2] z2], c as [[x3 y3] z3]. lia.
Qed.

(** The simulated [semver] is an order on the versions it accepts. *)
Lemma sim_semver_laws (p : string) : SemverLaws (sim p).
Proof.
  split; simpl; unfold sim_semver_valid, sim_semver_compare.
  - intros a b Va Vb.
    destruct (parse_version a) as [x |]; [| discriminate Va].
    destruct (parse_version b) as [y |]; [| discriminate Vb].
    apply compare_main_antisym.
  - intros a b c Va Vb Vc.
    destruct (parse_version a) as [x |]; [| discriminate Va].
    destruct (parse_version b) as [y |]; [| discriminate Vb].
    destruct (parse_version c) as [z |]; [| discriminate Vc].
    apply compare_main_trans.
Qed.

(** The order is by number, not by character. *)
Example semver_orders_by_number :
  sim_semver_compare "1.10.0" "1.9.0" = Gt /\
  sim_semver_valid "1.10.0" = true /\
  sim_semver_valid "01.10.0" = false /\
  sim_semver_valid "1.10" = false.
Proof. repeat split. Qed.

Example pattern_examples :
  regex_match (BinaryZip "-linux") "chia-1.2.3-linux.zip" = Some "1.2.3" /\
  regex_match (BinaryZip "-linux") "nightly/chia-1.2.3-linux_zip.sig" = Some "1.2.3" /\
  regex_match (BinaryZip "-linux") "chia-1.2.3-win.zip" = None /\
  regex_match (BinaryZip "-win") "chia-1.2-win.zip" = None.
Proof. repeat split. Qed.

(** C1 at work: 1.9.0 is absent, the first call downloads and extracts it,
    the second finds [/opt/chia/1.9.0/chia] and does nothing. *)
Lemma ensure_twice_witness :
  let s := start "linux" (example_manager "linux") stocked_world in
  let s1 := snd (_ensureVersionExists (sim "linux") (Some "1.9.0") s) in
  _ensureVersionExists (sim "linux") (Some "1.9.0") s = (Ok tt, s1) /\
  binary_path (sim "linux") (this s) "1.9.0" = "/opt/chia/1.9.0/chia" /\
  _ensureVersionExists (sim "linux") (Some "1.9.0") s1 = (Ok tt, s1) /\
  downloads (trace s1) = 1 /\ extractions (trace s1) = 1.
Proof.
  intros s s1.
  assert (Hrun : _ensureVersionExists (sim "linux") (Some "1.9.0") s = (Ok tt, s1))
    by reflexivity.
  split; [exact Hrun |]. split; [reflexivity |].
  destruct (ensure_twice_downloads_once (sim "linux") (Some "1.9.0") s s1 Hrun)
    as (version & Ev & _ & Hagain & _ & Hfirst).
  inversion Ev; subst version.
  split; [exact Hagain |].
  destruct (Hfirst eq_refl) as (Hd & He & _).
  split; [exact Hd | exact He].
Defined.

(** C3, counterexample. On linux, a feed whose first asset is [notes.txt]
    with a [version] of its own: the name does not match the pattern, yet
    the asset is a candidate and is the one returned. *)
Lemma unmatched_asset_is_returned :
  let s := start "linux" (example_manager "linux") own_version_feed in
  regex_match (BinaryZip "-linux") "notes.txt" = None /\
  fst (_getLatestRelease (sim "linux") s) = Ok (Some (mkAsset "notes.txt" (Some "9.9.9"))) /\
  ~ unmatched_names_excluded.
Proof.
  intros s. split; [reflexivity |]. split; [reflexivity |].
  intros claim.
  apply (claim (sim "linux") (BinaryZip "-linux") s
               (mkFeed [mkAsset "notes.txt" (Some "9.9.9");
                        asset_named "chia-1.0.0-linux.zip"])
               own_version_feed (sim_semver_laws "linux") eq_refl eq_refl
               (mkAsset "notes.txt" (Some "9.9.9")) eq_refl).
  reflexivity.
Qed.

(** C3 at work: 1.10.0 wins over 1.9.0, and the windows archive with its
    9.9.9 is no candidate on linux. *)
Lemma fetchLatest_witness :
  let s := start "linux" (example_manager "linux") stocked_world in
  fst (_getLatestRelease (sim "linux") s)
    = Ok (Some (mkAsset "chia-1.10.0-linux.zip" (Some "1.10.0"))) /\
  (forall r, fst (_getLatestRelease (sim "linux") s) = Ok (Some r) ->
             version r <> Some "1.9.0") /\
  (forall r, fst (_getLatestRelease (sim "linux") s) = Ok (Some r) ->
     exists a v, In a (map asset_named ["chia-1.9.0-linux.zip"; "chia-1.10.0-linux.zip";
                                        "chia-9.9.9-win.zip"; "notes.txt"]) /\
                 regex_match (BinaryZip "-linux") (name a) = Some v /\
                 r = mkAsset (name a) (Some v)).
Proof.
  intros s. split; [reflexivity |].
  destruct (fetchLatest_returns_greatest (sim "linux") (sim_semver_laws "linux")
              (BinaryZip "-linux") s
              (mkFeed (map asset_named ["chia-1.9.0-linux.zip"; "chia-1.10.0-linux.zip";
                                        "chia-9.9.9-win.zip"; "notes.txt"]))
              stocked_world eq_refl eq_refl) as (Hgreatest & Hmatching & _).
  split.
  - apply (Hgreatest "1.10.0" "1.9.0" (asset_named "chia-1.10.0-linux.zip"));
      try reflexivity.
    right; left; reflexivity.
  - apply Hmatching. intros a Ha _.
    destruct Ha as [<- | [<- | [<- | [<- | []]]]]; reflexivity.
Defined.

(** C4, counterexample. With 1.9.0 cached, an execution fetches 1.10.0 and
    is suspended in its download; 1.11.0 is published; the next execution
    runs to its end, caches 1.11.0 and notifies; the first resumes, caches
    1.10.0 and notifies again: the cached version has decreased. *)
Lemma overlapping_polls_set_cache_back :
  let s := start "linux" manager_at_1_9_0 stocked_world in
  let r := overlap (sim "linux") release_1_11_0 s in
  fst (poll_start (sim "linux") s) =
    Ok (Awaiting (H := sim "linux")
                 (mkAsset "chia-1.10.0-linux.zip" (Some "1.10.0"))
                 "/opt/chia/1.10.0/chia" ["chia"]
                 "/tmp/chia-binary-manager/chia-1.10.0.zip") /\
  cached_version (this (fst r)) = Some "1.11.0" /\
  cached_version (this (snd r)) = Some "1.10.0" /\
  notifications (trace (snd r)) = ["1.11.0"; "1.10.0"] /\
  semver_compare (sim "linux") "1.10.0" "1.11.0" = Lt /\
  ~ not_older (sim "linux") (this (fst r)) (this (snd r)) /\
  ~ cache_never_decreases.
Proof.
  intros s r.
  assert (Hback : ~ not_older (sim "linux") (this (fst r)) (this (snd r))).
  { intros [E | (v & v' & C1 & C2 & _ & _ & G)].
    - vm_compute in E. discriminate E.
    - vm_compute in C1, C2. inversion C1; inversion C2; subst v v'.
      vm_compute in G. discriminate G. }
  split; [reflexivity |]. split; [vm_compute; reflexivity |].
  split; [vm_compute; reflexivity |]. split; [vm_compute; reflexivity |].
  split; [vm_compute; reflexivity |]. split; [exact Hback |].
  intros Hnever. apply Hback.
  apply (Hnever (sim "linux") release_1_11_0 s (sim_semver_laws "linux")).
Qed.

(** C4 at work: with 1.9.0 cached, a poll acquires 1.10.0, caches it and
    notifies once; two more polls change nothing. *)
Lemma poll_witness :
  let s := mkState (H := sim "linux") manager_at_1_9_0 stocked_world [] in
  let s' := snd (_updateLatestRelease (sim "linux") s) in
  cached_version (this s') = Some "1.10.0" /\
  notifications (trace s') = ["1.10.0"] /\
  sim_existsSync "/opt/chia/1.10.0/chia" (world s') = true /\
  notifications (trace (polls (sim "linux") [fun w => w; fun w => w; fun w => w] s))
    = ["1.10.0"] /\
  not_older (sim "linux") (this s)
    (this (polls (sim "linux") [fun w => w; fun w => w; fun w => w] s)).
Proof.
  intros s s'.
  destruct (poll_notifies_after_acquisition (sim "linux") (sim_semver_laws "linux") s)
    as (_ & _ & _ & _ & Hnever & _).
  split; [reflexivity |]. split; [reflexivity |]. split; [reflexivity |].
  split; [reflexivity |]. apply Hnever.
Defined.

(** C6 at work: nothing for linux in the feed, the lookup returns [null]. *)
Lemma no_match_witness :
  _getLatestRelease (sim "linux") (start "linux" (example_manager "linux") foreign_feed)
    = (Ok None,
       mkState (H := sim "linux") (example_manager "linux") foreign_feed
               [EvHttpGet releaseUrl]).
Proof.
  apply (no_match_gives_null (sim "linux") (BinaryZip "-linux")
           (start "linux" (example_manager "linux") foreign_feed)
           (mkFeed (map asset_named ["notes.txt"; "chia-9.9.9-win.zip"]))
           foreign_feed eq_refl eq_refl).
  - intros a [<- | [<- | []]]; reflexivity.
  - intros a [<- | [<- | []]]; reflexivity.
Defined.

(** C7 at work: on darwin the request is made, then the lookup fails. *)
Lemma unsupported_platform_witness :
  let s := start "darwin" (example_manager "darwin") mixed_feed in
  supported (platform (sim "darwin")) = false /\
  trace (snd (_getLatestRelease (sim "darwin") s)) = [EvHttpGet releaseUrl] /\
  fst (_getLatestRelease (sim "darwin") s) = Throw (UnsupportedPlatform "darwin").
Proof.
  intros s. split; [reflexivity |].
  destruct (unsupported_platform_fails_after_request (sim "darwin") s eq_refl)
    as (Htrace & _ & _ & Hfails).
  split; [exact Htrace |].
  apply (Hfails (mkFeed (map asset_named ["chia-1.9.0-linux.zip"; "chia-1.10.0-linux.zip";
                                          "chia-9.9.9-win.zip"; "notes.txt"])) mixed_feed).
  - reflexivity.
  - discriminate.
Defined.



(** C5 at a concrete supervisor: constructed on root [/srv/chia-root], it
    cannot write a document, and the disk stays empty. *)
Example writeConfig_throws_on_sim :
  let s := start "linux" (new_Chia "/opt/chia/1.9.0/chia" "/srv/chia-root") stocked_world in
  writeConfig (sim "linux") "farmer: {}" s
    = (Throw (TypeError "The path argument must be of type string. Received undefined"), s) /\
  readConfig (sim "linux") s
    = (Throw (TypeError "The path argument must be of type string. Received undefined"), s) /\
  sim_files (world (snd (writeConfig (sim "linux") "farmer: {}" s))) = [].
Proof. repeat split. Qed.

(** C2 at a concrete child: a spawn error followed by a close; the close is
    ignored. *)
Example spawn_error_then_close :
  promise (_closed (mkChildProcess 7 [SigError (HostError "ENOENT"); SigClose (Some 0%Z)]))
    = Rejected (SpawnError (HostError "ENOENT")) /\
  promise (_closed (mkChildProcess 7 [SigClose (Some 0%Z); SigError (HostError "EPERM")]))
    = Fulfilled /\
  promise (_closed (mkChildProcess 7 [SigClose (Some 3%Z); SigClose (Some 0%Z)]))
    = Rejected (ExitCode (Some 3%Z)) /\
  promise (_closed (mkChildProcess 7 [SigClose None])) = Rejected (ExitCode None).
Proof. repeat split. Qed.

(* ================================================================== *)
(** ** More on process supervision *)

(** The promise of [_closed] in terms of what the child emits. *)
Lemma closed_outcome (child : ChildProcess) :
  promise (_closed child) =
    match signals child with
    | [] => Pending
    | first :: _ => spec_outcome first
    end.
Proof.
  unfold _closed. destruct (signals child) as [| first later]; [reflexivity |].
  simpl. destruct (first_signal_settles first) as [Hres Hout].
  rewrite (signals_after_settlement later _ Hres). exact Hout.
Qed.

Lemma kills_app (a b : list Event) : kills (a ++ b) = (kills a ++ kills b)%list.
Proof.
  induction a as [| ev a IH]; simpl; [reflexivity |].
  destruct ev; simpl; rewrite IH; reflexivity.
Qed.

Lemma spawns_app (a b : list Event) : spawns (a ++ b) = (spawns a ++ spawns b)%list.
Proof.
  induction a as [| ev a IH]; simpl; [reflexivity |].
  destruct ev; simpl; rewrite IH; reflexivity.
Qed.

(** X1. Each of [init], [startDaemon], [startHarvester] and [createPlot]
    spawns exactly one process: the command is [./] followed by the base
    name of the binary path, the working directory is the directory of the
    binary path, and the arguments are [--root-path], the root directory and
    then the subcommand's own words. The child spawned becomes the tracked
    process, and the operation is fulfilled exactly when the first signal of
    that child is a close with code 0 (it stays pending while the child
    emits nothing). *)
Theorem operations_spawn_contract (H : Host) (p : PlotParams) (s : State H Chia) :
  let c := this s in
  let command := "./" ++ basename H (binaryPath c) in
  let cwd := dirname H (binaryPath c) in
  let runs (op : M H Chia Promise) (words : list Arg) :=
    let args := AStr "--root-path" :: AStr (rootDirectory c) :: words in
    let child := fst (spawn H command args cwd (world s)) in
    op s = (Ok (promise (_closed child)),
            mkState (set_runningProcess c (Some child))
                    (snd (spawn H command args cwd (world s)))
                    (trace s ++ [EvSpawn command args cwd])%list) /\
    spawns (trace (snd (op s))) = (spawns (trace s) ++ [(command, args, cwd)])%list /\
    (promise (_closed child) = Fulfilled <->
       exists later, signals child = SigClose (Some 0%Z) :: later) /\
    (signals child = [] -> promise (_closed child) = Pending) in
  runs (Chia_init H) [AStr "init"] /\
  runs (startDaemon H) [AStr "run_daemon"] /\
  runs (startHarvester H) [AStr "start"; AStr "harvester"] /\
  exists words, runs (createPlot H p) (AStr "plots" :: AStr "create" :: words).
Proof.
  intros c command cwd runs.
  assert (Hruns : forall op words,
            op s = _spawnBinaryAndWaitForClose H
                     (AStr "--root-path" :: AStr (rootDirectory c) :: words) s ->
            runs op words).
  { intros op words Hop. unfold runs. cbv zeta.
    rewrite Hop, spawn_and_wait. fold c command cwd.
    split; [reflexivity |]. split.
    { simpl. rewrite spawns_app. reflexivity. }
    rewrite closed_outcome.
    destruct (signals (fst (spawn H command _ cwd (world s)))) as [| first later].
    - split; [| reflexivity]. split; [discriminate | intros [later E]; discriminate E].
    - split; [| discriminate]. split.
      + destruct first as [[[| n | n] |] | err]; simpl; intros E;
          try discriminate E. exists later. reflexivity.
      + intros [later' E]. inversion E. reflexivity. }
  split; [apply Hruns; reflexivity |].
  split; [apply Hruns; reflexivity |].
  split; [apply Hruns; reflexivity |].
  eexists. apply Hruns.
  unfold createPlot, bind, get_this. fold c.
  rewrite createPlot_args_spec. reflexivity.
Qed.

(** X2. The tracked process is set by every spawn and cleared by [kill]
    only. After an operation the tracked process is the child that
    operation's [spawn] returned; it is still tracked after the child has
    closed, so a later [kill] sends it a termination request, forgets it and
    waits its second all the same. A second operation replaces the tracked
    child by the child of its own [spawn]; [kill] then reaches the second
    child alone, and the first is never sent a request. A clone tracks
    nothing, so [kill] on it does nothing. *)
Theorem tracked_process_lifecycle (H : Host) (args1 args2 : list Arg) (s : State H Chia) :
  let command := "./" ++ basename H (binaryPath (this s)) in
  let cwd := dirname H (binaryPath (this s)) in
  let child1 := fst (spawn H command args1 cwd (world s)) in
  let child2 := fst (spawn H command args2 cwd
                       (snd (spawn H command args1 cwd (world s)))) in
  let s1 := snd (_spawnBinaryAndWaitForClose H args1 s) in
  let s2 := snd (_spawnBinaryAndWaitForClose H args2 s1) in
  runningProcess (this s1) = Some child1 /\
  fst (kill H s1) = Ok (Some 1000%Z) /\
  runningProcess (this (snd (kill H s1))) = None /\
  kills (trace (snd (kill H s1))) = (kills (trace s) ++ [pid child1])%list /\
  spawns (trace s2) =
    (spawns (trace s) ++ [(command, args1, cwd); (command, args2, cwd)])%list /\
  runningProcess (this s2) = Some child2 /\
  fst (_spawnBinaryAndWaitForClose H args2 s1) = Ok (promise (_closed child2)) /\
  kills (trace (snd (kill H s2))) = (kills (trace s) ++ [pid child2])%list /\
  kills (trace (snd (kill H (snd (kill H s2))))) = (kills (trace s) ++ [pid child2])%list /\
  kill H (mkState (clone (this s2)) (world s2) (trace s2))
    = (Ok None, mkState (clone (this s2)) (world s2) (trace s2)).
Proof.
  intros command cwd child1 child2 s1 s2. subst s2 s1 child2 child1 cwd command.
  rewrite !spawn_and_wait. simpl.
  split; [reflexivity |].
  split; [reflexivity |].
  split; [reflexivity |].
  unfold kill, bind, get_this, log, set_this, ret. simpl.
  rewrite <- !app_assoc. rewrite !kills_app, !spawns_app. simpl.
  repeat split; reflexivity.
Qed.

(* ================================================================== *)
(** ** More on the asset name patterns *)

Lemma string_app_assoc (a b c : string) : (a ++ b) ++ c = a ++ (b ++ c).
Proof. induction a as [| x a IH]; simpl; [reflexivity | now rewrite IH]. Qed.

Lemma literal_sound (lit s r : string) : literal lit s = Some r -> s = lit ++ r.
Proof.
  revert s. induction lit as [| a lit IH]; intros s E; simpl in *.
  - inversion E. reflexivity.
  - destruct s as [| b s]; [discriminate E |].
    destruct (Ascii.eqb_spec a b) as [-> | _]; [| discriminate E].
    rewrite (IH s E). reflexivity.
Qed.

Lemma literal_complete (lit r : string) : literal lit (lit ++ r) = Some r.
Proof.
  induction lit as [| a lit IH]; simpl; [reflexivity |].
  rewrite Ascii.eqb_refl. exact IH.
Qed.

Lemma digits_sound (s d r : string) :
  digits s = (d, r) -> s = d ++ r /\ all_digits d = true.
Proof.
  revert d r. induction s as [| c s IH]; intros d r E; simpl in E.
  - inversion E. auto.
  - destruct (is_digit c) eqn:Hc.
    + destruct (digits s) as [d' r'] eqn:Hd. inversion E; subst d r.
      destruct (IH d' r' eq_refl) as [-> Hall]. simpl. rewrite Hc. auto.
    + inversion E. auto.
Qed.

Lemma digits_complete (d r : string) :
  all_digits d = true ->
  match r with String c _ => is_digit c = false | EmptyString => True end ->
  digits (d ++ r) = (d, r).
Proof.
  intros Hall Hr. induction d as [| c d IH]; simpl in *.
  - destruct r as [| c r]; [reflexivity |]. simpl. rewrite Hr. reflexivity.
  - apply andb_prop in Hall. destruct Hall as [Hc Hall].
    rewrite Hc, (IH Hall). reflexivity.
Qed.

Lemma digits1_sound (s d r : string) :
  digits1 s = Some (d, r) -> s = d ++ r /\ digit_run d.
Proof.
  intros E. pose proof (digits1_nonempty s d r E) as Hne.
  unfold digits1 in E. destruct (digits s) as [d' r'] eqn:Hd.
  destruct d' as [| c d']; [discriminate E |]. inversion E; subst d r.
  destruct (digits_sound _ _ _ Hd) as [Hs Hall]. split; [exact Hs | split; assumption].
Qed.

Lemma digits1_complete (d r : string) :
  digit_run d ->
  match r with String c _ => is_digit c = false | EmptyString => True end ->
  digits1 (d ++ r) = Some (d, r).
Proof.
  intros [Hne Hall] Hr. unfold digits1. rewrite (digits_complete d r Hall Hr).
  destruct d; [contradiction | reflexivity].
Qed.

Lemma match_here_sound (tag s v : string) :
  match_here (BinaryZip tag) s = Some v ->
  exists ch post,
    version_shape v /\ is_line_terminator ch = false /\
    s = "chia-" ++ v ++ tag ++ String ch ("zip" ++ post).
Proof.
  unfold match_here, obind_opt. intros E.
  destruct (literal "chia-" s) as [s1 |] eqn:L1; [| discriminate E].
  destruct (digits1 s1) as [[major s2] |] eqn:D1; [| discriminate E].
  destruct (literal "." s2) as [s3 |] eqn:L2; [| discriminate E].
  destruct (digits1 s3) as [[minor s4] |] eqn:D2; [| discriminate E].
  destruct (literal "." s4) as [s5 |] eqn:L3; [| discriminate E].
  destruct (digits1 s5) as [[patch s6] |] eqn:D3; [| discriminate E].
  destruct (literal tag s6) as [s7 |] eqn:L4; [| discriminate E].
  destruct (any_char s7) as [s8 |] eqn:A; [| discriminate E].
  destruct (literal "zip" s8) as [post |] eqn:L5; [| discriminate E].
  inversion E; subst v. clear E.
  apply literal_sound in L1, L2, L3, L4, L5.
  apply digits1_sound in D1, D2, D3.
  destruct D1 as [E1 R1], D2 as [E2 R2], D3 as [E3 R3].
  unfold any_char in A. destruct s7 as [| ch s7']; [discriminate A |].
  destruct (is_line_terminator ch) eqn:T; [discriminate A |]. inversion A; subst s7'.
  exists ch, post. split; [exists major, minor, patch; auto |]. split; [exact T |].
  subst. simpl. rewrite !string_app_assoc. simpl. rewrite !string_app_assoc.
  reflexivity.
Qed.

Lemma match_here_complete (tag v post : string) (c : ascii) :
  tag_after_digits tag = true -> version_shape v -> is_line_terminator c = false ->
  match_here (BinaryZip tag) ("chia-" ++ v ++ tag ++ String c ("zip" ++ post)) = Some v.
Proof.
  intros Htag (major & minor & patch & R1 & R2 & R3 & ->) Hc.
  unfold match_here, obind_opt.
  rewrite literal_complete.
  rewrite !string_app_assoc.
  rewrite (digits1_complete major _ R1); [| simpl; reflexivity].
  rewrite (literal_complete "." _).
  rewrite (digits1_complete minor _ R2); [| simpl; reflexivity].
  rewrite (literal_complete "." _).
  rewrite (digits1_complete patch _ R3).
  2:{ destruct tag as [| t tag']; [discriminate Htag |]. simpl in *.
      destruct (is_digit t); [discriminate Htag | reflexivity]. }
  rewrite literal_complete. simpl. rewrite Hc. reflexivity.
Qed.

Lemma regex_match_unfold (re : Regex) (s : string) :
  regex_match re s =
    match match_here re s with
    | Some v => Some v
    | None => match s with
              | String _ t => regex_match re t
              | EmptyString => None
              end
    end.
Proof. destruct s; reflexivity. Qed.

Lemma regex_match_sound (tag name v : string) :
  regex_match (BinaryZip tag) name = Some v -> holds_binary_zip tag v name.
Proof.
  induction name as [| c name IH]; rewrite regex_match_unfold; intros E.
  - destruct (match_here (BinaryZip tag) "") as [v' |] eqn:M; [| discriminate E].
    inversion E; subst v'. apply match_here_sound in M.
    destruct M as (ch & post & Hv & Hch & Hs). exists "", ch, post. auto.
  - destruct (match_here (BinaryZip tag) (String c name)) as [v' |] eqn:M.
    + inversion E; subst v'. apply match_here_sound in M.
      destruct M as (ch & post & Hv & Hch & Hs). exists "", ch, post. auto.
    + destruct (IH E) as (pre & ch & post & Hv & Hch & Hs).
      exists (String c pre), ch, post. rewrite Hs. auto.
Qed.

Lemma regex_match_complete (tag name v : string) :
  tag_after_digits tag = true ->
  holds_binary_zip tag v name -> exists v', regex_match (BinaryZip tag) name = Some v'.
Proof.
  intros Htag (pre & ch & post & Hv & Hch & ->).
  pose proof (match_here_complete tag v post ch Htag Hv Hch) as Hhere.
  set (rest := "chia-" ++ v ++ tag ++ String ch ("zip" ++ post)) in *.
  induction pre as [| c pre IH]; rewrite regex_match_unfold.
  - change ("" ++ rest) with rest. rewrite Hhere. exists v. reflexivity.
  - destruct (match_here (BinaryZip tag) (String c pre ++ rest)) as [v' |];
      [exists v'; reflexivity |].
    exact IH.
Qed.

Lemma platform_tags (H : Host) (re : Regex) :
  _binaryZipRegex H = Ok re ->
  exists tag, re = BinaryZip tag /\ tag_after_digits tag = true /\
    ((platform H = "win32" /\ tag = "-win") \/ (platform H = "linux" /\ tag = "-linux")).
Proof.
  unfold _binaryZipRegex.
  destruct (String.eqb_spec (platform H) "win32") as [Ew | _].
  - intros E; inversion E. exists "-win". auto.
  - destruct (String.eqb_spec (platform H) "linux") as [El | _]; [| discriminate].
    intros E; inversion E. exists "-linux". auto.
Qed.

(** X3. The matcher agrees with the regular expressions of
    [_binaryZipRegex]. A name matches exactly when it holds, anywhere,
    [chia-], three dot-separated runs of digits, the platform tag, one
    character that is no line terminator, and [zip]; the version captured is
    such a triple found in the name; and on a name that starts with that
    pattern the capture is the triple it starts with. *)
Theorem pattern_describes_names (H : Host) (re : Regex) (name : string) :
  _binaryZipRegex H = Ok re ->
  exists tag, re = BinaryZip tag /\
    (forall v, regex_match re name = Some v -> holds_binary_zip tag v name) /\
    ((exists v, holds_binary_zip tag v name) -> exists v', regex_match re name = Some v') /\
    (forall v c post, version_shape v -> is_line_terminator c = false ->
       regex_match re ("chia-" ++ v ++ tag ++ String c ("zip" ++ post)) = Some v).
Proof.
  intros Hre. destruct (platform_tags H re Hre) as (tag & -> & Htag & _).
  exists tag. split; [reflexivity |]. split; [| split].
  - intros v. apply regex_match_sound.
  - intros [v Hv]. exact (regex_match_complete tag name v Htag Hv).
  - intros v c post Hv Hc. rewrite regex_match_unfold.
    rewrite (match_here_complete tag v post c Htag Hv Hc). reflexivity.
Qed.

(** The characters of a version. *)
Lemma chars_app (a b : string) : chars (a ++ b) = (chars a ++ chars b)%list.
Proof. induction a as [| c a IH]; simpl; [reflexivity | now rewrite IH]. Qed.

Lemma all_digits_chars (d : string) (c : ascii) :
  all_digits d = true -> In c (chars d) -> is_digit c = true.
Proof.
  induction d as [| x d IH]; simpl; intros Hall Hin; [destruct Hin |].
  apply andb_prop in Hall. destruct Hall as [Hx Hall].
  destruct Hin as [<- | Hin]; [exact Hx | exact (IH Hall Hin)].
Qed.

Lemma in_chars_app (a b : string) (c : ascii) :
  In c (chars (a ++ b)) -> In c (chars a) \/ In c (chars b).
Proof. rewrite chars_app. apply in_app_or. Qed.

Lemma version_shape_chars (v : string) (c : ascii) :
  version_shape v -> In c (chars v) -> is_digit c = true \/ c = "."%char.
Proof.
  intros (major & minor & patch & [_ H1] & [_ H2] & [_ H3] & ->) Hin.
  apply in_chars_app in Hin. destruct Hin as [Hin | Hin];
    [left; exact (all_digits_chars major c H1 Hin) |].
  apply in_chars_app in Hin. destruct Hin as [[<- | []] | Hin]; [right; reflexivity |].
  apply in_chars_app in Hin. destruct Hin as [Hin | Hin];
    [left; exact (all_digits_chars minor c H2 Hin) |].
  apply in_chars_app in Hin. destruct Hin as [[<- | []] | Hin]; [right; reflexivity |].
  left; exact (all_digits_chars patch c H3 Hin).
Qed.

(** X4. On a supported platform the download URL of a version is the
    address of the [binaries] release of the repository followed by the file
    name [chia-<version><tag>.zip], where the tag is the platform's
    ([-win] on win32, [-linux] on linux). That file name holds no slash, so
    it is the last segment of the URL; the platform's own pattern matches
    it, and the capture is that version: a release named as the download URL
    expects is found by the lookup under the version it is downloaded
    by. *)
Theorem download_name_round_trip (H : Host) (re : Regex) (v : string) :
  _binaryZipRegex H = Ok re -> version_shape v ->
  exists tag,
    re = BinaryZip tag /\
    ((platform H = "win32" /\ tag = "-win") \/ (platform H = "linux" /\ tag = "-linux")) /\
    _getDownloadUrl H (Some v) =
      Ok ("https://github.com/felixbrucker/chia-binary-manager/releases/download/binaries/"
          ++ ("chia-" ++ v ++ tag ++ ".zip")) /\
    (forall c, In c (chars ("chia-" ++ v ++ tag ++ ".zip")) -> c <> "/"%char) /\
    regex_match re ("chia-" ++ v ++ tag ++ ".zip") = Some v /\
    set_version H (mkAsset ("chia-" ++ v ++ tag ++ ".zip") None)
      = Ok (mkAsset ("chia-" ++ v ++ tag ++ ".zip") (Some v)).
Proof.
  intros Hre Hv.
  destruct (platform_tags H re Hre) as (tag & -> & Htag & Hplat).
  exists tag.
  assert (Hm : regex_match (BinaryZip tag) ("chia-" ++ v ++ tag ++ ".zip") = Some v).
  { pose proof (match_here_complete tag v "" "."%char Htag Hv eq_refl) as Hhere.
    change ("zip" ++ "") with "zip" in Hhere.
    rewrite regex_match_unfold, Hhere. reflexivity. }
  split; [reflexivity |]. split; [exact Hplat |]. split; [| split; [| split]].
  - unfold _getDownloadUrl.
    destruct Hplat as [[Ep ->] | [Ep ->]]; rewrite Ep; reflexivity.
  - intros c Hc.
    change ("chia-" ++ v ++ tag ++ ".zip")
      with ("chia-" ++ (v ++ (tag ++ ".zip"))) in Hc.
    rewrite !chars_app in Hc. rewrite !in_app_iff in Hc.
    destruct Hc as [Hc | [Hc | Hc]].
    + simpl in Hc. intros ->. intuition discriminate.
    + intros ->. destruct (version_shape_chars v "/"%char Hv Hc) as [D | D];
        discriminate D.
    + intros ->.
      destruct Hplat as [[_ ->] | [_ ->]]; simpl in Hc; intuition discriminate.
  - exact Hm.
  - unfold set_version. rewrite Hre. unfold obind. cbn [name]. rewrite Hm. reflexivity.
Qed.

(* ================================================================== *)
(** ** More on the release lookup *)

(** The [reduce] gives one of the assets it went through, or what it
    started from. *)
Lemma reduce_member (H : Host) (l : list Asset) :
  forall acc b, oreduce (keep_latest H) l acc = Ok (Some b) -> In b l \/ acc = Some b.
Proof.
  induction l as [| c t IH]; intros acc b E.
  - simpl in E. inversion E. right; reflexivity.
  - change (obind (keep_latest H acc c)
                  (fun acc' => oreduce (keep_latest H) t acc') = Ok (Some b)) in E.
    destruct (keep_latest H acc c) as [acc' |] eqn:K; [| discriminate E].
    simpl in E. destruct (IH acc' b E) as [Hin | ->]; [left; right; exact Hin |].
    unfold keep_latest in K. destruct acc as [a |].
    + destruct (semver_gte H (version a) (version c)) as [[|] |]; simpl in K;
        inversion K; subst; [right; reflexivity | left; left; reflexivity].
    + inversion K. left; left; reflexivity.
Qed.

(** X5. On a feed whose assets have no [version] property of their own, the
    version of the asset the lookup returns is three dot-separated runs of
    digits captured from that asset's name: it holds nothing but digits and
    dots (no path separator, no space), whatever the asset names are. *)
Theorem fetched_version_is_plain (H : Host) (re : Regex) (s : State H BinaryManager)
    (data : Feed) (w' : World H) :
  _binaryZipRegex H = Ok re ->
  axios_get H releaseUrl (world s) = (Ok data, w') ->
  (forall a, In a (assets data) -> regex_match re (name a) = None ->
             truthy (version a) = false) ->
  forall r, fst (_getLatestRelease H s) = Ok (Some r) ->
    exists v, version r = Some v /\ version_shape v /\
      regex_match re (name r) = Some v /\
      (forall c, In c (chars v) -> is_digit c = true \/ c = "."%char).
Proof.
  intros Hre Hget Hown r Hr.
  rewrite getLatestRelease_unfold, Hget in Hr. simpl in Hr.
  rewrite (latest_of_candidates H re _ Hre) in Hr.
  destruct (reduce_member H _ None r Hr) as [Hin | Hnone]; [| discriminate Hnone].
  destruct (candidate_origin re _ r Hin) as (a & Ha & [(v & Hm & ->) | (Hm & -> & Ht)]).
  - exists v. split; [reflexivity |].
    destruct (platform_tags H re Hre) as (tag & -> & _ & _).
    destruct (regex_match_sound tag _ v Hm) as (pre & ch & post & Hv & _ & _).
    split; [exact Hv |]. split; [exact Hm |].
    intros c. apply version_shape_chars; exact Hv.
  - rewrite (Hown a Ha Hm) in Ht. discriminate Ht.
Qed.

Section FirstGreatest.
Variable H : Host.
Hypothesis laws : SemverLaws H.

Lemma greater_at_least (u v w : option string) :
  greater H u v -> at_least H v w -> greater H u w.
Proof.
  intros (x & y & -> & -> & Vx & Vy & Hxy) (y' & z & Ey & -> & _ & Vz & Hyz).
  inversion Ey; subst y'. exists x, z. repeat split; auto.
  destruct (semver_compare H x z) eqn:Hxz; [| | reflexivity]; exfalso.
  - assert (Hzy : semver_compare H z y <> Gt).
    { rewrite (semver_antisym laws y z Vy Vz).
      destruct (semver_compare H y z); simpl; congruence. }
    assert (Hxz' : semver_compare H x z <> Gt) by (rewrite Hxz; discriminate).
    exact (semver_trans laws x z y Vx Vz Vy Hxz' Hzy Hxy).
  - assert (Hzy : semver_compare H z y <> Gt).
    { rewrite (semver_antisym laws y z Vy Vz).
      destruct (semver_compare H y z); simpl; congruence. }
    assert (Hxz' : semver_compare H x z <> Gt) by (rewrite Hxz; discriminate).
    exact (semver_trans laws x z y Vx Vz Vy Hxz' Hzy Hxy).
Qed.

Lemma greater_trans (u v w : option string) :
  greater H u v -> greater H v w -> greater H u w.
Proof.
  intros Huv (y & z & Ey & Ez & Vy & Vz & Hyz).
  apply (greater_at_least u v w Huv).
  exists y, z. repeat split; auto. rewrite Hyz. discriminate.
Qed.

(** One step of the [reduce], with the tie: the accumulator is kept unless
    the current asset is strictly greater. *)
Lemma keep_latest_tie (a c : Asset) (r : option Asset) :
  keep_latest H (Some a) c = Ok r ->
  (r = Some a /\ at_least H (version a) (version c)) \/
  (r = Some c /\ greater H (version c) (version a)).
Proof.
  unfold keep_latest, obind. intros E.
  destruct (semver_gte H (version a) (version c)) as [b |] eqn:G; [| discriminate E].
  apply (semver_gte_returns H) in G. destruct G as (x & y & Ea & Ec & Vx & Vy & Hb).
  inversion E; subst r. rewrite Ea, Ec.
  destruct (semver_compare H x y) eqn:C; subst b.
  - left. split; [reflexivity |]. exists x, y. repeat split; auto. congruence.
  - right. split; [reflexivity |]. exists y, x. repeat split; auto.
    rewrite (semver_antisym laws x y Vx Vy), C. reflexivity.
  - left. split; [reflexivity |]. exists x, y. repeat split; auto. congruence.
Qed.

(** The [reduce] from a first asset on keeps the first of the greatest:
    what comes before the result is strictly smaller, what comes after is
    not greater. *)
Lemma reduce_first_greatest (l : list Asset) :
  forall a b, oreduce (keep_latest H) l (Some a) = Ok (Some b) ->
  exists before after,
    a :: l = (before ++ b :: after)%list /\
    (forall x, In x before -> greater H (version b) (version x)) /\
    (forall x, In x after -> at_least H (version b) (version x)).
Proof.
  induction l as [| c t IH]; intros a b E.
  - simpl in E. inversion E; subst b. exists [], []. simpl.
    repeat split; intros x [].
  - change (obind (keep_latest H (Some a) c)
                  (fun acc' => oreduce (keep_latest H) t acc') = Ok (Some b)) in E.
    destruct (keep_latest H (Some a) c) as [r |] eqn:K; [| discriminate E].
    simpl in E. destruct (keep_latest_tie a c r K) as [[-> Hac] | [-> Hca]].
    + destruct (IH a b E) as (before & after & Hsplit & Hbefore & Hafter).
      destruct before as [| a' before].
      * simpl in Hsplit. inversion Hsplit; subst b after.
        exists [], (c :: t). simpl. split; [reflexivity |].
        split; [intros x [] |].
        intros x [<- | Hx]; [exact Hac | apply Hafter; exact Hx].
      * simpl in Hsplit. inversion Hsplit; subst a' t.
        exists (a :: c :: before), after. split; [reflexivity |]. split.
        -- intros x [<- | [<- | Hx]].
           ++ apply Hbefore. left; reflexivity.
           ++ apply (greater_at_least _ (version a)); [| exact Hac].
              apply Hbefore. left; reflexivity.
           ++ apply Hbefore. right; exact Hx.
        -- exact Hafter.
    + destruct (IH c b E) as (before & after & Hsplit & Hbefore & Hafter).
      destruct before as [| c' before].
      * simpl in Hsplit. inversion Hsplit; subst b after.
        exists [a], t. split; [reflexivity |]. split.
        -- intros x [<- | []]. exact Hca.
        -- exact Hafter.
      * simpl in Hsplit. inversion Hsplit; subst c' t.
        exists (a :: c :: before), after. split; [reflexivity |]. split.
        -- intros x [<- | [<- | Hx]].
           ++ apply (greater_trans _ (version c)); [| exact Hca].
              apply Hbefore. left; reflexivity.
           ++ apply Hbefore. left; reflexivity.
           ++ apply Hbefore. right; exact Hx.
        -- exact Hafter.
Qed.
End FirstGreatest.

(** X6. Ties and order. The asset the lookup returns is the first of the
    greatest candidates in feed order: every candidate that comes before it
    has a strictly smaller version, and no candidate that comes after it has
    a greater one. So of two candidates with equal versions the earlier one
    is returned. *)
Theorem lookup_keeps_first_greatest (H : Host) (laws : SemverLaws H) (re : Regex)
    (s : State H BinaryManager) (data : Feed) (w' : World H) :
  _binaryZipRegex H = Ok re ->
  axios_get H releaseUrl (world s) = (Ok data, w') ->
  forall r, fst (_getLatestRelease H s) = Ok (Some r) ->
    exists before after,
      candidates re (assets data) = (before ++ r :: after)%list /\
      (forall x, In x before -> greater H (version r) (version x)) /\
      (forall x, In x after -> at_least H (version r) (version x)).
Proof.
  intros Hre Hget r Hr.
  rewrite getLatestRelease_unfold, Hget in Hr. simpl in Hr.
  rewrite (latest_of_candidates H re _ Hre) in Hr.
  destruct (candidates re (assets data)) as [| a l]; [discriminate Hr |].
  simpl in Hr. exact (reduce_first_greatest H laws l a r Hr).
Qed.

Lemma semver_gte_invalid (H : Host) (a b : option string) :
  valid_version H a = false \/ valid_version H b = false ->
  exists msg, semver_gte H a b = Throw (TypeError msg).
Proof.
  unfold semver_gte, semver_check, valid_version, obind. intros Hbad.
  destruct a as [x |]; [| eexists; reflexivity].
  destruct (semver_valid H x); [| eexists; reflexivity].
  destruct Hbad as [Hbad | Hbad]; [discriminate Hbad |].
  destruct b as [y |]; [| eexists; reflexivity].
  rewrite Hbad. eexists; reflexivity.
Qed.

(** As soon as the [reduce] compares, one version [semver] refuses makes it
    throw. *)
Lemma reduce_invalid (H : Host) (l : list Asset) :
  forall a x, l <> [] -> In x (a :: l) -> valid_version H (version x) = false ->
  exists msg, oreduce (keep_latest H) l (Some a) = Throw (TypeError msg).
Proof.
  induction l as [| c t IH]; intros a x Hne Hin Hbad; [contradiction |].
  change (oreduce (keep_latest H) (c :: t) (Some a))
    with (obind (keep_latest H (Some a) c)
                (fun acc' => oreduce (keep_latest H) t acc')).
  unfold keep_latest at 1.
  destruct (valid_version H (version a)) eqn:Va.
  2:{ destruct (semver_gte_invalid H (version a) (version c) (or_introl Va)) as [msg ->].
      exists msg. reflexivity. }
  destruct (valid_version H (version c)) eqn:Vc.
  2:{ destruct (semver_gte_invalid H (version a) (version c) (or_intror Vc)) as [msg ->].
      exists msg. reflexivity. }
  destruct Hin as [<- | [<- | Hin]]; [congruence | congruence |].
  assert (Hne' : t <> []) by (destruct t; [destruct Hin | discriminate]).
  destruct (semver_gte H (version a) (version c)) as [[|] | e] eqn:G; simpl.
  - apply (IH a x Hne'); [right; exact Hin | exact Hbad].
  - apply (IH c x Hne'); [right; exact Hin | exact Hbad].
  - exfalso. unfold semver_gte, semver_check, valid_version, obind in G, Va, Vc.
    destruct (version a) as [va |]; [| discriminate Va]. rewrite Va in G.
    destruct (version c) as [vc |]; [| discriminate Vc]. rewrite Vc in G.
    discriminate G.
Qed.

(** X7. [semver] is consulted only when two candidates are compared. A
    feed with a single candidate gives that candidate back without its
    version ever being checked; with two candidates or more, a single
    version [semver] refuses makes the lookup throw a TypeError, so a lookup
    that returns has only seen valid versions. *)
Theorem lookup_validates_when_comparing (H : Host) (re : Regex)
    (s : State H BinaryManager) (data : Feed) (w' : World H) :
  _binaryZipRegex H = Ok re ->
  axios_get H releaseUrl (world s) = (Ok data, w') ->
  (forall a, candidates re (assets data) = [a] ->
     fst (_getLatestRelease H s) = Ok (Some a)) /\
  (forall x, 2 <= List.length (candidates re (assets data)) ->
     In x (candidates re (assets data)) -> valid_version H (version x) = false ->
     exists msg, fst (_getLatestRelease H s) = Throw (TypeError msg)) /\
  (forall r, 2 <= List.length (candidates re (assets data)) ->
     fst (_getLatestRelease H s) = Ok r ->
     forall x, In x (candidates re (assets data)) -> valid_version H (version x) = true).
Proof.
  intros Hre Hget.
  assert (Hrun : fst (_getLatestRelease H s) =
                 oreduce (keep_latest H) (candidates re (assets data)) None).
  { rewrite getLatestRelease_unfold, Hget. simpl.
    apply latest_of_candidates; exact Hre. }
  assert (Hthrows : forall x, 2 <= List.length (candidates re (assets data)) ->
            In x (candidates re (assets data)) -> valid_version H (version x) = false ->
            exists msg, fst (_getLatestRelease H s) = Throw (TypeError msg)).
  { intros x Hlen Hin Hbad. rewrite Hrun.
    destruct (candidates re (assets data)) as [| a [| c t]]; simpl in Hlen; try lia.
    apply (reduce_invalid H (c :: t) a x); [discriminate | exact Hin | exact Hbad]. }
  split; [| split].
  - intros a Hone. rewrite Hrun, Hone. reflexivity.
  - exact Hthrows.
  - intros r Hlen Hr x Hin.
    destruct (valid_version H (version x)) eqn:V; [reflexivity |].
    destruct (Hthrows x Hlen Hin V) as [msg Hmsg]. rewrite Hmsg in Hr. discriminate Hr.
Qed.

(** X8. Whatever the platform, the feed and the outcome, one lookup makes
    exactly one request, to the fixed release URL, and nothing else: no
    download, no extraction, no change to the manager object. A failed
    request is passed on as it is. *)
Theorem lookup_makes_one_request (H : Host) (s : State H BinaryManager) :
  let s' := snd (_getLatestRelease H s) in
  trace s' = (trace s ++ [EvHttpGet releaseUrl])%list /\
  world s' = snd (axios_get H releaseUrl (world s)) /\
  this s' = this s /\
  downloads (trace s') = downloads (trace s) /\
  extractions (trace s') = extractions (trace s) /\
  (forall e, fst (axios_get H releaseUrl (world s)) = Throw e ->
     fst (_getLatestRelease H s) = Throw e) /\
  (forall data, fst (axios_get H releaseUrl (world s)) = Ok data ->
     fst (_getLatestRelease H s) = latest_of H (assets data)).
Proof.
  intro s'. subst s'. rewrite getLatestRelease_unfold.
  destruct (fst (axios_get H releaseUrl (world s))) as [data | e]; simpl;
    rewrite downloads_app, extractions_app; simpl;
    repeat split; try lia; try congruence;
    intros; discriminate.
Qed.

(* ================================================================== *)
(** ** More on binary acquisition *)

(** However a download ends, what it has done is a beginning of the
    sequence of [download_steps]; all of it when it returns. *)
Lemma downloadBinary_steps (H : Host) (v : string) (s s1 : State H BinaryManager)
    (r : Outcome unit) :
  _downloadBinary H (Some v) s = (r, s1) ->
  this s1 = this s /\
  exists n, trace s1 = (trace s ++ firstn n (download_steps H (this s) v))%list /\
    1 <= n /\
    ((exists u, r = Ok u) ->
       exists url, _getDownloadUrl H (Some v) = Ok url /\ n = 5).
Proof.
  unfold _downloadBinary, _getBinaryDirectory, path_join, download_steps. unfold_run.
  simpl. intros E.
  destruct (mkdirp_sync H _ (world s)) as [[u1 | e1] w1]; simpl in E.
  2:{ inversion E; subst. simpl. split; [reflexivity |]. exists 1. simpl.
      split; [reflexivity |]. split; [lia |]. intros [u Hu]; discriminate Hu. }
  destruct (_getDownloadUrl H (Some v)) as [url | e2]; simpl in E.
  2:{ inversion E; subst. simpl. split; [reflexivity |]. exists 1. simpl.
      split; [reflexivity |]. split; [lia |]. intros [u Hu]; discriminate Hu. }
  destruct (axios_get_stream H url w1) as [[res | e3] w2]; simpl in E.
  2:{ inversion E; subst. simpl. split; [reflexivity |]. exists 2. simpl.
      rewrite <- app_assoc. split; [reflexivity |]. split; [lia |].
      intros [u Hu]; discriminate Hu. }
  destruct (write_stream H res _ w2) as [[u4 | e4] w3]; simpl in E.
  2:{ inversion E; subst. simpl. split; [reflexivity |]. exists 3. simpl.
      rewrite <- !app_assoc. split; [reflexivity |]. split; [lia |].
      intros [u Hu]; discriminate Hu. }
  destruct (decompress H _ _ w3)
    as [[u5 | e5] w4]; simpl in E.
  2:{ inversion E; subst. simpl. split; [reflexivity |]. exists 4. simpl.
      rewrite <- !app_assoc. split; [reflexivity |]. split; [lia |].
      intros [u Hu]; discriminate Hu. }
  destruct (unlink H _ w4) as [r6 w5]; simpl in E.
  inversion E; subst. simpl. split; [reflexivity |]. exists 5. simpl.
  rewrite <- !app_assoc. split; [reflexivity |]. split; [lia |].
  intros _. exists url. auto.
Qed.

Lemma feed_requests_app (a b : list Event) :
  feed_requests (a ++ b) = feed_requests a + feed_requests b.
Proof.
  induction a as [| ev a IH]; simpl; [reflexivity |].
  destruct ev; simpl; rewrite IH; reflexivity.
Qed.

Lemma downloads_firstn (n : nat) (l : list Event) :
  downloads (firstn n l) <= downloads l.
Proof.
  revert n. induction l as [| ev l IH]; intros [| n]; simpl; try lia.
  specialize (IH n). destruct ev; simpl; lia.
Qed.

Lemma extractions_firstn (n : nat) (l : list Event) :
  extractions (firstn n l) <= extractions l.
Proof.
  revert n. induction l as [| ev l IH]; intros [| n]; simpl; try lia.
  specialize (IH n). destruct ev; simpl; lia.
Qed.

Lemma feed_requests_firstn (n : nat) (l : list Event) :
  feed_requests (firstn n l) <= feed_requests l.
Proof.
  revert n. induction l as [| ev l IH]; intros [| n]; simpl; try lia.
  specialize (IH n). destruct ev; simpl; lia.
Qed.

Lemma in_firstn {A} (n : nat) (l : list A) (x : A) : In x (firstn n l) -> In x l.
Proof.
  revert n. induction l as [| y l IH]; intros [| n] Hin; simpl in *;
    try contradiction.
  destruct Hin as [E | Hin]; [left; exact E | right; exact (IH n Hin)].
Qed.

Lemma acquisition_steps_counts (H : Host) (m : BinaryManager) (v : string) :
  downloads (acquisition_steps H m v) <= 1 /\
  extractions (acquisition_steps H m v) <= 1 /\
  feed_requests (acquisition_steps H m v) = 0 /\
  (forall url, In (EvHttpGetStream url) (acquisition_steps H m v) ->
               _getDownloadUrl H (Some v) = Ok url).
Proof.
  unfold acquisition_steps, download_steps.
  destruct (_getDownloadUrl H (Some v)) as [url | e]; simpl.
  - repeat split; try lia.
    intros url' [E | [E | [E | [E | [E | [E | []]]]]]]; try discriminate E.
    inversion E. reflexivity.
  - repeat split; try lia. intros url' [E | [E | []]]; discriminate E.
Qed.

(** However an acquisition ends, what it has done is a beginning of the
    sequence of [acquisition_steps]. *)
Lemma ensureVersionExists_steps (H : Host) (v : string) (s s1 : State H BinaryManager)
    (r : Outcome unit) :
  _ensureVersionExists H (Some v) s = (r, s1) ->
  this s1 = this s /\
  exists n,
    trace s1 = (trace s ++ firstn n (acquisition_steps H (this s) v))%list /\
    (existsSync H (binary_path H (this s) v) (world s) = true ->
       n = 0 /\ r = Ok tt /\ s1 = s) /\
    (existsSync H (binary_path H (this s) v) (world s) = false ->
       1 <= n /\ (r = Ok tt -> n = 6)).
Proof.
  intros E.
  rewrite ensureVersionExists_unfold in E. cbv zeta in E.
  destruct (existsSync H (binary_path H (this s) v) (world s)) eqn:Hpresent.
  - inversion E; subst. split; [reflexivity |]. exists 0. simpl.
    rewrite app_nil_r. repeat split; auto; discriminate.
  - destruct (fst (mkdirp_sync H _ (world s))) as [u | e].
    + destruct (_downloadBinary H (Some v) _) as [r2 s2] eqn:Hdl.
      apply downloadBinary_steps in Hdl. simpl in Hdl.
      destruct Hdl as (Hthis & k & Htrace & Hk & Hall).
      assert (Hs1 : s1 = s2).
      { destruct r2 as [u' | e'].
        - destruct (existsSync H _ (world s2)); inversion E; reflexivity.
        - inversion E; reflexivity. }
      subst s2. split; [exact Hthis |]. exists (S k).
      split.
      { rewrite Htrace, <- app_assoc. reflexivity. }
      split; [discriminate |]. intros _. split; [lia |].
      intros Hok. destruct r2 as [u' | e'].
      * destruct Hall as (url & _ & ->); [exists u'; reflexivity | reflexivity].
      * subst r. inversion E.
    + inversion E; subst. split; [reflexivity |]. exists 1. simpl.
      repeat split; try discriminate; lia.
Qed.

(** An acquisition, however it ends and whatever it is given, makes at most
    one download and no request to the release feed. *)
Lemma ensureVersionExists_counts (H : Host) (v : option string)
    (s s1 : State H BinaryManager) (r : Outcome unit) :
  _ensureVersionExists H v s = (r, s1) ->
  downloads (trace s1) <= S (downloads (trace s)) /\
  extractions (trace s1) <= S (extractions (trace s)) /\
  feed_requests (trace s1) = feed_requests (trace s).
Proof.
  intros E. destruct v as [v |].
  - destruct (ensureVersionExists_steps H v s s1 r E) as (_ & n & Htrace & _).
    destruct (acquisition_steps_counts H (this s) v) as (Hd & He & Hf & _).
    pose proof (downloads_firstn n (acquisition_steps H (this s) v)) as Hdn.
    pose proof (extractions_firstn n (acquisition_steps H (this s) v)) as Hen.
    pose proof (feed_requests_firstn n (acquisition_steps H (this s) v)) as Hfn.
    rewrite Htrace, downloads_app, extractions_app, feed_requests_app. lia.
  - destruct (ensureVersionExists_undefined H s) as [msg Hmsg].
    rewrite Hmsg in E. inversion E; subst. lia.
Qed.

(** X9. However [_ensureVersionExists] ends, for a version string, what it
    has done is a beginning of one fixed sequence: create the version
    directory, create the scratch directory, request the archive from the
    platform's download URL for that version, write it to the scratch file,
    extract it into the version directory, unlink the scratch file. Nothing
    at all when the binary is already there, the whole sequence when the
    binary was absent and the call returns. So a call never makes more than
    one download or one extraction, never requests the release feed, never
    unlinks the scratch file before the extraction has returned, and leaves
    the manager object alone. *)
Theorem acquisition_effects (H : Host) (v : string) (s s1 : State H BinaryManager)
    (r : Outcome unit) :
  _ensureVersionExists H (Some v) s = (r, s1) ->
  this s1 = this s /\
  exists n,
    trace s1 = (trace s ++ firstn n (acquisition_steps H (this s) v))%list /\
    (existsSync H (binary_path H (this s) v) (world s) = true ->
       n = 0 /\ r = Ok tt /\ s1 = s) /\
    (existsSync H (binary_path H (this s) v) (world s) = false ->
       1 <= n /\ (r = Ok tt -> n = 6)) /\
    downloads (trace s1) <= S (downloads (trace s)) /\
    extractions (trace s1) <= S (extractions (trace s)) /\
    feed_requests (trace s1) = feed_requests (trace s) /\
    (forall url, In (EvHttpGetStream url) (firstn n (acquisition_steps H (this s) v)) ->
       _getDownloadUrl H (Some v) = Ok url).
Proof.
  intros E.
  destruct (ensureVersionExists_steps H v s s1 r E)
    as (Hthis & n & Htrace & Hpresent & Habsent).
  destruct (ensureVersionExists_counts H (Some v) s s1 r E) as (Hd & He & Hf).
  destruct (acquisition_steps_counts H (this s) v) as (_ & _ & _ & Hurl).
  split; [exact Hthis |]. exists n.
  repeat split; auto.
  - apply Hpresent; assumption.
  - apply Hpresent; assumption.
  - apply Hpresent; assumption.
  - apply Habsent; assumption.
  - apply Habsent; assumption.
  - intros url Hin. apply Hurl. exact (in_firstn n _ _ Hin).
Qed.

Lemma getDownloadUrl_unsupported (H : Host) (v : option string) :
  supported (platform H) = false ->
  _getDownloadUrl H v = Throw (UnsupportedPlatform (platform H)).
Proof.
  unfold supported, _getDownloadUrl.
  destruct (platform H =? "win32"); simpl; [discriminate |].
  destruct (platform H =? "linux"); simpl; [discriminate | reflexivity].
Qed.

Lemma downloadBinary_unsupported (H : Host) (v : string) (s : State H BinaryManager) :
  supported (platform H) = false ->
  _downloadBinary H (Some v) s =
    (match fst (mkdirp_sync H (temp_dir H) (world s)) with
     | Ok _ => Throw (UnsupportedPlatform (platform H))
     | Throw e => Throw e
     end,
     mkState (this s) (snd (mkdirp_sync H (temp_dir H) (world s)))
             (trace s ++ [EvMkdirp (temp_dir H)])%list).
Proof.
  intros Hp. unfold _downloadBinary, path_join. unfold_run. simpl.
  fold (temp_dir H).
  destruct (mkdirp_sync H (temp_dir H) (world s)) as [[u | e] w]; simpl;
    [| reflexivity].
  rewrite (getDownloadUrl_unsupported H (Some v) Hp). reflexivity.
Qed.

(** X10. On a platform without a download URL, a version that is already on
    disk is still served, without any effect. An absent one is never
    acquired: the call always throws and never requests an archive; when
    both directories can be created it has created the version directory
    and the scratch directory before it throws the unsupported-platform
    error. *)
Theorem acquisition_on_unsupported_platform (H : Host) (v : string)
    (s : State H BinaryManager) :
  supported (platform H) = false ->
  let dir := version_dir H (this s) v in
  let s1 := snd (_ensureVersionExists H (Some v) s) in
  (existsSync H (binary_path H (this s) v) (world s) = true ->
     _ensureVersionExists H (Some v) s = (Ok tt, s)) /\
  (existsSync H (binary_path H (this s) v) (world s) = false ->
     (exists e, fst (_ensureVersionExists H (Some v) s) = Throw e) /\
     downloads (trace s1) = downloads (trace s) /\
     (forall u u',
        fst (mkdirp_sync H dir (world s)) = Ok u ->
        fst (mkdirp_sync H (temp_dir H) (snd (mkdirp_sync H dir (world s)))) = Ok u' ->
        fst (_ensureVersionExists H (Some v) s) = Throw (UnsupportedPlatform (platform H)) /\
        trace s1 = (trace s ++ [EvMkdirp dir; EvMkdirp (temp_dir H)])%list)).
Proof.
  intros Hp dir s1. subst s1. rewrite ensureVersionExists_unfold. cbv zeta.
  fold (version_dir H (this s) v). fold dir.
  split.
  - intros ->. reflexivity.
  - intros ->. rewrite (downloadBinary_unsupported H v _ Hp). simpl.
    destruct (fst (mkdirp_sync H dir (world s))) as [u0 | e0] eqn:Hmk.
    + destruct (fst (mkdirp_sync H (temp_dir H) (snd (mkdirp_sync H dir (world s)))))
        as [u1 | e1] eqn:Hmk'; simpl.
      * split; [eexists; reflexivity |].
        rewrite <- app_assoc, downloads_app. simpl.
        split; [lia |]. intros _ _ _ _. split; reflexivity.
      * split; [eexists; reflexivity |].
        rewrite <- app_assoc, downloads_app. simpl.
        split; [lia |]. intros u u' _ Habs. discriminate Habs.
    + simpl. split; [eexists; reflexivity |].
      rewrite downloads_app. simpl. split; [lia |].
      intros u u' Habs. discriminate Habs.
Qed.

(** X11. The failure that names a missing binary. When the version
    directory can be created and the download returns, but the binary file
    is not where it is expected, the call throws the not-found error naming
    [<binaryDirectory>/<version>/<binaryName>]; by then one archive has been
    downloaded and extracted and the scratch file unlinked, and a further
    call starts the whole acquisition again. *)
Theorem missing_binary_after_download (H : Host) (v : string)
    (s s2 : State H BinaryManager) (u u' : unit) :
  let dir := version_dir H (this s) v in
  let path := binary_path H (this s) v in
  existsSync H path (world s) = false ->
  fst (mkdirp_sync H dir (world s)) = Ok u ->
  _downloadBinary H (Some v)
    (mkState (this s) (snd (mkdirp_sync H dir (world s)))
             (trace s ++ [EvMkdirp dir])%list) = (Ok u', s2) ->
  existsSync H path (world s2) = false ->
  _ensureVersionExists H (Some v) s = (Throw (BinaryNotFound path), s2) /\
  trace s2 = (trace s ++ acquisition_steps H (this s) v)%list /\
  downloads (trace s2) = S (downloads (trace s)) /\
  extractions (trace s2) = S (extractions (trace s)) /\
  exists n, 1 <= n /\
    trace (snd (_ensureVersionExists H (Some v) s2))
      = (trace s2 ++ firstn n (acquisition_steps H (this s) v))%list.
Proof.
  intros dir path Habsent Hmk Hdl Hstill.
  assert (Hrun : _ensureVersionExists H (Some v) s = (Throw (BinaryNotFound path), s2)).
  { rewrite ensureVersionExists_unfold. cbv zeta. fold path.
    fold (version_dir H (this s) v). fold dir.
    rewrite Habsent, Hmk, Hdl, Hstill. reflexivity. }
  split; [exact Hrun |].
  pose proof (downloadBinary_steps H v _ s2 (Ok u') Hdl) as (Hthis & k & Htrace & _ & Hall).
  destruct Hall as (url & Hurl & ->); [exists u'; reflexivity |].
  cbn [this trace world] in Hthis, Htrace.
  assert (Hfull : trace s2 = (trace s ++ acquisition_steps H (this s) v)%list).
  { rewrite Htrace, <- app_assoc. unfold acquisition_steps, download_steps.
    rewrite Hurl. reflexivity. }
  split; [exact Hfull |].
  split.
  { rewrite Hfull, downloads_app. unfold acquisition_steps, download_steps.
    rewrite Hurl. simpl. lia. }
  split.
  { rewrite Hfull, extractions_app. unfold acquisition_steps, download_steps.
    rewrite Hurl. simpl. lia. }
  destruct (_ensureVersionExists H (Some v) s2) as [r3 s3] eqn:Hagain.
  rewrite ensureVersionExists_unfold in Hagain. cbv zeta in Hagain.
  rewrite Hthis in Hagain. fold path in Hagain. rewrite Hstill in Hagain.
  fold (version_dir H (this s) v) in Hagain. fold dir in Hagain.
  destruct (fst (mkdirp_sync H dir (world s2))) as [u3 | e3].
  - destruct (_downloadBinary H (Some v)
                (mkState _ (snd (mkdirp_sync H dir (world s2))) _))
      as [r4 s4] eqn:Hdl2.
    apply downloadBinary_steps in Hdl2. cbn [this trace world] in Hdl2.
    destruct Hdl2 as (_ & k & Htrace2 & Hk & _).
    assert (Hs3 : s3 = s4).
    { destruct r4 as [u4 | e4].
      - destruct (existsSync H path (world s4)); inversion Hagain; reflexivity.
      - inversion Hagain; reflexivity. }
    subst s4. exists (S k). split; [lia |]. simpl.
    rewrite Htrace2, <- app_assoc. reflexivity.
  - inversion Hagain; subst. exists 1. split; [lia |]. reflexivity.
Qed.

(** One lookup: one request to the feed, no download. *)
Lemma lookup_counts (H : Host) (s : State H BinaryManager) :
  feed_requests (trace (snd (_getLatestRelease H s))) = S (feed_requests (trace s)) /\
  downloads (trace (snd (_getLatestRelease H s))) = downloads (trace s).
Proof.
  rewrite getLatestRelease_unfold.
  destruct (fst (axios_get H releaseUrl (world s))); simpl;
    rewrite feed_requests_app, downloads_app; simpl; lia.
Qed.

(* ================================================================== *)
(** ** More on the update poll *)

Lemma semver_lte_outcome (H : Host) (a b : option string) :
  match semver_lte H a b with
  | Ok _ => valid_version H a = true /\ valid_version H b = true
  | Throw e => (exists msg, e = TypeError msg) /\
               (valid_version H a = false \/ valid_version H b = false)
  end.
Proof.
  unfold semver_lte, semver_check, valid_version, obind.
  destruct a as [x |]; [| split; [eexists; reflexivity | left; reflexivity]].
  destruct (semver_valid H x); [| split; [eexists; reflexivity | left; reflexivity]].
  destruct b as [y |]; [| split; [eexists; reflexivity | right; reflexivity]].
  destruct (semver_valid H y); [| split; [eexists; reflexivity | right; reflexivity]].
  split; reflexivity.
Qed.

Lemma version_of_cached (m : BinaryManager) :
  match version_of (latestRelease m) with
  | Ok v => v = cached_version m
  | Throw e => (exists msg, e = TypeError msg) /\ cached_version m = None
  end.
Proof.
  unfold version_of, cached_version. destruct (latestRelease m); simpl;
    try reflexivity; split; try reflexivity; eexists; reflexivity.
Qed.

(** X12. A poll execution swallows every failure of the network, the disk
    and the archive. It throws in one case only, and then a TypeError: a
    release was fetched and either the cached version or the fetched one is
    not a version [semver] accepts (an absent cache included). Whenever that
    is the case it does throw, having done nothing but the lookup. *)
Theorem poll_throws_only_type_errors (H : Host) (s : State H BinaryManager) :
  let bad fetched :=
    valid_version H (version fetched) = false \/
    valid_version H (cached_version (this s)) = false in
  (fst (_updateLatestRelease H s) = Ok tt \/
   exists msg fetched,
     fst (_updateLatestRelease H s) = Throw (TypeError msg) /\
     fst (_getLatestRelease H s) = Ok (Some fetched) /\ bad fetched) /\
  (forall fetched, fst (_getLatestRelease H s) = Ok (Some fetched) -> bad fetched ->
     exists msg,
       _updateLatestRelease H s = (Throw (TypeError msg), snd (_getLatestRelease H s))).
Proof.
  intro bad. rewrite updateLatestRelease_unfold.
  destruct (_getLatestRelease H s) as [[[fetched |] | e] s1] eqn:Hfetch;
    try (split; [left; reflexivity | intros f Hf; discriminate Hf]).
  destruct (quiet_getLatestRelease H _ _ _ Hfetch) as [T1 _]. rewrite T1.
  pose proof (version_of_cached (this s)) as Hc.
  destruct (version_of (latestRelease (this s))) as [cached | e].
  - subst cached.
    pose proof (semver_lte_outcome H (version fetched) (cached_version (this s))) as Hl.
    destruct (semver_lte H (version fetched) (cached_version (this s))) as [[|] | e].
    + split; [left; reflexivity |]. intros f Hf [Hb | Hb]; inversion Hf; subst f;
        destruct Hl as [Va Vb]; congruence.
    + split.
      * left. destruct (_ensureVersionExists H (version fetched) s1) as [[u | e] s2];
          reflexivity.
      * intros f Hf [Hb | Hb]; inversion Hf; subst f;
          destruct Hl as [Va Vb]; congruence.
    + destruct Hl as [[msg ->] Hbad]. split.
      * right. exists msg, fetched. auto.
      * intros f Hf _. exists msg. reflexivity.
  - destruct Hc as [[msg ->] Hnone]. split.
    + right. exists msg, fetched. split; [reflexivity |]. split; [reflexivity |].
      right. rewrite Hnone. reflexivity.
    + intros f Hf _. exists msg. reflexivity.
Qed.

(** X13. A cache that holds no version [semver] accepts is never left: when
    [latestRelease] is unassigned or [null] (the lookup of [init] found
    nothing), or holds a version string [semver] refuses, no poll execution
    ever replaces it or emits a notification, whatever the feed offers. *)
Theorem poll_never_leaves_invalid_cache (H : Host) (s : State H BinaryManager)
    (between : list (World H -> World H)) :
  valid_version H (cached_version (this s)) = false ->
  this (polls H between s) = this s /\
  notifications (trace (polls H between s)) = notifications (trace s).
Proof.
  revert s. induction between as [| change rest IH]; intros s Hbad; simpl.
  - split; reflexivity.
  - set (s0 := mkState (this s) (change (world s)) (trace s)).
    assert (Hstep : this (snd (_updateLatestRelease H s0)) = this s /\
              notifications (trace (snd (_updateLatestRelease H s0)))
                = notifications (trace s)).
    { destruct (poll_cases H s0)
        as [[T N] | (f & v & cv & s1 & s2 & _ & _ & Ecv & _ & Vcv & _)].
      - split; assumption.
      - simpl in Ecv. rewrite Ecv in Hbad. simpl in Hbad. congruence. }
    destruct Hstep as [T N].
    destruct (IH (snd (_updateLatestRelease H s0))) as [T' N'].
    + rewrite T. exact Hbad.
    + split; congruence.
Qed.

(** X14. One poll execution makes exactly one request to the release feed
    and at most one download; it downloads only when the fetched version is
    a valid version strictly greater than the valid cached one. *)
Theorem poll_effects (H : Host) (s : State H BinaryManager) :
  let s' := snd (_updateLatestRelease H s) in
  feed_requests (trace s') = S (feed_requests (trace s)) /\
  downloads (trace s') <= S (downloads (trace s)) /\
  (downloads (trace s') <> downloads (trace s) ->
     exists fetched,
       fst (_getLatestRelease H s) = Ok (Some fetched) /\
       greater H (version fetched) (cached_version (this s))).
Proof.
  intro s'. subst s'. rewrite updateLatestRelease_unfold.
  pose proof (lookup_counts H s) as (Hf1 & Hd1).
  destruct (_getLatestRelease H s) as [[[fetched |] | e] s1] eqn:Hfetch;
    simpl in Hf1, Hd1; simpl;
    try (split; [exact Hf1 |]; split; [lia |]; intros Hne; exfalso; lia).
  destruct (quiet_getLatestRelease H _ _ _ Hfetch) as [T1 _]. rewrite T1.
  pose proof (version_of_cached (this s)) as Hc.
  destruct (version_of (latestRelease (this s))) as [cached | e]; simpl;
    [| split; [exact Hf1 |]; split; [lia |]; intros Hne; exfalso; lia].
  subst cached.
  destruct (semver_lte H (version fetched) (cached_version (this s)))
    as [[|] | e] eqn:Hlte; simpl;
    try (split; [exact Hf1 |]; split; [lia |]; intros Hne; exfalso; lia).
  destruct (_ensureVersionExists H (version fetched) s1) as [r2 s2] eqn:Hens.
  destruct (ensureVersionExists_counts H _ s1 s2 r2 Hens) as (Hd2 & _ & Hf2).
  apply semver_lte_false in Hlte.
  assert (Hgt : greater H (version fetched) (cached_version (this s))) by exact Hlte.
  destruct r2 as [u | e]; simpl.
  - rewrite feed_requests_app, downloads_app. simpl.
    split; [lia |]. split; [lia |]. intros _. exists fetched. auto.
  - split; [lia |]. split; [lia |]. intros _. exists fetched. auto.
Qed.

(** A poll execution only adds to the trace. *)
Lemma poll_trace_grows (H : Host) (s : State H BinaryManager) :
  exists evs, trace (snd (_updateLatestRelease H s)) = (trace s ++ evs)%list.
Proof.
  rewrite updateLatestRelease_unfold, getLatestRelease_unfold.
  assert (Hlook : exists evs,
            (trace s ++ [EvHttpGet releaseUrl])%list = (trace s ++ evs)%list)
    by (eexists; reflexivity).
  destruct (fst (axios_get H releaseUrl (world s))) as [data | e]; [| exact Hlook].
  destruct (latest_of H (assets data)) as [[fetched |] | e]; try exact Hlook.
  cbn [this].
  destruct (version_of (latestRelease (this s))) as [cached | e]; [| exact Hlook].
  destruct (semver_lte H (version fetched) cached) as [[|] | e]; try exact Hlook.
  destruct (_ensureVersionExists H (version fetched) _) as [r2 s2] eqn:Hens.
  assert (Hgrow : exists evs, trace s2 = ((trace s ++ [EvHttpGet releaseUrl]) ++ evs)%list).
  { destruct (version fetched) as [v |].
    - destruct (ensureVersionExists_steps H v _ s2 r2 Hens) as (_ & n & Htrace & _).
      eexists. exact Htrace.
    - destruct (ensureVersionExists_undefined H
                  (mkState (this s) (snd (axios_get H releaseUrl (world s)))
                           (trace s ++ [EvHttpGet releaseUrl])%list)) as [msg Hmsg].
      rewrite Hmsg in Hens. inversion Hens; subst. exists []. simpl.
      rewrite app_nil_r. reflexivity. }
  destruct Hgrow as [evs Hevs].
  destruct r2 as [u | e]; simpl; rewrite Hevs, <- ?app_assoc; eexists; reflexivity.
Qed.

(* ================================================================== *)
(** ** [init] of the manager, and what follows it *)

Lemma intervals_app (a b : list Event) : intervals (a ++ b) = intervals a + intervals b.
Proof.
  induction a as [| ev a IH]; simpl; [reflexivity |].
  destruct ev; simpl; rewrite IH; reflexivity.
Qed.

Lemma intervals_firstn (n : nat) (l : list Event) :
  intervals (firstn n l) <= intervals l.
Proof.
  revert n. induction l as [| ev l IH]; intros [| n]; simpl; try lia.
  specialize (IH n). destruct ev; simpl; lia.
Qed.

Lemma ensureVersionExists_intervals (H : Host) (v : option string)
    (s s1 : State H BinaryManager) (r : Outcome unit) :
  _ensureVersionExists H v s = (r, s1) -> intervals (trace s1) = intervals (trace s).
Proof.
  intros E. destruct v as [v |].
  - destruct (ensureVersionExists_steps H v s s1 r E) as (_ & n & Htrace & _).
    pose proof (intervals_firstn n (acquisition_steps H (this s) v)) as Hn.
    assert (Hzero : intervals (acquisition_steps H (this s) v) = 0).
    { unfold acquisition_steps, download_steps.
      destruct (_getDownloadUrl H (Some v)); reflexivity. }
    rewrite Htrace, intervals_app. lia.
  - destruct (ensureVersionExists_undefined H s) as [msg Hmsg].
    rewrite Hmsg in E. inversion E; subst. reflexivity.
Qed.

(** One poll execution: one request to the feed, no timer started, and a
    cache that was assigned stays assigned. *)
Lemma poll_requests_and_timers (H : Host) (s : State H BinaryManager) :
  feed_requests (trace (snd (_updateLatestRelease H s))) = S (feed_requests (trace s)) /\
  intervals (trace (snd (_updateLatestRelease H s))) = intervals (trace s) /\
  (latestRelease (this s) <> Undefined ->
   latestRelease (this (snd (_updateLatestRelease H s))) <> Undefined).
Proof.
  assert (Hcache : latestRelease (this s) <> Undefined ->
            latestRelease (this (snd (_updateLatestRelease H s))) <> Undefined).
  { intros Hdef.
    destruct (poll_cases H s) as [[T _] | (f & v & cv & s1 & s2 & _ & _ & _ & _ & _ & _ & _ & _ & Es' & _)].
    - rewrite T. exact Hdef.
    - rewrite Es'. simpl. discriminate. }
  split; [| split; [| exact Hcache]]; clear Hcache.
  - rewrite updateLatestRelease_unfold.
    pose proof (lookup_counts H s) as (Hf1 & _).
    destruct (_getLatestRelease H s) as [[[fetched |] | e] s1]; simpl in Hf1; simpl;
      try exact Hf1.
    destruct (version_of (latestRelease (this s1))) as [cached | e]; simpl;
      [| exact Hf1].
    destruct (semver_lte H (version fetched) cached) as [[|] | e]; simpl; try exact Hf1.
    destruct (_ensureVersionExists H (version fetched) s1) as [r2 s2] eqn:Hens.
    destruct (ensureVersionExists_counts H _ s1 s2 r2 Hens) as (_ & _ & Hf2).
    destruct r2 as [u | e]; simpl; [rewrite feed_requests_app; simpl |]; lia.
  - rewrite updateLatestRelease_unfold, getLatestRelease_unfold.
    assert (Hlook : forall o : Outcome (option Asset),
              intervals (trace s ++ [EvHttpGet releaseUrl]) = intervals (trace s)).
    { intros _. rewrite intervals_app. simpl. lia. }
    destruct (fst (axios_get H releaseUrl (world s))) as [data | e];
      [| simpl; apply Hlook; exact (Throw e)].
    destruct (latest_of H (assets data)) as [[fetched |] | e];
      try (simpl; apply Hlook; exact (Throw (HostError ""))).
    cbn [this].
    destruct (version_of (latestRelease (this s))) as [cached | e];
      [| simpl; apply Hlook; exact (Throw e)].
    destruct (semver_lte H (version fetched) cached) as [[|] | e];
      try (simpl; apply Hlook; exact (Throw (HostError ""))).
    destruct (_ensureVersionExists H (version fetched) _) as [r2 s2] eqn:Hens.
    apply ensureVersionExists_intervals in Hens. simpl in Hens.
    destruct r2 as [u | e]; simpl; [rewrite intervals_app; simpl |];
      rewrite Hens, (Hlook (Throw (HostError ""))); lia.
Qed.

(** X15. [init] creates the binary directory first and stops there when
    that fails. The poll timer is started at most once, and only after the
    first lookup has answered and its result has been cached: an [init]
    that leaves the cache unassigned has thrown and started no timer. An
    [init] that returns has assigned the cache (a release or [null]), has
    started the timer exactly when [notifyOnUpdate] is set, and has made two
    requests to the feed with the timer and one without. *)
Theorem init_outcome (H : Host) (s : State H BinaryManager) :
  let bd := binaryDirectory (this s) in
  let s' := snd (init H s) in
  (forall e, fst (mkdirp_sync H bd (world s)) = Throw e ->
     init H s = (Throw e, mkState (this s) (snd (mkdirp_sync H bd (world s)))
                                  (trace s ++ [EvMkdirp bd])%list)) /\
  (exists evs, trace s' = (trace s ++ EvMkdirp bd :: evs)%list) /\
  intervals (trace s') <= S (intervals (trace s)) /\
  (latestRelease (this s') = Undefined ->
     (exists e, fst (init H s) = Throw e) /\ intervals (trace s') = intervals (trace s)) /\
  (fst (init H s) = Ok tt ->
     latestRelease (this s') <> Undefined /\
     intervals (trace s') =
       (if notifyOnUpdate (this s) then 1 else 0) + intervals (trace s) /\
     feed_requests (trace s') =
       (if notifyOnUpdate (this s) then 2 else 1) + feed_requests (trace s)).
Proof.
  intros bd s'. subst s'. rewrite init_unfold. cbv zeta. fold bd.
  set (s0 := mkState (this s) (snd (mkdirp_sync H bd (world s)))
                     (trace s ++ [EvMkdirp bd])%list).
  assert (Hi0 : intervals (trace s0) = intervals (trace s)).
  { simpl. rewrite intervals_app. simpl. lia. }
  assert (Hf0 : feed_requests (trace s0) = feed_requests (trace s)).
  { simpl. rewrite feed_requests_app. simpl. lia. }
  destruct (fst (mkdirp_sync H bd (world s))) as [u | e].
  2:{ split; [intros e' E; inversion E; reflexivity |].
      split; [exists []; reflexivity |]. simpl snd. rewrite Hi0.
      split; [lia |]. split; [intros _; split; [eexists; reflexivity | reflexivity] |].
      simpl. intros E; discriminate E. }
  split; [intros e' E; discriminate E |].
  pose proof (lookup_counts H s0) as (Hf1 & _).
  pose proof (getLatestRelease_unfold H s0) as Hlook. cbv zeta in Hlook.
  destruct (_getLatestRelease H s0) as [[r | e] s1] eqn:Hfetch.
  2:{ destruct (quiet_getLatestRelease H _ _ _ Hfetch) as [T1 _].
      assert (Ht1 : trace s1 = (trace s0 ++ [EvHttpGet releaseUrl])%list).
      { destruct (fst (axios_get H releaseUrl (world s0))); inversion Hlook; reflexivity. }
      simpl snd. simpl fst.
      assert (Hi1 : intervals (trace s1) = intervals (trace s)).
      { rewrite Ht1, intervals_app, Hi0. simpl. lia. }
      split.
      { exists [EvHttpGet releaseUrl]. rewrite Ht1. simpl. rewrite <- app_assoc.
        reflexivity. }
      split; [lia |].
      split; [intros _; split; [eexists; reflexivity | exact Hi1] |].
      intros E; discriminate E. }
  destruct (quiet_getLatestRelease H _ _ _ Hfetch) as [T1 _].
  assert (Ht1 : trace s1 = (trace s0 ++ [EvHttpGet releaseUrl])%list).
  { destruct (fst (axios_get H releaseUrl (world s0))); inversion Hlook; reflexivity. }
  assert (Hi1 : intervals (trace s1) = intervals (trace s)).
  { rewrite Ht1, intervals_app, Hi0. simpl. lia. }
  cbn [snd] in Hf1. rewrite Hf0 in Hf1. rewrite T1. change (this s0) with (this s).
  set (cache := match r with Some a => Obj a | None => Null end).
  assert (Hcache : cache <> Undefined) by (subst cache; destruct r; discriminate).
  destruct (notifyOnUpdate (this s)).
  - set (s2 := mkState (set_latestRelease (this s) cache) (world s1)
                       (trace s1 ++ [EvSetInterval 900000])%list).
    destruct (poll_requests_and_timers H s2) as (Hf2 & Hi2 & Hc2).
    assert (Hi2' : intervals (trace s2) = S (intervals (trace s))).
    { simpl. rewrite intervals_app. simpl. lia. }
    assert (Hf2' : feed_requests (trace s2) = S (feed_requests (trace s))).
    { simpl. rewrite feed_requests_app. simpl. lia. }
    assert (Htr : exists evs,
              trace (snd (_updateLatestRelease H s2)) = (trace s2 ++ evs)%list).
    { destruct (poll_trace_grows H s2) as [evs Hevs]. exists evs. exact Hevs. }
    destruct Htr as [evs Hevs].
    split.
    { exists ([EvHttpGet releaseUrl; EvSetInterval 900000] ++ evs)%list.
      rewrite Hevs. simpl. rewrite Ht1. simpl. rewrite <- !app_assoc. reflexivity. }
    split; [lia |].
    split.
    { intros Habs. exfalso. apply (Hc2 Hcache). exact Habs. }
    intros _. split; [exact (Hc2 Hcache) |]. split; lia.
  - simpl snd. simpl fst. cbn [this trace].
    split.
    { exists [EvHttpGet releaseUrl]. rewrite Ht1. simpl. rewrite <- app_assoc.
      reflexivity. }
    split; [lia |].
    split.
    { intros Habs. simpl in Habs. contradiction. }
    intros _. split; [exact Hcache |]. split; lia.
Qed.

Lemma getConfiguredChia_default (H : Host) (s : State H BinaryManager) (a : Asset) :
  latestRelease (this s) = Obj a ->
  getConfiguredChia H None s =
    match version a with
    | Some v => getConfiguredChia H (Some v) s
    | None => (fst (getConfiguredChia H None s), s)
    end.
Proof.
  intros Hc. destruct (version a) as [v |] eqn:Hv.
  - unfold getConfiguredChia. unfold_run. rewrite Hc. simpl. rewrite Hv. reflexivity.
  - unfold getConfiguredChia, _getChiaBinaryPath. unfold_run. rewrite Hc. simpl.
    rewrite Hv.
    destruct (ensureVersionExists_undefined H s) as [msg ->]. reflexivity.
Qed.

(** X16. A manager initialised against a feed that holds no candidate for
    its platform ends with [null] cached, whether or not the timer is
    started; without the timer [init] returns normally. On that manager
    [getConfiguredChia] without a version throws a TypeError and does
    nothing else. *)
Theorem init_without_release (H : Host) (re : Regex) (s : State H BinaryManager)
    (data : Feed) (w1 : World H) (u : unit) :
  let bd := binaryDirectory (this s) in
  fst (mkdirp_sync H bd (world s)) = Ok u ->
  _binaryZipRegex H = Ok re ->
  axios_get H releaseUrl (snd (mkdirp_sync H bd (world s))) = (Ok data, w1) ->
  candidates re (assets data) = [] ->
  let s' := snd (init H s) in
  latestRelease (this s') = Null /\
  (notifyOnUpdate (this s) = false ->
     init H s = (Ok tt, mkState (set_latestRelease (this s) Null) w1
                                (trace s ++ [EvMkdirp bd; EvHttpGet releaseUrl])%list)) /\
  (exists msg, getConfiguredChia H None s' = (Throw (TypeError msg), s')).
Proof.
  intros bd Hmk Hre Hget Hnone s'.
  assert (Hnull : latestRelease (this s') = Null /\
            (notifyOnUpdate (this s) = false ->
             init H s = (Ok tt, mkState (set_latestRelease (this s) Null) w1
                                  (trace s ++ [EvMkdirp bd; EvHttpGet releaseUrl])%list))).
  { subst s'. rewrite init_unfold. cbv zeta. fold bd. rewrite Hmk.
    rewrite getLatestRelease_unfold. cbv zeta. cbn [this world trace].
    rewrite Hget. cbn [fst snd].
    rewrite (latest_of_candidates H re _ Hre), Hnone. cbn [oreduce this world trace].
    destruct (notifyOnUpdate (this s)).
    - split; [| discriminate].
      match goal with
      | |- latestRelease (this (snd (_updateLatestRelease H ?s2))) = Null =>
          destruct (poll_cases H s2)
            as [[T _] | (f & v & cv & s1 & s2' & _ & _ & Ecv & _)];
            [rewrite T; reflexivity | discriminate Ecv]
      end.
    - split; [reflexivity |]. intros _. rewrite <- app_assoc. reflexivity. }
  destruct Hnull as [Hnull Hret]. split; [exact Hnull |]. split; [exact Hret |].
  unfold getConfiguredChia. unfold_run. rewrite Hnull. simpl. eexists. reflexivity.
Qed.

(** X17. What a successful [getConfiguredChia] gives. The version is the
    one passed, or the cached one when none is passed; the supervisor
    returned is bound to [<binaryDirectory>/<version>/<binaryName>] and to
    the manager's root directory, which its operations pass after
    [--root-path]; it tracks no process; the binary file exists when the
    call returns; the manager object is unchanged and the release feed was
    not requested. *)
Theorem getConfiguredChia_returns (H : Host) (version : option string)
    (s s' : State H BinaryManager) (chia : Chia) :
  getConfiguredChia H version s = (Ok chia, s') ->
  exists v,
    (version = Some v \/ (version = None /\ cached_version (this s) = Some v)) /\
    chia = new_Chia (binary_path H (this s) v) (chiaRootDirectory (this s)) /\
    runningProcess chia = None /\
    _defaultArgs chia = [AStr "--root-path"; AStr (chiaRootDirectory (this s))] /\
    existsSync H (binaryPath chia) (world s') = true /\
    this s' = this s /\
    feed_requests (trace s') = feed_requests (trace s) /\
    downloads (trace s') <= S (downloads (trace s)).
Proof.
  intros E.
  assert (Hv : exists v,
            (version = Some v \/ (version = None /\ cached_version (this s) = Some v)) /\
            getConfiguredChia H (Some v) s = (Ok chia, s')).
  { destruct version as [v |]; [exists v; auto |].
    destruct (latestRelease (this s)) as [| | a] eqn:Hc.
    - unfold getConfiguredChia in E. unfold_run. rewrite Hc in E. discriminate E.
    - unfold getConfiguredChia in E. unfold_run. rewrite Hc in E. discriminate E.
    - rewrite (getConfiguredChia_default H s a Hc) in E.
      destruct (version a) as [v |] eqn:Hva.
      + exists v. split; [| exact E]. right. split; [reflexivity |].
        unfold cached_version. rewrite Hc. exact Hva.
      + exfalso. unfold getConfiguredChia, _getChiaBinaryPath in E. unfold_run.
        rewrite Hc in E. simpl in E. rewrite Hva in E.
        destruct (ensureVersionExists_undefined H s) as [msg Hmsg].
        rewrite Hmsg in E. simpl in E. inversion E. }
  destruct Hv as (v & Hversion & Hrun). exists v. split; [exact Hversion |].
  rewrite getConfiguredChia_unfold in Hrun.
  destruct (_ensureVersionExists H (Some v) s) as [[u | e] s1] eqn:Hens;
    [| discriminate Hrun].
  inversion Hrun; subst s1 chia. destruct u.
  destruct (ensureVersionExists_returns H (Some v) s s' Hens)
    as (v0 & Ev0 & Hthis & Hnow & _).
  inversion Ev0; subst v0.
  destruct (ensureVersionExists_counts H (Some v) s s' (Ok tt) Hens) as (Hd & _ & Hf).
  rewrite Hthis. simpl. repeat split; auto.
Qed.

(** X18. The memory budget of [createPlot]. The arguments hold [-b] at
    index 10 and the budget at index 11, whatever the other parameters. An
    integral budget is passed unchanged, a budget halfway between two
    integers is passed as the greater one (also below zero), no budget gives
    4000, the number passed is within one half of the budget, and of two
    calls the one with the greater budget never passes the smaller
    number. *)
Theorem memory_budget_rounding (c : Chia) (p : PlotParams) (n : Z) :
  Math_round (inject_Z n) = n /\
  Math_round (inject_Z n + (1 # 2))%Q = (n + 1)%Z /\
  (forall x y, (x <= y)%Q -> (Math_round x <= Math_round y)%Z) /\
  (memoryInMib p = Some (inject_Z n) ->
     exists front back,
       createPlot_args c p = (front ++ AStr "-b" :: ANum n :: back)%list) /\
  nth_error (createPlot_args c p) 10 = Some (AStr "-b") /\
  (memoryInMib p = Some (inject_Z n) ->
     nth_error (createPlot_args c p) 11 = Some (ANum n)) /\
  (memoryInMib p = Some (inject_Z n + (1 # 2))%Q ->
     nth_error (createPlot_args c p) 11 = Some (ANum (n + 1))) /\
  (memoryInMib p = None ->
     nth_error (createPlot_args c p) 11 = Some (ANum 4000)) /\
  (forall x, memoryInMib p = Some x ->
     exists k, nth_error (createPlot_args c p) 11 = Some (ANum k) /\
       (inject_Z k - (1 # 2) <= x)%Q /\ (x < inject_Z k + (1 # 2))%Q) /\
  (forall (q : PlotParams) x y kx ky,
     memoryInMib p = Some x -> memoryInMib q = Some y -> (x <= y)%Q ->
     nth_error (createPlot_args c p) 11 = Some (ANum kx) ->
     nth_error (createPlot_args c q) 11 = Some (ANum ky) ->
     (kx <= ky)%Z).
Proof.
  assert (Hint : Math_round (inject_Z n) = n).
  { unfold Math_round, Qfloor, Qplus, inject_Z. simpl.
    symmetry. apply Z.div_unique with (r := 1%Z); lia. }
  assert (Hhalf : Math_round (inject_Z n + (1 # 2))%Q = (n + 1)%Z).
  { unfold Math_round, Qfloor, Qplus, inject_Z. simpl.
    symmetry. apply Z.div_unique with (r := 0%Z); lia. }
  assert (Hmono : forall x y, (x <= y)%Q -> (Math_round x <= Math_round y)%Z).
  { intros x y Hxy. unfold Math_round. apply Qfloor_resp_le.
    apply Qplus_le_l. exact Hxy. }
  assert (Hat : forall q : PlotParams,
            nth_error (createPlot_args c q) 11 =
              Some (ANum (Math_round (default (4000 # 1)%Q (memoryInMib q))))).
  { intros q. rewrite createPlot_args_spec. reflexivity. }
  split; [exact Hint |]. split; [exact Hhalf |]. split; [exact Hmono |].
  split; [| split; [| split; [| split; [| split; [| split]]]]].
  - intros Hm. rewrite createPlot_args_spec. unfold spec_createPlot_args.
    rewrite Hm. cbn [default]. rewrite Hint.
    exists [AStr "--root-path"; AStr (rootDirectory c); AStr "plots"; AStr "create";
            AStr "-k"; ANum (default 32%Z (kSize p));
            AStr "-r"; ANum (default 2%Z (threads p));
            AStr "-u"; ANum (default 128%Z (buckets p))].
    eexists. reflexivity.
  - rewrite createPlot_args_spec. reflexivity.
  - intros Hm. rewrite Hat, Hm. cbn [default]. rewrite Hint. reflexivity.
  - intros Hm. rewrite Hat, Hm. cbn [default]. rewrite Hhalf. reflexivity.
  - intros Hm. rewrite Hat, Hm. reflexivity.
  - intros x Hm. exists (Math_round x). rewrite Hat, Hm. cbn [default].
    split; [reflexivity |]. apply Math_round_nearest.
  - intros q x y kx ky Hx Hy Hxy Hkx Hky.
    rewrite Hat, Hx in Hkx. rewrite Hat, Hy in Hky. cbn [default] in Hkx, Hky.
    inversion Hkx; inversion Hky; subst kx ky. apply Hmono. exact Hxy.
Qed.

(* ================================================================== *)
(** ** The further properties on the simulated host *)

Lemma version_shape_1_10_0 : version_shape "1.10.0".
Proof.
  exists "1", "10", "0". repeat split; try discriminate; reflexivity.
Qed.

(** X3 at work, on linux. *)
Lemma pattern_witness :
  regex_match (BinaryZip "-linux") "chia-1.10.0-linux.zip" = Some "1.10.0" /\
  holds_binary_zip "-linux" "1.10.0" "chia-1.10.0-linux.zip".
Proof.
  destruct (pattern_describes_names (sim "linux") (BinaryZip "-linux")
              "chia-1.10.0-linux.zip" eq_refl) as (tag & Etag & Hsound & _ & Hhere).
  inversion Etag; subst tag.
  assert (Hm : regex_match (BinaryZip "-linux") "chia-1.10.0-linux.zip" = Some "1.10.0").
  { exact (Hhere "1.10.0" "."%char "" version_shape_1_10_0 eq_refl). }
  split; [exact Hm | exact (Hsound "1.10.0" Hm)].
Defined.

(** X4 at work, on linux. *)
Lemma download_name_witness :
  exists tag,
    BinaryZip "-linux" = BinaryZip tag /\
    ((platform (sim "linux") = "win32" /\ tag = "-win") \/
     (platform (sim "linux") = "linux" /\ tag = "-linux")) /\
    _getDownloadUrl (sim "linux") (Some "1.10.0") =
      Ok ("https://github.com/felixbrucker/chia-binary-manager/releases/download/binaries/"
          ++ ("chia-" ++ "1.10.0" ++ tag ++ ".zip")) /\
    (forall c, In c (chars ("chia-" ++ "1.10.0" ++ tag ++ ".zip")) -> c <> "/"%char) /\
    regex_match (BinaryZip "-linux") ("chia-" ++ "1.10.0" ++ tag ++ ".zip")
      = Some "1.10.0" /\
    set_version (sim "linux") (mkAsset ("chia-" ++ "1.10.0" ++ tag ++ ".zip") None)
      = Ok (mkAsset ("chia-" ++ "1.10.0" ++ tag ++ ".zip") (Some "1.10.0")).
Proof.
  exact (download_name_round_trip (sim "linux") (BinaryZip "-linux") "1.10.0"
           eq_refl version_shape_1_10_0).
Defined.

(** X5 at work: the version fetched from the stocked feed. *)
Lemma fetched_version_witness :
  let s := start "linux" (example_manager "linux") stocked_world in
  exists v, version (mkAsset "chia-1.10.0-linux.zip" (Some "1.10.0")) = Some v /\
    version_shape v /\
    regex_match (BinaryZip "-linux") "chia-1.10.0-linux.zip" = Some v /\
    (forall c, In c (chars v) -> is_digit c = true \/ c = "."%char).
Proof.
  intros s.
  apply (fetched_version_is_plain (sim "linux") (BinaryZip "-linux") s
           (mkFeed (map asset_named ["chia-1.9.0-linux.zip"; "chia-1.10.0-linux.zip";
                                     "chia-9.9.9-win.zip"; "notes.txt"]))
           stocked_world eq_refl eq_refl).
  - intros a Ha _. destruct Ha as [<- | [<- | [<- | [<- | []]]]]; reflexivity.
  - reflexivity.
Defined.

(** X6 at work: of the two assets of version 1.2.0, the earlier one. *)
Lemma tie_witness :
  let s := start "linux" (example_manager "linux") tie_feed in
  fst (_getLatestRelease (sim "linux") s)
    = Ok (Some (mkAsset "chia-1.2.0-linux.zip" (Some "1.2.0"))) /\
  exists before after,
    candidates (BinaryZip "-linux")
      (map asset_named ["chia-1.1.0-linux.zip"; "chia-1.2.0-linux.zip";
                        "mirror-chia-1.2.0-linux.zip"; "chia-1.0.0-linux.zip"])
      = (before ++ mkAsset "chia-1.2.0-linux.zip" (Some "1.2.0") :: after)%list /\
    (forall x, In x before -> greater (sim "linux") (Some "1.2.0") (version x)) /\
    (forall x, In x after -> at_least (sim "linux") (Some "1.2.0") (version x)).
Proof.
  intros s. split; [reflexivity |].
  exact (lookup_keeps_first_greatest (sim "linux") (sim_semver_laws "linux")
           (BinaryZip "-linux") s
           (mkFeed (map asset_named ["chia-1.1.0-linux.zip"; "chia-1.2.0-linux.zip";
                                     "mirror-chia-1.2.0-linux.zip"; "chia-1.0.0-linux.zip"]))
           tie_feed eq_refl eq_refl
           (mkAsset "chia-1.2.0-linux.zip" (Some "1.2.0")) eq_refl).
Defined.

(** X7 at work: 01.0.0 beside 1.0.0 makes the lookup throw. *)
Lemma odd_version_witness :
  let s := start "linux" (example_manager "linux") odd_feed in
  exists msg, fst (_getLatestRelease (sim "linux") s) = Throw (TypeError msg).
Proof.
  intros s.
  destruct (lookup_validates_when_comparing (sim "linux") (BinaryZip "-linux") s
              (mkFeed (map asset_named ["chia-01.0.0-linux.zip"; "chia-1.0.0-linux.zip"]))
              odd_feed eq_refl eq_refl) as (_ & Hthrows & _).
  apply (Hthrows (mkAsset "chia-01.0.0-linux.zip" (Some "01.0.0"))).
  - simpl. lia.
  - left. reflexivity.
  - reflexivity.
Defined.

(** X9 at work: the six steps of acquiring 1.9.0. *)
Lemma acquisition_witness :
  let s := start "linux" (example_manager "linux") stocked_world in
  let s1 := snd (_ensureVersionExists (sim "linux") (Some "1.9.0") s) in
  trace s1 = acquisition_steps (sim "linux") (this s) "1.9.0" /\
  acquisition_steps (sim "linux") (this s) "1.9.0" =
    [EvMkdirp "/opt/chia/1.9.0"; EvMkdirp "/tmp/chia-binary-manager";
     EvHttpGetStream (linux_archive "1.9.0");
     EvWriteStream "/tmp/chia-binary-manager/chia-1.9.0.zip";
     EvDecompress "/tmp/chia-binary-manager/chia-1.9.0.zip" "/opt/chia/1.9.0";
     EvUnlink "/tmp/chia-binary-manager/chia-1.9.0.zip"] /\
  feed_requests (trace s1) = 0.
Proof.
  intros s s1.
  destruct (acquisition_effects (sim "linux") "1.9.0" s s1 (Ok tt) eq_refl)
    as (_ & n & Htrace & _ & Habsent & _ & _ & Hfeed & _).
  destruct (Habsent eq_refl) as [_ Hsix]. rewrite (Hsix eq_refl) in Htrace.
  split; [exact Htrace |]. split; [reflexivity | exact Hfeed].
Defined.

(** X10 at work: on darwin, two directories and the error. *)
Lemma unsupported_acquisition_witness :
  let s := start "darwin" (example_manager "darwin") stocked_world in
  fst (_ensureVersionExists (sim "darwin") (Some "1.9.0") s)
    = Throw (UnsupportedPlatform "darwin") /\
  trace (snd (_ensureVersionExists (sim "darwin") (Some "1.9.0") s))
    = [EvMkdirp "/opt/chia/1.9.0"; EvMkdirp "/tmp/chia-binary-manager"].
Proof.
  intros s.
  destruct (acquisition_on_unsupported_platform (sim "darwin") "1.9.0" s eq_refl)
    as [_ Habsent].
  destruct (Habsent eq_refl) as (_ & _ & Hboth).
  exact (Hboth tt tt eq_refl eq_refl).
Defined.

(** X11 at work: the archive holds a README only. *)
Lemma missing_binary_witness :
  let s := start "linux" (example_manager "linux") hollow_world in
  fst (_ensureVersionExists (sim "linux") (Some "1.9.0") s)
    = Throw (BinaryNotFound "/opt/chia/1.9.0/chia") /\
  downloads (trace (snd (_ensureVersionExists (sim "linux") (Some "1.9.0") s))) = 1.
Proof.
  intros s.
  set (s0 := mkState (H := sim "linux") (this s)
               (snd (mkdirp_sync (sim "linux")
                       (version_dir (sim "linux") (this s) "1.9.0") (world s)))
               (trace s ++ [EvMkdirp (version_dir (sim "linux") (this s) "1.9.0")])%list).
  destruct (missing_binary_after_download (sim "linux") "1.9.0" s
              (snd (_downloadBinary (sim "linux") (Some "1.9.0") s0)) tt tt
              eq_refl eq_refl eq_refl eq_refl) as (Hrun & _ & Hd & _).
  rewrite Hrun. split; [reflexivity | exact Hd].
Defined.

(** X13 at work: a manager with [null] cached ignores the stocked feed. *)
Lemma null_cache_witness :
  let s := mkState (H := sim "linux")
             (set_latestRelease (example_manager "linux") Null) stocked_world [] in
  this (polls (sim "linux") [fun w => w; fun w => w] s) = this s /\
  notifications (trace (polls (sim "linux") [fun w => w; fun w => w] s)) = [].
Proof.
  intros s.
  exact (poll_never_leaves_invalid_cache (sim "linux") s [fun w => w; fun w => w] eq_refl).
Defined.

(** X16 at work: [init] against a feed with nothing for linux. *)
Lemma init_without_release_witness :
  let s := start "linux" (example_manager "linux") foreign_feed in
  latestRelease (this (snd (init (sim "linux") s))) = Null /\
  exists msg,
    getConfiguredChia (sim "linux") None (snd (init (sim "linux") s))
      = (Throw (TypeError msg), snd (init (sim "linux") s)).
Proof.
  intros s.
  destruct (init_without_release (sim "linux") (BinaryZip "-linux") s
              (mkFeed (map asset_named ["notes.txt"; "chia-9.9.9-win.zip"]))
              (snd (mkdirp_sync (sim "linux") "/opt/chia" foreign_feed)) tt
              eq_refl eq_refl eq_refl eq_refl) as (Hnull & _ & Hthrows).
  split; [exact Hnull | exact Hthrows].
Defined.

(** X17 at work: the supervisor for 1.9.0. *)
Lemma getConfiguredChia_returns_witness :
  let s := start "linux" (example_manager "linux") stocked_world in
  exists v,
    v = "1.9.0" /\
    fst (getConfiguredChia (sim "linux") (Some "1.9.0") s)
      = Ok (new_Chia (binary_path (sim "linux") (this s) v) "/srv/chia-root") /\
    binary_path (sim "linux") (this s) v = "/opt/chia/1.9.0/chia".
Proof.
  intros s.
  destruct (getConfiguredChia_returns (sim "linux") (Some "1.9.0") s
              (snd (getConfiguredChia (sim "linux") (Some "1.9.0") s))
              (new_Chia "/opt/chia/1.9.0/chia" "/srv/chia-root") eq_refl)
    as (v & [Ev | [Ev _]] & Hchia & _); [| discriminate Ev].
  inversion Ev; subst v. exists "1.9.0". repeat split.
Defined.
